(** * ParticleSystem: a shallow embedding of
      packages/engine/Source/Scene/ParticleSystem.js

    JavaScript numbers are modelled by exact rationals ([Q]); equalities
    between numbers are therefore stated with [==].  Values that exact
    arithmetic cannot represent (NaN, the infinities) are outside the model,
    which is why statements that go through [CesiumMath.mod] ask for a
    non-zero lifetime.  Objects that are shared by reference (billboards, which
    both a particle and the billboard collection point to) live in a store
    indexed by handles; particles, which have a single owner at any time, are
    plain values.  The random generator of CesiumMath is a sequence of numbers
    with a count of those drawn, and [Math.sqrt] is a parameter. *)

From Stdlib Require Import ZArith QArith Qround Qabs Lia Lqa.
From stdpp Require Import base option list gmap.

Local Open Scope Q_scope.

(** ** Numbers *)

(** [Math.trunc] on rationals: rounding towards zero. *)
Definition Qtrunc (q : Q) : Z := Z.quot (Qnum q) (Zpos (Qden q)).

(** The remainder operator [m % n] of JavaScript: the result has the sign of
    the dividend. *)
Definition js_rem (m n : Q) : Q := m - n * inject_Z (Qtrunc (m / n)).

(** [x > y] and [x < y] as boolean tests. *)
Definition Qgtb (x y : Q) : bool :=
  match Qcompare x y with Gt => true | _ => false end.

Definition Qltb (x y : Q) : bool :=
  match Qcompare x y with Lt => true | _ => false end.

(** [Number.MAX_VALUE], the largest finite double. *)
Definition MAX_VALUE : Q := inject_Z (2 ^ 1024 - 2 ^ 971).

Module CesiumMath.

(** [Math.sign]. *)
Definition sign (x : Q) : Z :=
  match Qcompare x 0 with Lt => (-1)%Z | Eq => 0%Z | Gt => 1%Z end.

(** Modelled from the spec: CesiumMath.mod (Core/Math.js is not among the
    sources), the modulo operation that wraps [m] into the range of [n],
    also for a negative dividend. *)
Definition mod_ (m n : Q) : Q :=
  if (sign m =? sign n)%Z && Qltb (Qabs m) (Qabs n) then m
  else js_rem (js_rem m n + n) n.

(** Modelled from the spec: CesiumMath.lerp (Core/Math.js), linear
    interpolation between [p] and [q]. *)
Definition lerp (p q time : Q) : Q := (1 - time) * p + time * q.

(** Modelled from the spec: CesiumMath.clamp (Core/Math.js). *)
Definition clamp (value min max : Q) : Q :=
  if Qltb value min then min else if Qgtb value max then max else value.

End CesiumMath.

(** The random generator behind [CesiumMath.nextRandomNumber]: the sequence of
    numbers it will produce and how many of them have been drawn. *)
Record Random := { stream : nat -> Q; drawn : nat }.

Definition nextRandomNumber (r : Random) : Q * Random :=
  (stream r (drawn r), {| stream := stream r; drawn := S (drawn r) |}).

(** Modelled from the spec: CesiumMath.randomBetween (Core/Math.js), a value
    sampled between [min] and [max] from the next output of the generator. *)
Definition randomBetween (min max : Q) (r : Random) : Q * Random :=
  let '(x, r') := nextRandomNumber r in (x * (max - min) + min, r').

(** ** Vectors, matrices, colours *)

Module Cartesian2.

Record t := { x : Q; y : Q }.

End Cartesian2.

Abbreviation Cartesian2 := Cartesian2.t.

Module Color.

Record t := { red : Q; green : Q; blue : Q; alpha : Q }.

Definition WHITE : t := {| red := 1; green := 1; blue := 1; alpha := 1 |}.

End Color.

Abbreviation Color := Color.t.

Module Cartesian3.

Record t := { x : Q; y : Q; z : Q }.

Definition ZERO : t := {| x := 0; y := 0; z := 0 |}.

Definition UNIT_Z : t := {| x := 0; y := 0; z := 1 |}.

Definition add (l r : t) : t :=
  {| x := x l + x r; y := y l + y r; z := z l + z r |}.

Definition subtract (l r : t) : t :=
  {| x := x l - x r; y := y l - y r; z := z l - z r |}.

Definition multiplyByScalar (c : t) (s : Q) : t :=
  {| x := x c * s; y := y c * s; z := z c * s |}.

Definition magnitudeSquared (c : t) : Q :=
  x c * x c + y c * y c + z c * z c.

(** Component-wise equality of the numbers. *)
Definition equiv (l r : t) : Prop :=
  x l == x r /\ y l == y r /\ z l == z r.

End Cartesian3.

Abbreviation Cartesian3 := Cartesian3.t.

(** A 4x4 matrix, stored column by column as Matrix4 does: [m12 m13 m14] is
    the translation. *)
Module Matrix4.

Record t := {
  m0 : Q; m1 : Q; m2 : Q; m3 : Q;
  m4 : Q; m5 : Q; m6 : Q; m7 : Q;
  m8 : Q; m9 : Q; m10 : Q; m11 : Q;
  m12 : Q; m13 : Q; m14 : Q; m15 : Q }.

Definition IDENTITY : t :=
  {| m0 := 1; m1 := 0; m2 := 0; m3 := 0;
     m4 := 0; m5 := 1; m6 := 0; m7 := 0;
     m8 := 0; m9 := 0; m10 := 1; m11 := 0;
     m12 := 0; m13 := 0; m14 := 0; m15 := 1 |}.

(** Modelled from the spec: Matrix4.multiply (Core/Matrix4.js), the product
    [l * r] that combines the system matrix with the emitter matrix. *)
Definition multiply (l r : t) : t :=
  {| m0 := m0 l * m0 r + m4 l * m1 r + m8 l * m2 r + m12 l * m3 r;
     m1 := m1 l * m0 r + m5 l * m1 r + m9 l * m2 r + m13 l * m3 r;
     m2 := m2 l * m0 r + m6 l * m1 r + m10 l * m2 r + m14 l * m3 r;
     m3 := m3 l * m0 r + m7 l * m1 r + m11 l * m2 r + m15 l * m3 r;
     m4 := m0 l * m4 r + m4 l * m5 r + m8 l * m6 r + m12 l * m7 r;
     m5 := m1 l * m4 r + m5 l * m5 r + m9 l * m6 r + m13 l * m7 r;
     m6 := m2 l * m4 r + m6 l * m5 r + m10 l * m6 r + m14 l * m7 r;
     m7 := m3 l * m4 r + m7 l * m5 r + m11 l * m6 r + m15 l * m7 r;
     m8 := m0 l * m8 r + m4 l * m9 r + m8 l * m10 r + m12 l * m11 r;
     m9 := m1 l * m8 r + m5 l * m9 r + m9 l * m10 r + m13 l * m11 r;
     m10 := m2 l * m8 r + m6 l * m9 r + m10 l * m10 r + m14 l * m11 r;
     m11 := m3 l * m8 r + m7 l * m9 r + m11 l * m10 r + m15 l * m11 r;
     m12 := m0 l * m12 r + m4 l * m13 r + m8 l * m14 r + m12 l * m15 r;
     m13 := m1 l * m12 r + m5 l * m13 r + m9 l * m14 r + m13 l * m15 r;
     m14 := m2 l * m12 r + m6 l * m13 r + m10 l * m14 r + m14 l * m15 r;
     m15 := m3 l * m12 r + m7 l * m13 r + m11 l * m14 r + m15 l * m15 r |}.

(** Modelled from the spec: Matrix4.multiplyByPoint (Core/Matrix4.js): the
    point [c] with an implicit fourth coordinate 1, so that the translation
    of the matrix applies. *)
Definition multiplyByPoint (m : t) (c : Cartesian3) : Cartesian3 :=
  let vX := Cartesian3.x c in
  let vY := Cartesian3.y c in
  let vZ := Cartesian3.z c in
  {| Cartesian3.x := m0 m * vX + m4 m * vY + m8 m * vZ + m12 m;
     Cartesian3.y := m1 m * vX + m5 m * vY + m9 m * vZ + m13 m;
     Cartesian3.z := m2 m * vX + m6 m * vY + m10 m * vZ + m14 m |}.

(** Modelled from the spec: Matrix4.equals (Core/Matrix4.js), the
    component-wise comparison that decides whether an assigned matrix differs
    from the one in place. *)
Definition equals (l r : t) : bool :=
  Qeq_bool (m12 l) (m12 r) && Qeq_bool (m13 l) (m13 r)
  && Qeq_bool (m14 l) (m14 r)
  && Qeq_bool (m0 l) (m0 r) && Qeq_bool (m1 l) (m1 r)
  && Qeq_bool (m2 l) (m2 r)
  && Qeq_bool (m4 l) (m4 r) && Qeq_bool (m5 l) (m5 r)
  && Qeq_bool (m6 l) (m6 r)
  && Qeq_bool (m8 l) (m8 r) && Qeq_bool (m9 l) (m9 r)
  && Qeq_bool (m10 l) (m10 r)
  && Qeq_bool (m3 l) (m3 r) && Qeq_bool (m7 l) (m7 r)
  && Qeq_bool (m11 l) (m11 r) && Qeq_bool (m15 l) (m15 r).

(** Component-wise equality of the numbers. *)
Definition equiv (l r : t) : Prop :=
  m0 l == m0 r /\ m1 l == m1 r /\ m2 l == m2 r /\ m3 l == m3 r /\
  m4 l == m4 r /\ m5 l == m5 r /\ m6 l == m6 r /\ m7 l == m7 r /\
  m8 l == m8 r /\ m9 l == m9 r /\ m10 l == m10 r /\ m11 l == m11 r /\
  m12 l == m12 r /\ m13 l == m13 r /\ m14 l == m14 r /\ m15 l == m15 r.

End Matrix4.

Abbreviation Matrix4 := Matrix4.t.

(** ** Billboards and the billboard collection *)

(** An image is an opaque asset: [None] is [undefined]. *)
Definition Image := option nat.

Module Billboard.

(** The fields of a billboard that the particle system writes. *)
Record t := {
  show : bool;
  image : Image;
  width : option Q;
  height : option Q;
  position : Cartesian3;
  sizeInMeters : bool;
  color : Color;
  scale : Q }.

Definition set_show (v : bool) (b : t) : t :=
  {| show := v; image := image b; width := width b; height := height b;
     position := position b; sizeInMeters := sizeInMeters b;
     color := color b; scale := scale b |}.

End Billboard.

Abbreviation Billboard := Billboard.t.

Module BillboardCollection.

(** Modelled from the spec: BillboardCollection (Scene/BillboardCollection.js
    is not among the sources), the billboard sink with [add] returning a
    handle, [remove] taking one, and settable fields on a handle.  The
    billboards are kept in a store; a handle is the key of its billboard. *)
Record t := { billboards : gmap nat Billboard; nextHandle : nat }.

Definition new : t := {| billboards := ∅; nextHandle := 0 |}.

(** [add({image, show})]: the other fields take the defaults of a new
    billboard. *)
Definition add (img : Image) (shown : bool) (c : t) : nat * t :=
  let b := {| Billboard.show := shown; Billboard.image := img;
              Billboard.width := None; Billboard.height := None;
              Billboard.position := Cartesian3.ZERO;
              Billboard.sizeInMeters := false;
              Billboard.color := Color.WHITE; Billboard.scale := 1 |} in
  (nextHandle c,
   {| billboards := <[nextHandle c := b]> (billboards c);
      nextHandle := S (nextHandle c) |}).

Definition remove (h : option nat) (c : t) : t :=
  match h with
  | Some k => {| billboards := delete k (billboards c);
                 nextHandle := nextHandle c |}
  | None => c
  end.

(** Assignments to the fields of the billboard behind handle [h]. *)
Definition modify (f : Billboard -> Billboard) (h : nat) (c : t) : t :=
  {| billboards := alter f h (billboards c); nextHandle := nextHandle c |}.

Definition get (h : nat) (c : t) : option Billboard := billboards c !! h.

Definition length (c : t) : nat := size (billboards c).

End BillboardCollection.

Abbreviation BillboardCollection := BillboardCollection.t.

(** ** Particles and bursts *)

Module Particle.

Record t := {
  mass : Q;
  position : Cartesian3;
  velocity : Cartesian3;
  life : Q;
  image : Image;
  startColor : Color;
  endColor : Color;
  startScale : Q;
  endScale : Q;
  imageSize : Cartesian2;
  _age : Q;
  _normalizedAge : Q;
  _billboard : option nat }.

(** Modelled from the spec: [new Particle()] (Scene/Particle.js is not among
    the sources): a particle at rest with no billboard yet. *)
Definition new : t :=
  {| mass := 1; position := Cartesian3.ZERO; velocity := Cartesian3.ZERO;
     life := MAX_VALUE; image := None;
     startColor := Color.WHITE; endColor := Color.WHITE;
     startScale := 1; endScale := 1;
     imageSize := {| Cartesian2.x := 1; Cartesian2.y := 1 |};
     _age := 0; _normalizedAge := 0; _billboard := None |}.

Definition set__billboard (h : option nat) (p : t) : t :=
  {| mass := mass p; position := position p; velocity := velocity p;
     life := life p; image := image p;
     startColor := startColor p; endColor := endColor p;
     startScale := startScale p; endScale := endScale p;
     imageSize := imageSize p;
     _age := _age p; _normalizedAge := _normalizedAge p; _billboard := h |}.

Definition set_position (v : Cartesian3) (p : t) : t :=
  {| mass := mass p; position := v; velocity := velocity p;
     life := life p; image := image p;
     startColor := startColor p; endColor := endColor p;
     startScale := startScale p; endScale := endScale p;
     imageSize := imageSize p;
     _age := _age p; _normalizedAge := _normalizedAge p;
     _billboard := _billboard p |}.

Definition set_velocity (v : Cartesian3) (p : t) : t :=
  {| mass := mass p; position := position p; velocity := v;
     life := life p; image := image p;
     startColor := startColor p; endColor := endColor p;
     startScale := startScale p; endScale := endScale p;
     imageSize := imageSize p;
     _age := _age p; _normalizedAge := _normalizedAge p;
     _billboard := _billboard p |}.

Definition set__age (v : Q) (p : t) : t :=
  {| mass := mass p; position := position p; velocity := velocity p;
     life := life p; image := image p;
     startColor := startColor p; endColor := endColor p;
     startScale := startScale p; endScale := endScale p;
     imageSize := imageSize p;
     _age := v; _normalizedAge := _normalizedAge p;
     _billboard := _billboard p |}.

Definition set__normalizedAge (v : Q) (p : t) : t :=
  {| mass := mass p; position := position p; velocity := velocity p;
     life := life p; image := image p;
     startColor := startColor p; endColor := endColor p;
     startScale := startScale p; endScale := endScale p;
     imageSize := imageSize p;
     _age := _age p; _normalizedAge := v;
     _billboard := _billboard p |}.

(** Modelled from the spec: Particle.prototype.update (Scene/Particle.js is
    not among the sources).  The particle ages by [dt]; if it is then older
    than its life it is dead.  Otherwise the normalized age is recomputed,
    the update hook (if any) runs on the particle, and the position is
    integrated by one explicit Euler step.  Returns whether the particle is
    still alive, together with the particle as the call leaves it. *)
Definition update (dt : Q) (particleUpdateFunction : option (t -> Q -> t))
    (p : t) : bool * t :=
  let p := set__age (_age p + dt) p in
  if Qgtb (_age p) (life p) then (false, p)
  else
    let p := set__normalizedAge
               (CesiumMath.clamp (_age p / life p) 0 1) p in
    let p := match particleUpdateFunction with
             | Some f => f p dt
             | None => p
             end in
    let p := set_position
               (Cartesian3.add (position p)
                  (Cartesian3.multiplyByScalar (velocity p) dt)) p in
    (true, p).

End Particle.

Abbreviation Particle := Particle.t.

Module ParticleBurst.

(** A burst (Scene/ParticleBurst.js): when it fires, how many particles it
    emits, and whether it has fired. *)
Record t := { time : Q; minimum : Q; maximum : Q; _complete : bool }.

Definition set__complete (v : bool) (b : t) : t :=
  {| time := time b; minimum := minimum b; maximum := maximum b;
     _complete := v |}.

End ParticleBurst.

Abbreviation ParticleBurst := ParticleBurst.t.

(** An emitter: [emit(particle)] writes the particle's local position and
    velocity.  It may draw random numbers: it is given the numbers that the
    generator returns next and tells how many of them it has drawn. *)
Definition ParticleEmitter := Particle -> (nat -> Q) -> Particle * nat.

(** The update callback of a system: [callback(particle, dt)]. *)
Definition updateCallback_t := Particle -> Q -> Particle.

(** The [complete] event (Core/Event.js).  Its listeners are outside the
    system; what is recorded is how many times the event has been raised. *)
Record Event := { raised : nat }.

Definition raiseEvent (e : Event) : Event := {| raised := S (raised e) |}.

Module JulianDate.

(** Modelled from the spec: JulianDate (Core/JulianDate.js is not among the
    sources).  A date is the number of seconds since the epoch, and
    [secondsDifference(left, right)] is the time delta [left - right]. *)
Definition t := Q.

Definition secondsDifference (left right : t) : Q := left - right.

End JulianDate.

Abbreviation JulianDate := JulianDate.t.

(** ** The particle system *)

(** The fields of a ParticleSystem object.  [_random] is not a field of the
    object: it is the state of the generator of CesiumMath, which the system
    draws from, carried along with it. *)
Record System := {
  show : bool;
  updateCallback : option updateCallback_t;
  loop : bool;
  image : Image;
  _emitter : option ParticleEmitter;
  _bursts : option (list ParticleBurst);
  _modelMatrix : Matrix4;
  _emitterModelMatrix : Matrix4;
  _matrixDirty : bool;
  _combinedMatrix : Matrix4;
  _startColor : Color;
  _endColor : Color;
  _startScale : Q;
  _endScale : Q;
  _emissionRate : Q;
  _minimumSpeed : Q;
  _maximumSpeed : Q;
  _minimumParticleLife : Q;
  _maximumParticleLife : Q;
  _minimumMass : Q;
  _maximumMass : Q;
  _minimumImageSize : Cartesian2;
  _maximumImageSize : Cartesian2;
  _sizeInMeters : bool;
  _lifetime : Q;
  _billboardCollection : option BillboardCollection;
  _particles : list Particle;
  _particlePool : list Particle;
  _previousTime : option JulianDate;
  _currentTime : Q;
  _carryOver : Q;
  _complete : Event;
  _isComplete : bool;
  _updateParticlePool : bool;
  _particleEstimate : Z;
  _random : Random }.

(** Assignment to one field: [set_f v s] is [s] after [s.f = v]. *)
Definition set_show (v : bool) (s : System) : System :=
  Build_System v (updateCallback s) (loop s) (image s) (_emitter s)
    (_bursts s) (_modelMatrix s) (_emitterModelMatrix s) (_matrixDirty s)
    (_combinedMatrix s) (_startColor s) (_endColor s) (_startScale s)
    (_endScale s) (_emissionRate s) (_minimumSpeed s) (_maximumSpeed s)
    (_minimumParticleLife s) (_maximumParticleLife s) (_minimumMass s)
    (_maximumMass s) (_minimumImageSize s) (_maximumImageSize s)
    (_sizeInMeters s) (_lifetime s) (_billboardCollection s) (_particles s)
    (_particlePool s) (_previousTime s) (_currentTime s) (_carryOver s)
    (_complete s) (_isComplete s) (_updateParticlePool s)
    (_particleEstimate s) (_random s).

Definition set__bursts (v : option (list ParticleBurst)) (s : System) : System :=
  Build_System (show s) (updateCallback s) (loop s) (image s) (_emitter s) v
    (_modelMatrix s) (_emitterModelMatrix s) (_matrixDirty s)
    (_combinedMatrix s) (_startColor s) (_endColor s) (_startScale s)
    (_endScale s) (_emissionRate s) (_minimumSpeed s) (_maximumSpeed s)
    (_minimumParticleLife s) (_maximumParticleLife s) (_minimumMass s)
    (_maximumMass s) (_minimumImageSize s) (_maximumImageSize s)
    (_sizeInMeters s) (_lifetime s) (_billboardCollection s) (_particles s)
    (_particlePool s) (_previousTime s) (_currentTime s) (_carryOver s)
    (_complete s) (_isComplete s) (_updateParticlePool s)
    (_particleEstimate s) (_random s).

Definition set__matrixDirty (v : bool) (s : System) : System :=
  Build_System (show s) (updateCallback s) (loop s) (image s) (_emitter s)
    (_bursts s) (_modelMatrix s) (_emitterModelMatrix s) v
    (_combinedMatrix s) (_startColor s) (_endColor s) (_startScale s)
    (_endScale s) (_emissionRate s) (_minimumSpeed s) (_maximumSpeed s)
    (_minimumParticleLife s) (_maximumParticleLife s) (_minimumMass s)
    (_maximumMass s) (_minimumImageSize s) (_maximumImageSize s)
    (_sizeInMeters s) (_lifetime s) (_billboardCollection s) (_particles s)
    (_particlePool s) (_previousTime s) (_currentTime s) (_carryOver s)
    (_complete s) (_isComplete s) (_updateParticlePool s)
    (_particleEstimate s) (_random s).

Definition set__combinedMatrix (v : Matrix4) (s : System) : System :=
  Build_System (show s) (updateCallback s) (loop s) (image s) (_emitter s)
    (_bursts s) (_modelMatrix s) (_emitterModelMatrix s) (_matrixDirty s) v
    (_startColor s) (_endColor s) (_startScale s) (_endScale s)
    (_emissionRate s) (_minimumSpeed s) (_maximumSpeed s)
    (_minimumParticleLife s) (_maximumParticleLife s) (_minimumMass s)
    (_maximumMass s) (_minimumImageSize s) (_maximumImageSize s)
    (_sizeInMeters s) (_lifetime s) (_billboardCollection s) (_particles s)
    (_particlePool s) (_previousTime s) (_currentTime s) (_carryOver s)
    (_complete s) (_isComplete s) (_updateParticlePool s)
    (_particleEstimate s) (_random s).

Definition set__billboardCollection (v : option BillboardCollection) (s : System) : System :=
  Build_System (show s) (updateCallback s) (loop s) (image s) (_emitter s)
    (_bursts s) (_modelMatrix s) (_emitterModelMatrix s) (_matrixDirty s)
    (_combinedMatrix s) (_startColor s) (_endColor s) (_startScale s)
    (_endScale s) (_emissionRate s) (_minimumSpeed s) (_maximumSpeed s)
    (_minimumParticleLife s) (_maximumParticleLife s) (_minimumMass s)
    (_maximumMass s) (_minimumImageSize s) (_maximumImageSize s)
    (_sizeInMeters s) (_lifetime s) v (_particles s) (_particlePool s)
    (_previousTime s) (_currentTime s) (_carryOver s) (_complete s)
    (_isComplete s) (_updateParticlePool s) (_particleEstimate s)
    (_random s).

Definition set__particles (v : list Particle) (s : System) : System :=
  Build_System (show s) (updateCallback s) (loop s) (image s) (_emitter s)
    (_bursts s) (_modelMatrix s) (_emitterModelMatrix s) (_matrixDirty s)
    (_combinedMatrix s) (_startColor s) (_endColor s) (_startScale s)
    (_endScale s) (_emissionRate s) (_minimumSpeed s) (_maximumSpeed s)
    (_minimumParticleLife s) (_maximumParticleLife s) (_minimumMass s)
    (_maximumMass s) (_minimumImageSize s) (_maximumImageSize s)
    (_sizeInMeters s) (_lifetime s) (_billboardCollection s) v
    (_particlePool s) (_previousTime s) (_currentTime s) (_carryOver s)
    (_complete s) (_isComplete s) (_updateParticlePool s)
    (_particleEstimate s) (_random s).

Definition set__particlePool (v : list Particle) (s : System) : System :=
  Build_System (show s) (updateCallback s) (loop s) (image s) (_emitter s)
    (_bursts s) (_modelMatrix s) (_emitterModelMatrix s) (_matrixDirty s)
    (_combinedMatrix s) (_startColor s) (_endColor s) (_startScale s)
    (_endScale s) (_emissionRate s) (_minimumSpeed s) (_maximumSpeed s)
    (_minimumParticleLife s) (_maximumParticleLife s) (_minimumMass s)
    (_maximumMass s) (_minimumImageSize s) (_maximumImageSize s)
    (_sizeInMeters s) (_lifetime s) (_billboardCollection s) (_particles s)
    v (_previousTime s) (_currentTime s) (_carryOver s) (_complete s)
    (_isComplete s) (_updateParticlePool s) (_particleEstimate s)
    (_random s).

Definition set__previousTime (v : option JulianDate) (s : System) : System :=
  Build_System (show s) (updateCallback s) (loop s) (image s) (_emitter s)
    (_bursts s) (_modelMatrix s) (_emitterModelMatrix s) (_matrixDirty s)
    (_combinedMatrix s) (_startColor s) (_endColor s) (_startScale s)
    (_endScale s) (_emissionRate s) (_minimumSpeed s) (_maximumSpeed s)
    (_minimumParticleLife s) (_maximumParticleLife s) (_minimumMass s)
    (_maximumMass s) (_minimumImageSize s) (_maximumImageSize s)
    (_sizeInMeters s) (_lifetime s) (_billboardCollection s) (_particles s)
    (_particlePool s) v (_currentTime s) (_carryOver s) (_complete s)
    (_isComplete s) (_updateParticlePool s) (_particleEstimate s)
    (_random s).

Definition set__currentTime (v : Q) (s : System) : System :=
  Build_System (show s) (updateCallback s) (loop s) (image s) (_emitter s)
    (_bursts s) (_modelMatrix s) (_emitterModelMatrix s) (_matrixDirty s)
    (_combinedMatrix s) (_startColor s) (_endColor s) (_startScale s)
    (_endScale s) (_emissionRate s) (_minimumSpeed s) (_maximumSpeed s)
    (_minimumParticleLife s) (_maximumParticleLife s) (_minimumMass s)
    (_maximumMass s) (_minimumImageSize s) (_maximumImageSize s)
    (_sizeInMeters s) (_lifetime s) (_billboardCollection s) (_particles s)
    (_particlePool s) (_previousTime s) v (_carryOver s) (_complete s)
    (_isComplete s) (_updateParticlePool s) (_particleEstimate s)
    (_random s).

Definition set__carryOver (v : Q) (s : System) : System :=
  Build_System (show s) (updateCallback s) (loop s) (image s) (_emitter s)
    (_bursts s) (_modelMatrix s) (_emitterModelMatrix s) (_matrixDirty s)
    (_combinedMatrix s) (_startColor s) (_endColor s) (_startScale s)
    (_endScale s) (_emissionRate s) (_minimumSpeed s) (_maximumSpeed s)
    (_minimumParticleLife s) (_maximumParticleLife s) (_minimumMass s)
    (_maximumMass s) (_minimumImageSize s) (_maximumImageSize s)
    (_sizeInMeters s) (_lifetime s) (_billboardCollection s) (_particles s)
    (_particlePool s) (_previousTime s) (_currentTime s) v (_complete s)
    (_isComplete s) (_updateParticlePool s) (_particleEstimate s)
    (_random s).

Definition set__complete (v : Event) (s : System) : System :=
  Build_System (show s) (updateCallback s) (loop s) (image s) (_emitter s)
    (_bursts s) (_modelMatrix s) (_emitterModelMatrix s) (_matrixDirty s)
    (_combinedMatrix s) (_startColor s) (_endColor s) (_startScale s)
    (_endScale s) (_emissionRate s) (_minimumSpeed s) (_maximumSpeed s)
    (_minimumParticleLife s) (_maximumParticleLife s) (_minimumMass s)
    (_maximumMass s) (_minimumImageSize s) (_maximumImageSize s)
    (_sizeInMeters s) (_lifetime s) (_billboardCollection s) (_particles s)
    (_particlePool s) (_previousTime s) (_currentTime s) (_carryOver s) v
    (_isComplete s) (_updateParticlePool s) (_particleEstimate s)
    (_random s).

Definition set__isComplete (v : bool) (s : System) : System :=
  Build_System (show s) (updateCallback s) (loop s) (image s) (_emitter s)
    (_bursts s) (_modelMatrix s) (_emitterModelMatrix s) (_matrixDirty s)
    (_combinedMatrix s) (_startColor s) (_endColor s) (_startScale s)
    (_endScale s) (_emissionRate s) (_minimumSpeed s) (_maximumSpeed s)
    (_minimumParticleLife s) (_maximumParticleLife s) (_minimumMass s)
    (_maximumMass s) (_minimumImageSize s) (_maximumImageSize s)
    (_sizeInMeters s) (_lifetime s) (_billboardCollection s) (_particles s)
    (_particlePool s) (_previousTime s) (_currentTime s) (_carryOver s)
    (_complete s) v (_updateParticlePool s) (_particleEstimate s)
    (_random s).

Definition set__updateParticlePool (v : bool) (s : System) : System :=
  Build_System (show s) (updateCallback s) (loop s) (image s) (_emitter s)
    (_bursts s) (_modelMatrix s) (_emitterModelMatrix s) (_matrixDirty s)
    (_combinedMatrix s) (_startColor s) (_endColor s) (_startScale s)
    (_endScale s) (_emissionRate s) (_minimumSpeed s) (_maximumSpeed s)
    (_minimumParticleLife s) (_maximumParticleLife s) (_minimumMass s)
    (_maximumMass s) (_minimumImageSize s) (_maximumImageSize s)
    (_sizeInMeters s) (_lifetime s) (_billboardCollection s) (_particles s)
    (_particlePool s) (_previousTime s) (_currentTime s) (_carryOver s)
    (_complete s) (_isComplete s) v (_particleEstimate s) (_random s).

Definition set__particleEstimate (v : Z) (s : System) : System :=
  Build_System (show s) (updateCallback s) (loop s) (image s) (_emitter s)
    (_bursts s) (_modelMatrix s) (_emitterModelMatrix s) (_matrixDirty s)
    (_combinedMatrix s) (_startColor s) (_endColor s) (_startScale s)
    (_endScale s) (_emissionRate s) (_minimumSpeed s) (_maximumSpeed s)
    (_minimumParticleLife s) (_maximumParticleLife s) (_minimumMass s)
    (_maximumMass s) (_minimumImageSize s) (_maximumImageSize s)
    (_sizeInMeters s) (_lifetime s) (_billboardCollection s) (_particles s)
    (_particlePool s) (_previousTime s) (_currentTime s) (_carryOver s)
    (_complete s) (_isComplete s) (_updateParticlePool s) v (_random s).

Definition set__random (v : Random) (s : System) : System :=
  Build_System (show s) (updateCallback s) (loop s) (image s) (_emitter s)
    (_bursts s) (_modelMatrix s) (_emitterModelMatrix s) (_matrixDirty s)
    (_combinedMatrix s) (_startColor s) (_endColor s) (_startScale s)
    (_endScale s) (_emissionRate s) (_minimumSpeed s) (_maximumSpeed s)
    (_minimumParticleLife s) (_maximumParticleLife s) (_minimumMass s)
    (_maximumMass s) (_minimumImageSize s) (_maximumImageSize s)
    (_sizeInMeters s) (_lifetime s) (_billboardCollection s) (_particles s)
    (_particlePool s) (_previousTime s) (_currentTime s) (_carryOver s)
    (_complete s) (_isComplete s) (_updateParticlePool s)
    (_particleEstimate s) v.

Definition set__emissionRate (v : Q) (s : System) : System :=
  Build_System (show s) (updateCallback s) (loop s) (image s) (_emitter s)
    (_bursts s) (_modelMatrix s) (_emitterModelMatrix s) (_matrixDirty s)
    (_combinedMatrix s) (_startColor s) (_endColor s) (_startScale s)
    (_endScale s) v (_minimumSpeed s) (_maximumSpeed s)
    (_minimumParticleLife s) (_maximumParticleLife s) (_minimumMass s)
    (_maximumMass s) (_minimumImageSize s) (_maximumImageSize s)
    (_sizeInMeters s) (_lifetime s) (_billboardCollection s) (_particles s)
    (_particlePool s) (_previousTime s) (_currentTime s) (_carryOver s)
    (_complete s) (_isComplete s) (_updateParticlePool s)
    (_particleEstimate s) (_random s).

Definition set__maximumParticleLife (v : Q) (s : System) : System :=
  Build_System (show s) (updateCallback s) (loop s) (image s) (_emitter s)
    (_bursts s) (_modelMatrix s) (_emitterModelMatrix s) (_matrixDirty s)
    (_combinedMatrix s) (_startColor s) (_endColor s) (_startScale s)
    (_endScale s) (_emissionRate s) (_minimumSpeed s) (_maximumSpeed s)
    (_minimumParticleLife s) v (_minimumMass s) (_maximumMass s)
    (_minimumImageSize s) (_maximumImageSize s) (_sizeInMeters s)
    (_lifetime s) (_billboardCollection s) (_particles s) (_particlePool s)
    (_previousTime s) (_currentTime s) (_carryOver s) (_complete s)
    (_isComplete s) (_updateParticlePool s) (_particleEstimate s)
    (_random s).

Definition set_updateCallback (v : option updateCallback_t) (s : System)
  : System :=
  Build_System (show s) v (loop s) (image s) (_emitter s) (_bursts s)
    (_modelMatrix s) (_emitterModelMatrix s) (_matrixDirty s)
    (_combinedMatrix s) (_startColor s) (_endColor s) (_startScale s)
    (_endScale s) (_emissionRate s) (_minimumSpeed s) (_maximumSpeed s)
    (_minimumParticleLife s) (_maximumParticleLife s) (_minimumMass s)
    (_maximumMass s) (_minimumImageSize s) (_maximumImageSize s)
    (_sizeInMeters s) (_lifetime s) (_billboardCollection s) (_particles s)
    (_particlePool s) (_previousTime s) (_currentTime s) (_carryOver s)
    (_complete s) (_isComplete s) (_updateParticlePool s)
    (_particleEstimate s) (_random s).

Definition set_loop (v : bool) (s : System) : System :=
  Build_System (show s) (updateCallback s) v (image s) (_emitter s)
    (_bursts s) (_modelMatrix s) (_emitterModelMatrix s) (_matrixDirty s)
    (_combinedMatrix s) (_startColor s) (_endColor s) (_startScale s)
    (_endScale s) (_emissionRate s) (_minimumSpeed s) (_maximumSpeed s)
    (_minimumParticleLife s) (_maximumParticleLife s) (_minimumMass s)
    (_maximumMass s) (_minimumImageSize s) (_maximumImageSize s)
    (_sizeInMeters s) (_lifetime s) (_billboardCollection s) (_particles s)
    (_particlePool s) (_previousTime s) (_currentTime s) (_carryOver s)
    (_complete s) (_isComplete s) (_updateParticlePool s)
    (_particleEstimate s) (_random s).

Definition set_image (v : Image) (s : System) : System :=
  Build_System (show s) (updateCallback s) (loop s) v (_emitter s)
    (_bursts s) (_modelMatrix s) (_emitterModelMatrix s) (_matrixDirty s)
    (_combinedMatrix s) (_startColor s) (_endColor s) (_startScale s)
    (_endScale s) (_emissionRate s) (_minimumSpeed s) (_maximumSpeed s)
    (_minimumParticleLife s) (_maximumParticleLife s) (_minimumMass s)
    (_maximumMass s) (_minimumImageSize s) (_maximumImageSize s)
    (_sizeInMeters s) (_lifetime s) (_billboardCollection s) (_particles s)
    (_particlePool s) (_previousTime s) (_currentTime s) (_carryOver s)
    (_complete s) (_isComplete s) (_updateParticlePool s)
    (_particleEstimate s) (_random s).

Definition set__emitter (v : option ParticleEmitter) (s : System) : System :=
  Build_System (show s) (updateCallback s) (loop s) (image s) v (_bursts s)
    (_modelMatrix s) (_emitterModelMatrix s) (_matrixDirty s)
    (_combinedMatrix s) (_startColor s) (_endColor s) (_startScale s)
    (_endScale s) (_emissionRate s) (_minimumSpeed s) (_maximumSpeed s)
    (_minimumParticleLife s) (_maximumParticleLife s) (_minimumMass s)
    (_maximumMass s) (_minimumImageSize s) (_maximumImageSize s)
    (_sizeInMeters s) (_lifetime s) (_billboardCollection s) (_particles s)
    (_particlePool s) (_previousTime s) (_currentTime s) (_carryOver s)
    (_complete s) (_isComplete s) (_updateParticlePool s)
    (_particleEstimate s) (_random s).

Definition set__modelMatrix (v : Matrix4) (s : System) : System :=
  Build_System (show s) (updateCallback s) (loop s) (image s) (_emitter s)
    (_bursts s) v (_emitterModelMatrix s) (_matrixDirty s)
    (_combinedMatrix s) (_startColor s) (_endColor s) (_startScale s)
    (_endScale s) (_emissionRate s) (_minimumSpeed s) (_maximumSpeed s)
    (_minimumParticleLife s) (_maximumParticleLife s) (_minimumMass s)
    (_maximumMass s) (_minimumImageSize s) (_maximumImageSize s)
    (_sizeInMeters s) (_lifetime s) (_billboardCollection s) (_particles s)
    (_particlePool s) (_previousTime s) (_currentTime s) (_carryOver s)
    (_complete s) (_isComplete s) (_updateParticlePool s)
    (_particleEstimate s) (_random s).

Definition set__emitterModelMatrix (v : Matrix4) (s : System) : System :=
  Build_System (show s) (updateCallback s) (loop s) (image s) (_emitter s)
    (_bursts s) (_modelMatrix s) v (_matrixDirty s) (_combinedMatrix s)
    (_startColor s) (_endColor s) (_startScale s) (_endScale s)
    (_emissionRate s) (_minimumSpeed s) (_maximumSpeed s)
    (_minimumParticleLife s) (_maximumParticleLife s) (_minimumMass s)
    (_maximumMass s) (_minimumImageSize s) (_maximumImageSize s)
    (_sizeInMeters s) (_lifetime s) (_billboardCollection s) (_particles s)
    (_particlePool s) (_previousTime s) (_currentTime s) (_carryOver s)
    (_complete s) (_isComplete s) (_updateParticlePool s)
    (_particleEstimate s) (_random s).

Definition set__startColor (v : Color) (s : System) : System :=
  Build_System (show s) (updateCallback s) (loop s) (image s) (_emitter s)
    (_bursts s) (_modelMatrix s) (_emitterModelMatrix s) (_matrixDirty s)
    (_combinedMatrix s) v (_endColor s) (_startScale s) (_endScale s)
    (_emissionRate s) (_minimumSpeed s) (_maximumSpeed s)
    (_minimumParticleLife s) (_maximumParticleLife s) (_minimumMass s)
    (_maximumMass s) (_minimumImageSize s) (_maximumImageSize s)
    (_sizeInMeters s) (_lifetime s) (_billboardCollection s) (_particles s)
    (_particlePool s) (_previousTime s) (_currentTime s) (_carryOver s)
    (_complete s) (_isComplete s) (_updateParticlePool s)
    (_particleEstimate s) (_random s).

Definition set__endColor (v : Color) (s : System) : System :=
  Build_System (show s) (updateCallback s) (loop s) (image s) (_emitter s)
    (_bursts s) (_modelMatrix s) (_emitterModelMatrix s) (_matrixDirty s)
    (_combinedMatrix s) (_startColor s) v (_startScale s) (_endScale s)
    (_emissionRate s) (_minimumSpeed s) (_maximumSpeed s)
    (_minimumParticleLife s) (_maximumParticleLife s) (_minimumMass s)
    (_maximumMass s) (_minimumImageSize s) (_maximumImageSize s)
    (_sizeInMeters s) (_lifetime s) (_billboardCollection s) (_particles s)
    (_particlePool s) (_previousTime s) (_currentTime s) (_carryOver s)
    (_complete s) (_isComplete s) (_updateParticlePool s)
    (_particleEstimate s) (_random s).

Definition set__startScale (v : Q) (s : System) : System :=
  Build_System (show s) (updateCallback s) (loop s) (image s) (_emitter s)
    (_bursts s) (_modelMatrix s) (_emitterModelMatrix s) (_matrixDirty s)
    (_combinedMatrix s) (_startColor s) (_endColor s) v (_endScale s)
    (_emissionRate s) (_minimumSpeed s) (_maximumSpeed s)
    (_minimumParticleLife s) (_maximumParticleLife s) (_minimumMass s)
    (_maximumMass s) (_minimumImageSize s) (_maximumImageSize s)
    (_sizeInMeters s) (_lifetime s) (_billboardCollection s) (_particles s)
    (_particlePool s) (_previousTime s) (_currentTime s) (_carryOver s)
    (_complete s) (_isComplete s) (_updateParticlePool s)
    (_particleEstimate s) (_random s).

Definition set__endScale (v : Q) (s : System) : System :=
  Build_System (show s) (updateCallback s) (loop s) (image s) (_emitter s)
    (_bursts s) (_modelMatrix s) (_emitterModelMatrix s) (_matrixDirty s)
    (_combinedMatrix s) (_startColor s) (_endColor s) (_startScale s) v
    (_emissionRate s) (_minimumSpeed s) (_maximumSpeed s)
    (_minimumParticleLife s) (_maximumParticleLife s) (_minimumMass s)
    (_maximumMass s) (_minimumImageSize s) (_maximumImageSize s)
    (_sizeInMeters s) (_lifetime s) (_billboardCollection s) (_particles s)
    (_particlePool s) (_previousTime s) (_currentTime s) (_carryOver s)
    (_complete s) (_isComplete s) (_updateParticlePool s)
    (_particleEstimate s) (_random s).

Definition set__minimumSpeed (v : Q) (s : System) : System :=
  Build_System (show s) (updateCallback s) (loop s) (image s) (_emitter s)
    (_bursts s) (_modelMatrix s) (_emitterModelMatrix s) (_matrixDirty s)
    (_combinedMatrix s) (_startColor s) (_endColor s) (_startScale s)
    (_endScale s) (_emissionRate s) v (_maximumSpeed s)
    (_minimumParticleLife s) (_maximumParticleLife s) (_minimumMass s)
    (_maximumMass s) (_minimumImageSize s) (_maximumImageSize s)
    (_sizeInMeters s) (_lifetime s) (_billboardCollection s) (_particles s)
    (_particlePool s) (_previousTime s) (_currentTime s) (_carryOver s)
    (_complete s) (_isComplete s) (_updateParticlePool s)
    (_particleEstimate s) (_random s).

Definition set__maximumSpeed (v : Q) (s : System) : System :=
  Build_System (show s) (updateCallback s) (loop s) (image s) (_emitter s)
    (_bursts s) (_modelMatrix s) (_emitterModelMatrix s) (_matrixDirty s)
    (_combinedMatrix s) (_startColor s) (_endColor s) (_startScale s)
    (_endScale s) (_emissionRate s) (_minimumSpeed s) v
    (_minimumParticleLife s) (_maximumParticleLife s) (_minimumMass s)
    (_maximumMass s) (_minimumImageSize s) (_maximumImageSize s)
    (_sizeInMeters s) (_lifetime s) (_billboardCollection s) (_particles s)
    (_particlePool s) (_previousTime s) (_currentTime s) (_carryOver s)
    (_complete s) (_isComplete s) (_updateParticlePool s)
    (_particleEstimate s) (_random s).

Definition set__minimumParticleLife (v : Q) (s : System) : System :=
  Build_System (show s) (updateCallback s) (loop s) (image s) (_emitter s)
    (_bursts s) (_modelMatrix s) (_emitterModelMatrix s) (_matrixDirty s)
    (_combinedMatrix s) (_startColor s) (_endColor s) (_startScale s)
    (_endScale s) (_emissionRate s) (_minimumSpeed s) (_maximumSpeed s) v
    (_maximumParticleLife s) (_minimumMass s) (_maximumMass s)
    (_minimumImageSize s) (_maximumImageSize s) (_sizeInMeters s)
    (_lifetime s) (_billboardCollection s) (_particles s) (_particlePool s)
    (_previousTime s) (_currentTime s) (_carryOver s) (_complete s)
    (_isComplete s) (_updateParticlePool s) (_particleEstimate s)
    (_random s).

Definition set__minimumMass (v : Q) (s : System) : System :=
  Build_System (show s) (updateCallback s) (loop s) (image s) (_emitter s)
    (_bursts s) (_modelMatrix s) (_emitterModelMatrix s) (_matrixDirty s)
    (_combinedMatrix s) (_startColor s) (_endColor s) (_startScale s)
    (_endScale s) (_emissionRate s) (_minimumSpeed s) (_maximumSpeed s)
    (_minimumParticleLife s) (_maximumParticleLife s) v (_maximumMass s)
    (_minimumImageSize s) (_maximumImageSize s) (_sizeInMeters s)
    (_lifetime s) (_billboardCollection s) (_particles s) (_particlePool s)
    (_previousTime s) (_currentTime s) (_carryOver s) (_complete s)
    (_isComplete s) (_updateParticlePool s) (_particleEstimate s)
    (_random s).

Definition set__maximumMass (v : Q) (s : System) : System :=
  Build_System (show s) (updateCallback s) (loop s) (image s) (_emitter s)
    (_bursts s) (_modelMatrix s) (_emitterModelMatrix s) (_matrixDirty s)
    (_combinedMatrix s) (_startColor s) (_endColor s) (_startScale s)
    (_endScale s) (_emissionRate s) (_minimumSpeed s) (_maximumSpeed s)
    (_minimumParticleLife s) (_maximumParticleLife s) (_minimumMass s) v
    (_minimumImageSize s) (_maximumImageSize s) (_sizeInMeters s)
    (_lifetime s) (_billboardCollection s) (_particles s) (_particlePool s)
    (_previousTime s) (_currentTime s) (_carryOver s) (_complete s)
    (_isComplete s) (_updateParticlePool s) (_particleEstimate s)
    (_random s).

Definition set__minimumImageSize (v : Cartesian2) (s : System) : System :=
  Build_System (show s) (updateCallback s) (loop s) (image s) (_emitter s)
    (_bursts s) (_modelMatrix s) (_emitterModelMatrix s) (_matrixDirty s)
    (_combinedMatrix s) (_startColor s) (_endColor s) (_startScale s)
    (_endScale s) (_emissionRate s) (_minimumSpeed s) (_maximumSpeed s)
    (_minimumParticleLife s) (_maximumParticleLife s) (_minimumMass s)
    (_maximumMass s) v (_maximumImageSize s) (_sizeInMeters s) (_lifetime s)
    (_billboardCollection s) (_particles s) (_particlePool s)
    (_previousTime s) (_currentTime s) (_carryOver s) (_complete s)
    (_isComplete s) (_updateParticlePool s) (_particleEstimate s)
    (_random s).

Definition set__maximumImageSize (v : Cartesian2) (s : System) : System :=
  Build_System (show s) (updateCallback s) (loop s) (image s) (_emitter s)
    (_bursts s) (_modelMatrix s) (_emitterModelMatrix s) (_matrixDirty s)
    (_combinedMatrix s) (_startColor s) (_endColor s) (_startScale s)
    (_endScale s) (_emissionRate s) (_minimumSpeed s) (_maximumSpeed s)
    (_minimumParticleLife s) (_maximumParticleLife s) (_minimumMass s)
    (_maximumMass s) (_minimumImageSize s) v (_sizeInMeters s) (_lifetime s)
    (_billboardCollection s) (_particles s) (_particlePool s)
    (_previousTime s) (_currentTime s) (_carryOver s) (_complete s)
    (_isComplete s) (_updateParticlePool s) (_particleEstimate s)
    (_random s).

Definition set__sizeInMeters (v : bool) (s : System) : System :=
  Build_System (show s) (updateCallback s) (loop s) (image s) (_emitter s)
    (_bursts s) (_modelMatrix s) (_emitterModelMatrix s) (_matrixDirty s)
    (_combinedMatrix s) (_startColor s) (_endColor s) (_startScale s)
    (_endScale s) (_emissionRate s) (_minimumSpeed s) (_maximumSpeed s)
    (_minimumParticleLife s) (_maximumParticleLife s) (_minimumMass s)
    (_maximumMass s) (_minimumImageSize s) (_maximumImageSize s) v
    (_lifetime s) (_billboardCollection s) (_particles s) (_particlePool s)
    (_previousTime s) (_currentTime s) (_carryOver s) (_complete s)
    (_isComplete s) (_updateParticlePool s) (_particleEstimate s)
    (_random s).

Definition set__lifetime (v : Q) (s : System) : System :=
  Build_System (show s) (updateCallback s) (loop s) (image s) (_emitter s)
    (_bursts s) (_modelMatrix s) (_emitterModelMatrix s) (_matrixDirty s)
    (_combinedMatrix s) (_startColor s) (_endColor s) (_startScale s)
    (_endScale s) (_emissionRate s) (_minimumSpeed s) (_maximumSpeed s)
    (_minimumParticleLife s) (_maximumParticleLife s) (_minimumMass s)
    (_maximumMass s) (_minimumImageSize s) (_maximumImageSize s)
    (_sizeInMeters s) v (_billboardCollection s) (_particles s)
    (_particlePool s) (_previousTime s) (_currentTime s) (_carryOver s)
    (_complete s) (_isComplete s) (_updateParticlePool s)
    (_particleEstimate s) (_random s).

(** What update reads of the frame state. *)
Record FrameState := { time : JulianDate; frameNumber : Z }.

(** The options object of the constructor: every property may be absent. *)
Module Options.

Record t := {
  show : option bool;
  updateCallback : option updateCallback_t;
  emitter : option ParticleEmitter;
  modelMatrix : option Matrix4;
  emitterModelMatrix : option Matrix4;
  emissionRate : option Q;
  bursts : option (list ParticleBurst);
  loop : option bool;
  scale : option Q;
  startScale : option Q;
  endScale : option Q;
  color : option Color;
  startColor : option Color;
  endColor : option Color;
  image : Image;
  imageSize : option Cartesian2;
  minimumImageSize : option Cartesian2;
  maximumImageSize : option Cartesian2;
  sizeInMeters : option bool;
  speed : option Q;
  minimumSpeed : option Q;
  maximumSpeed : option Q;
  lifetime : option Q;
  particleLife : option Q;
  minimumParticleLife : option Q;
  maximumParticleLife : option Q;
  mass : option Q;
  minimumMass : option Q;
  maximumMass : option Q }.

(** [Frozen.EMPTY_OBJECT]. *)
Definition EMPTY_OBJECT : t :=
  Build_t None None None None None None None None None None None None None
    None None None None None None None None None None None None None None
    None None.

End Options.

(** [a ?? b ?? c]. *)
Definition nullish2 {A} (a b : option A) (c : A) : A :=
  match a with
  | Some v => v
  | None => default c b
  end.

Definition defaultImageSize : Cartesian2 :=
  {| Cartesian2.x := 1; Cartesian2.y := 1 |}.

(** [new Matrix4()]. *)
Definition Matrix4_new : Matrix4 :=
  Matrix4.Build_t 0 0 0 0 0 0 0 0 0 0 0 0 0 0 0 0.

(** A call on a system from outside: an assignment to one of its public
    fields ([show], [updateCallback], [loop], [image]) or properties, or
    update. *)
Inductive Call :=
| assign_show (value : bool)
| assign_updateCallback (value : option updateCallback_t)
| assign_loop (value : bool)
| assign_image (value : Image)
| assign_emitter (value : option ParticleEmitter)
| assign_bursts (value : option (list ParticleBurst))
| assign_modelMatrix (value : Matrix4)
| assign_emitterModelMatrix (value : Matrix4)
| assign_startColor (value : Color)
| assign_endColor (value : Color)
| assign_startScale (value : Q)
| assign_endScale (value : Q)
| assign_emissionRate (value : Q)
| assign_minimumSpeed (value : Q)
| assign_maximumSpeed (value : Q)
| assign_minimumParticleLife (value : Q)
| assign_maximumParticleLife (value : Q)
| assign_minimumMass (value : Q)
| assign_maximumMass (value : Q)
| assign_minimumImageSize (value : Cartesian2)
| assign_maximumImageSize (value : Cartesian2)
| assign_sizeInMeters (value : bool)
| assign_lifetime (value : Q)
| call_update (frameState : FrameState).

(** Modelled from the spec: Check.typeOf.number.greaterThanOrEquals
    (Core/Check.js is not among the sources), the check at the head of a
    setter, which rejects the assignment of a number below [limit] with an
    exception.  [None] is the exception; the system is then left as it
    was. *)
Definition greaterThanOrEquals (value limit : Q) (s : System)
  : option System :=
  if Qltb value limit then None else Some s.

Section Model.

(** [Math.sqrt]; exact arithmetic has no square root of its own. *)
Variable Math_sqrt : Q -> Q.

(** [new CircleEmitter(radius)], the default emitter
    (Scene/CircleEmitter.js is not among the sources). *)
Variable CircleEmitter : Q -> ParticleEmitter.

(** Modelled from the spec: Cartesian3.normalize (Core/Cartesian3.js is not
    among the sources): the vector divided by its magnitude. *)
Definition normalize (c : Cartesian3) : Cartesian3 :=
  let magnitude := Math_sqrt (Cartesian3.magnitudeSquared c) in
  {| Cartesian3.x := Cartesian3.x c / magnitude;
     Cartesian3.y := Cartesian3.y c / magnitude;
     Cartesian3.z := Cartesian3.z c / magnitude |}.

(** The constructor.  [rnd] is the generator the system will draw from. *)
Definition ParticleSystem (options : Options.t) (rnd : Random) : System :=
  {| show := default true (Options.show options);
     updateCallback := Options.updateCallback options;
     loop := default true (Options.loop options);
     image := Options.image options;
     _emitter := Some (default (CircleEmitter (1 # 2))
                         (Options.emitter options));
     _bursts := Options.bursts options;
     _modelMatrix := default Matrix4.IDENTITY (Options.modelMatrix options);
     _emitterModelMatrix :=
       default Matrix4.IDENTITY (Options.emitterModelMatrix options);
     _matrixDirty := true;
     _combinedMatrix := Matrix4_new;
     _startColor := nullish2 (Options.color options)
                      (Options.startColor options) Color.WHITE;
     _endColor := nullish2 (Options.color options)
                    (Options.endColor options) Color.WHITE;
     _startScale := nullish2 (Options.scale options)
                      (Options.startScale options) 1;
     _endScale := nullish2 (Options.scale options)
                    (Options.endScale options) 1;
     _emissionRate := default 5 (Options.emissionRate options);
     _minimumSpeed := nullish2 (Options.speed options)
                        (Options.minimumSpeed options) 1;
     _maximumSpeed := nullish2 (Options.speed options)
                        (Options.maximumSpeed options) 1;
     _minimumParticleLife := nullish2 (Options.particleLife options)
                               (Options.minimumParticleLife options) 5;
     _maximumParticleLife := nullish2 (Options.particleLife options)
                               (Options.maximumParticleLife options) 5;
     _minimumMass := nullish2 (Options.mass options)
                       (Options.minimumMass options) 1;
     _maximumMass := nullish2 (Options.mass options)
                       (Options.maximumMass options) 1;
     _minimumImageSize := nullish2 (Options.imageSize options)
                            (Options.minimumImageSize options)
                            defaultImageSize;
     _maximumImageSize := nullish2 (Options.imageSize options)
                            (Options.maximumImageSize options)
                            defaultImageSize;
     _sizeInMeters := default false (Options.sizeInMeters options);
     _lifetime := default MAX_VALUE (Options.lifetime options);
     _billboardCollection := None;
     _particles := [];
     _particlePool := [];
     _previousTime := None;
     _currentTime := 0;
     _carryOver := 0;
     _complete := {| raised := 0 |};
     _isComplete := false;
     _updateParticlePool := true;
     _particleEstimate := 0%Z;
     _random := rnd |}.

(** The property setters that affect how many particles are needed. *)
Definition set_bursts (value : option (list ParticleBurst)) (s : System)
  : System :=
  set__updateParticlePool true (set__bursts value s).

Definition set_emissionRate (value : Q) (s : System) : System :=
  set__updateParticlePool true (set__emissionRate value s).

Definition set_maximumParticleLife (value : Q) (s : System) : System :=
  set__updateParticlePool true (set__maximumParticleLife value s).

(** [system._billboardCollection] where update has made sure it exists. *)
Definition collection (s : System) : BillboardCollection :=
  default BillboardCollection.new (_billboardCollection s).

(** The sum of [bursts[i].maximum]. *)
Definition burstAmount (bursts : option (list ParticleBurst)) : Q :=
  match bursts with
  | Some bs =>
      fold_left (fun acc b => acc + ParticleBurst.maximum b) bs 0
  | None => 0
  end.

(** The allocation loop of updateParticlePool: [numToAdd] new particles,
    each with a hidden billboard, pushed onto the pool. *)
Fixpoint allocate (numToAdd : nat) (img : Image) (pool : list Particle)
    (c : BillboardCollection) : list Particle * BillboardCollection :=
  match numToAdd with
  | O => (pool, c)
  | S n =>
      let '(h, c) := BillboardCollection.add img false c in
      let particle := Particle.set__billboard (Some h) Particle.new in
      allocate n img (pool ++ [particle]) c
  end.

Definition updateParticlePool (s : System) : System :=
  let emissionRate := _emissionRate s in
  let life := _maximumParticleLife s in
  let particleEstimate :=
    Qceiling (emissionRate * life + burstAmount (_bursts s)) in
  let numToAdd :=
    Z.max (particleEstimate - Z.of_nat (length (_particles s))
           - Z.of_nat (length (_particlePool s))) 0 in
  let '(pool, c) :=
    allocate (Z.to_nat numToAdd) (image s) (_particlePool s)
      (collection s) in
  set__particleEstimate particleEstimate
    (set__particlePool pool (set__billboardCollection (Some c) s)).

(** [system._particlePool.pop()], or a new particle when the pool is
    empty. *)
Definition getOrCreateParticle (s : System) : Particle * System :=
  match last (_particlePool s) with
  | Some particle =>
      (particle, set__particlePool (removelast (_particlePool s)) s)
  | None => (Particle.new, s)
  end.

(** addParticleToPool: a push onto the pool, as the particle loop does it
    below. *)
Definition addParticleToPool (s : System) (particle : Particle) : System :=
  set__particlePool (_particlePool s ++ [particle]) s.

(** The removal loop of freeParticlePool. *)
Definition removeAll (ps : list Particle) (c : BillboardCollection)
  : BillboardCollection :=
  fold_left (fun c p => BillboardCollection.remove (Particle._billboard p) c)
    ps c.

(** freeParticlePool.  A negative [start] makes the loop read
    [particlePool[start]], which is undefined, and the access to its
    billboard throws: the result is then [None]. *)
Definition freeParticlePool (s : System) : option System :=
  let numParticles := Z.of_nat (length (_particles s)) in
  let numInPool := Z.of_nat (length (_particlePool s)) in
  let estimate := _particleEstimate s in
  let start :=
    (numInPool - Z.max (estimate - numParticles - numInPool) 0)%Z in
  if (start <? 0)%Z then None
  else
    let c := removeAll (drop (Z.to_nat start) (_particlePool s))
               (collection s) in
    Some (set__particlePool (take (Z.to_nat start) (_particlePool s))
            (set__billboardCollection (Some c) s)).

Definition removeBillboard (particle : Particle) (c : BillboardCollection)
  : BillboardCollection :=
  match Particle._billboard particle with
  | Some h => BillboardCollection.modify (Billboard.set_show false) h c
  | None => c
  end.

(** What updateBillboard assigns to the billboard of [particle]. *)
Definition pushToBillboard (sizeInMeters : bool) (particle : Particle)
    (b : Billboard) : Billboard :=
  let age := Particle._normalizedAge particle in
  let sc := Particle.startColor particle in
  let ec := Particle.endColor particle in
  {| Billboard.show := true;
     Billboard.image := Billboard.image b;
     Billboard.width := Some (Cartesian2.x (Particle.imageSize particle));
     Billboard.height := Some (Cartesian2.y (Particle.imageSize particle));
     Billboard.position := Particle.position particle;
     Billboard.sizeInMeters := sizeInMeters;
     Billboard.color :=
       {| Color.red := CesiumMath.lerp (Color.red sc) (Color.red ec) age;
          Color.green :=
            CesiumMath.lerp (Color.green sc) (Color.green ec) age;
          Color.blue := CesiumMath.lerp (Color.blue sc) (Color.blue ec) age;
          Color.alpha :=
            CesiumMath.lerp (Color.alpha sc) (Color.alpha ec) age |};
     Billboard.scale :=
       CesiumMath.lerp (Particle.startScale particle)
         (Particle.endScale particle) age |}.

(** updateBillboard: the particle gets a billboard if it had none, and its
    visual state is written to the billboard. *)
Definition updateBillboard (sizeInMeters : bool) (particle : Particle)
    (c : BillboardCollection) : Particle * BillboardCollection :=
  let '(h, c) :=
    match Particle._billboard particle with
    | Some h => (h, c)
    | None => BillboardCollection.add (Particle.image particle) true c
    end in
  (Particle.set__billboard (Some h) particle,
   BillboardCollection.modify (pushToBillboard sizeInMeters particle) h c).

(** addParticle: the visual attributes come from the system, life, mass,
    image size and speed are drawn at random, and the particle joins the
    live array.  The particle is returned as well, because the caller goes
    on using the object it has just pushed. *)
Definition addParticle (s : System) (particle : Particle)
  : System * Particle :=
  let r := _random s in
  let '(life, r) :=
    randomBetween (_minimumParticleLife s) (_maximumParticleLife s) r in
  let '(mass, r) := randomBetween (_minimumMass s) (_maximumMass s) r in
  let '(sizeX, r) :=
    randomBetween (Cartesian2.x (_minimumImageSize s))
      (Cartesian2.x (_maximumImageSize s)) r in
  let '(sizeY, r) :=
    randomBetween (Cartesian2.y (_minimumImageSize s))
      (Cartesian2.y (_maximumImageSize s)) r in
  let '(speed, r) := randomBetween (_minimumSpeed s) (_maximumSpeed s) r in
  let particle :=
    {| Particle.mass := mass;
       Particle.position := Particle.position particle;
       Particle.velocity :=
         Cartesian3.multiplyByScalar (Particle.velocity particle) speed;
       Particle.life := life;
       Particle.image := image s;
       Particle.startColor := _startColor s;
       Particle.endColor := _endColor s;
       Particle.startScale := _startScale s;
       Particle.endScale := _endScale s;
       Particle.imageSize := {| Cartesian2.x := sizeX; Cartesian2.y := sizeY |};
       Particle._age := 0;
       Particle._normalizedAge := 0;
       Particle._billboard := Particle._billboard particle |} in
  (set__particles (_particles s ++ [particle]) (set__random r s), particle).

(** The burst loop of calculateNumberToEmit.  Every entry of the array is a
    burst, as its type [ParticleBurst[]] says: updateParticlePool and the
    reset loop of update read each entry without a test. *)
Fixpoint applyBursts (currentTime : Q) (bursts : list ParticleBurst)
    (numToEmit : Q) (r : Random) : list ParticleBurst * Q * Random :=
  match bursts with
  | [] => ([], numToEmit, r)
  | burst :: rest =>
      if negb (ParticleBurst._complete burst)
         && Qgtb currentTime (ParticleBurst.time burst)
      then
        let '(n, r) :=
          randomBetween (ParticleBurst.minimum burst)
            (ParticleBurst.maximum burst) r in
        let '(rest, numToEmit, r) :=
          applyBursts currentTime rest (numToEmit + n) r in
        (ParticleBurst.set__complete true burst :: rest, numToEmit, r)
      else
        let '(rest, numToEmit, r) :=
          applyBursts currentTime rest numToEmit r in
        (burst :: rest, numToEmit, r)
  end.

(** The part of calculateNumberToEmit that integrates the emission rate:
    the number of particles and the new carry-over. *)
Definition rateTerm (s : System) (dt : Q) : Q * Q :=
  let dt := CesiumMath.mod_ dt (_lifetime s) in
  let v := dt * _emissionRate s in
  let numToEmit := inject_Z (Qfloor v) in
  let carryOver := _carryOver s + (v - numToEmit) in
  if Qgtb carryOver 1 then (numToEmit + 1, carryOver - 1)
  else (numToEmit, carryOver).

Definition calculateNumberToEmit (s : System) (dt : Q) : Q * System :=
  if _isComplete s then (0, s)
  else
    let '(numToEmit, carryOver) := rateTerm s dt in
    let s := set__carryOver carryOver s in
    match _bursts s with
    | Some bursts =>
        let '(bursts, numToEmit, r) :=
          applyBursts (_currentTime s) bursts numToEmit (_random s) in
        (numToEmit, set__random r (set__bursts (Some bursts) s))
    | None => (numToEmit, s)
    end.

(** The loop of update over the live particles.  [particles] is the array,
    [i] the loop index and [remaining] is [length - i], so the loop ends
    when [remaining] is 0 and the array is then cut to [length = i].  A dead
    particle goes to the pool with its billboard hidden and its slot takes
    the last particle in range, [particles[length - 1]], which is at index
    [i + remaining - 1].  The array is read within its bounds, since
    [i + remaining] is never more than its length: the [None] cases are
    there for the function to be total. *)
Fixpoint updateParticles (dt : Q) (callback : option updateCallback_t)
    (sizeInMeters : bool) (remaining i : nat) (particles pool : list Particle)
    (c : BillboardCollection)
  : list Particle * list Particle * BillboardCollection :=
  match remaining with
  | O => (take i particles, pool, c)
  | S k =>
      match particles !! i with
      | None => (take i particles, pool, c)
      | Some particle =>
          let '(alive, particle) := Particle.update dt callback particle in
          if alive then
            let '(particle, c) := updateBillboard sizeInMeters particle c in
            updateParticles dt callback sizeInMeters k (S i)
              (<[i := particle]> particles) pool c
          else
            let particles := <[i := particle]> particles in
            let c := removeBillboard particle c in
            let pool := pool ++ [particle] in
            let particles :=
              match particles !! (i + k)%nat with
              | Some q => <[i := q]> particles
              | None => particles
              end in
            updateParticles dt callback sizeInMeters k i particles pool c
      end
  end.

(** The velocity of a new particle in world space: the point
    [position + velocity] is transformed, the transformed position is
    subtracted and the result is normalized. *)
Definition rotateVelocity (combinedMatrix : Matrix4)
    (position velocity : Cartesian3) : Cartesian3 :=
  let rotatedVelocityScratch := Cartesian3.add position velocity in
  let rotatedVelocityScratch :=
    Matrix4.multiplyByPoint combinedMatrix rotatedVelocityScratch in
  let position := Matrix4.multiplyByPoint combinedMatrix position in
  normalize (Cartesian3.subtract rotatedVelocityScratch position).

(** One turn of the emission loop of update.  updateBillboard may give the
    particle its billboard after addParticle has pushed it: the particle in
    the array is that same object, so the array shows the assignment. *)
Definition emitOne (emitter : ParticleEmitter) (combinedMatrix : Matrix4)
    (s : System) : System :=
  let '(particle, s) := getOrCreateParticle s in
  let r := _random s in
  let '(particle, used) :=
    emitter particle (fun k => stream r (drawn r + k)%nat) in
  let s :=
    set__random {| stream := stream r; drawn := (drawn r + used)%nat |} s in
  let velocity :=
    rotateVelocity combinedMatrix (Particle.position particle)
      (Particle.velocity particle) in
  let particle :=
    Particle.set_position
      (Matrix4.multiplyByPoint combinedMatrix (Particle.position particle))
      particle in
  let particle := Particle.set_velocity velocity particle in
  let live := _particles s in
  let '(s, particle) := addParticle s particle in
  let '(particle, c) :=
    updateBillboard (_sizeInMeters s) particle (collection s) in
  set__billboardCollection (Some c) (set__particles (live ++ [particle]) s).

Fixpoint emitLoop (n : nat) (emitter : ParticleEmitter)
    (combinedMatrix : Matrix4) (s : System) : System :=
  match n with
  | O => s
  | S k => emitLoop k emitter combinedMatrix (emitOne emitter combinedMatrix s)
  end.

(** The emission block of update.  The loop [for (i = 0; i < numToEmit; i++)]
    runs [ceil(numToEmit)] times. *)
Definition emitParticles (numToEmit : Q) (s : System) : System :=
  match _emitter s with
  | Some emitter =>
      if Qgtb numToEmit 0 then
        let s :=
          if _matrixDirty s then
            set__matrixDirty false
              (set__combinedMatrix
                 (Matrix4.multiply (_modelMatrix s) (_emitterModelMatrix s))
                 s)
          else s in
        emitLoop (Z.to_nat (Qceiling numToEmit)) emitter (_combinedMatrix s) s
      else s
  | None => s
  end.

(** The frame time: 0 on the first update, never negative. *)
Definition frameTime (s : System) (frameState : FrameState) : Q :=
  let dt :=
    match _previousTime s with
    | Some previous => JulianDate.secondsDifference (time frameState) previous
    | None => 0
    end in
  if Qltb dt 0 then 0 else dt.

(** The first steps of update: the billboard collection is created on first
    use and the pool is brought up to the estimate when asked for. *)
Definition prepare (s : System) : System :=
  let s :=
    match _billboardCollection s with
    | Some _ => s
    | None => set__billboardCollection (Some BillboardCollection.new) s
    end in
  if _updateParticlePool s then
    set__updateParticlePool false (updateParticlePool s)
  else s.

(** The particle loop of update applied to the system. *)
Definition simulate (dt : Q) (s : System) : System :=
  let '(particles, pool, c) :=
    updateParticles dt (updateCallback s) (_sizeInMeters s)
      (length (_particles s)) 0 (_particles s) (_particlePool s)
      (collection s) in
  set__billboardCollection (Some c)
    (set__particlePool pool (set__particles particles s)).

Definition resetBursts (bursts : option (list ParticleBurst))
  : option (list ParticleBurst) :=
  match bursts with
  | Some bs => Some (map (ParticleBurst.set__complete false) bs)
  | None => None
  end.

(** The end of the lifetime: a looping system wraps around and resets its
    bursts, any other system is complete and raises the event. *)
Definition checkLifetime (s : System) : System :=
  if negb (Qeq_bool (_lifetime s) MAX_VALUE)
     && Qgtb (_currentTime s) (_lifetime s)
  then
    if loop s then
      set__bursts (resetBursts (_bursts s))
        (set__currentTime (CesiumMath.mod_ (_currentTime s) (_lifetime s)) s)
    else set__complete (raiseEvent (_complete s)) (set__isComplete true s)
  else s.

(** The emission of update: the scheduler gives the count and the emission
    block emits that many particles. *)
Definition emit (dt : Q) (s : System) : System :=
  let '(numToEmit, s) := calculateNumberToEmit s dt in
  emitParticles numToEmit s.

(** The clock of update: the time of this frame is remembered and the
    elapsed time advances by the frame time. *)
Definition tick (dt : Q) (frameState : FrameState) (s : System) : System :=
  let s := set__previousTime (Some (time frameState)) s in
  set__currentTime (_currentTime s + dt) s.

(** update from the frame time to the clock: the particle loop, the
    emission and the clock.  The call [billboardCollection.update(frameState)]
    that precedes the clock renders the billboards and changes nothing of
    what is modelled here. *)
Definition ticked (s : System) (frameState : FrameState) : System :=
  let dt := frameTime s frameState in
  tick dt frameState (emit dt (simulate dt s)).

(** The same, followed by the end of the lifetime. *)
Definition advance (s : System) (frameState : FrameState) : System :=
  checkLifetime (ticked s frameState).

(** update of a shown system up to, and without, the periodic release of the
    pool. *)
Definition step (s : System) (frameState : FrameState) : System :=
  advance (prepare s) frameState.

(** ParticleSystem.prototype.update.  [None] is an exception thrown, which
    only freeParticlePool can do here. *)
Definition update (s : System) (frameState : FrameState) : option System :=
  if negb (show s) then Some s
  else
    let s := step s frameState in
    if (Z.rem (frameNumber frameState) 120 =? 0)%Z then freeParticlePool s
    else Some s.

(** A run of updates, one per frame. *)
Fixpoint run (s : System) (frames : list FrameState) : option System :=
  match frames with
  | [] => Some s
  | frameState :: rest =>
      match update s frameState with
      | Some s => run s rest
      | None => None
      end
  end.

(** The setters of the two matrices: the combined matrix is to be computed
    again when the assigned matrix differs from the one in place. *)
Definition set_modelMatrix (value : Matrix4) (s : System) : System :=
  set__modelMatrix value
    (set__matrixDirty
       (_matrixDirty s || negb (Matrix4.equals (_modelMatrix s) value)) s).

Definition set_emitterModelMatrix (value : Matrix4) (s : System) : System :=
  set__emitterModelMatrix value
    (set__matrixDirty
       (_matrixDirty s || negb (Matrix4.equals (_emitterModelMatrix s) value))
       s).

(** The setter of the emitter, with its check [Check.defined]. *)
Definition set_emitter (value : option ParticleEmitter) (s : System)
  : option System :=
  match value with
  | Some _ => Some (set__emitter value s)
  | None => None
  end.

(** The setters of the image sizes, with their checks on both
    components. *)
Definition set_minimumImageSize (value : Cartesian2) (s : System)
  : option System :=
  if Qltb (Cartesian2.x value) 0 || Qltb (Cartesian2.y value) 0 then None
  else Some (set__minimumImageSize value s).

Definition set_maximumImageSize (value : Cartesian2) (s : System)
  : option System :=
  if Qltb (Cartesian2.x value) 0 || Qltb (Cartesian2.y value) 0 then None
  else Some (set__maximumImageSize value s).

(** One call on a system.  The setters of the numbers start with the check
    that the number is not negative; the values of the other properties are
    defined by their types, so the checks [Check.defined],
    [Check.typeOf.object] and [Check.typeOf.bool] pass. *)
Definition perform (c : Call) (s : System) : option System :=
  match c with
  | assign_show value => Some (set_show value s)
  | assign_updateCallback value => Some (set_updateCallback value s)
  | assign_loop value => Some (set_loop value s)
  | assign_image value => Some (set_image value s)
  | assign_emitter value => set_emitter value s
  | assign_bursts value => Some (set_bursts value s)
  | assign_modelMatrix value => Some (set_modelMatrix value s)
  | assign_emitterModelMatrix value => Some (set_emitterModelMatrix value s)
  | assign_startColor value => Some (set__startColor value s)
  | assign_endColor value => Some (set__endColor value s)
  | assign_startScale value =>
      greaterThanOrEquals value 0 (set__startScale value s)
  | assign_endScale value =>
      greaterThanOrEquals value 0 (set__endScale value s)
  | assign_emissionRate value =>
      greaterThanOrEquals value 0 (set_emissionRate value s)
  | assign_minimumSpeed value =>
      greaterThanOrEquals value 0 (set__minimumSpeed value s)
  | assign_maximumSpeed value =>
      greaterThanOrEquals value 0 (set__maximumSpeed value s)
  | assign_minimumParticleLife value =>
      greaterThanOrEquals value 0 (set__minimumParticleLife value s)
  | assign_maximumParticleLife value =>
      greaterThanOrEquals value 0 (set_maximumParticleLife value s)
  | assign_minimumMass value =>
      greaterThanOrEquals value 0 (set__minimumMass value s)
  | assign_maximumMass value =>
      greaterThanOrEquals value 0 (set__maximumMass value s)
  | assign_minimumImageSize value => set_minimumImageSize value s
  | assign_maximumImageSize value => set_maximumImageSize value s
  | assign_sizeInMeters value => Some (set__sizeInMeters value s)
  | assign_lifetime value =>
      greaterThanOrEquals value 0 (set__lifetime value s)
  | call_update frameState => update s frameState
  end.

(** A sequence of calls, up to the first exception. *)
Fixpoint performAll (calls : list Call) (s : System) : option System :=
  match calls with
  | [] => Some s
  | c :: rest =>
      match perform c s with
      | Some s => performAll rest s
      | None => None
      end
  end.

End Model.

(** ** Views of the particle loop *)

(** The last element of a list moved to its front. *)
Definition lastToFront (l : list Particle) : list Particle :=
  match last l with
  | Some q => q :: removelast l
  | None => []
  end.

(** The particle loop as a pass over the particles still to visit: [todo] is
    [particles[i .. length)], [done] is [particles[0 .. i)].  A live particle
    moves from [todo] to [done]; when a particle dies, the last particle to
    visit takes its place.  [sweep_updateParticles] shows that the loop of
    update computes this. *)
Fixpoint sweep (dt : Q) (callback : option updateCallback_t)
    (sizeInMeters : bool) (n : nat) (todo done pool : list Particle)
    (c : BillboardCollection)
  : list Particle * list Particle * BillboardCollection :=
  match n, todo with
  | S k, particle :: rest =>
      let '(alive, particle) := Particle.update dt callback particle in
      if alive then
        let '(particle, c) := updateBillboard sizeInMeters particle c in
        sweep dt callback sizeInMeters k rest (done ++ [particle]) pool c
      else
        sweep dt callback sizeInMeters k (lastToFront rest) done
          (pool ++ [particle]) (removeBillboard particle c)
  | _, _ => (done, pool, c)
  end.

(** The particles of [ps] that are alive after their update by [dt], and
    those that are not, each as the update leaves it. *)
Definition survivors (dt : Q) (callback : option updateCallback_t)
    (ps : list Particle) : list Particle :=
  map snd (List.filter fst (map (Particle.update dt callback) ps)).

Definition casualties (dt : Q) (callback : option updateCallback_t)
    (ps : list Particle) : list Particle :=
  map snd (List.filter (fun r => negb (fst r))
             (map (Particle.update dt callback) ps)).

(** What the particle loop writes to the billboard of a particle it visits:
    the visual state of a particle that lives on, hidden for one that
    dies. *)
Definition written (dt : Q) (callback : option updateCallback_t) (sim : bool)
    (p : Particle) : Billboard -> Billboard :=
  if fst (Particle.update dt callback p)
  then pushToBillboard sim (snd (Particle.update dt callback p))
  else Billboard.set_show false.

(** ** Invariants *)

(** The pool has been sized, or is about to be: the particles at hand cover
    the estimate. *)
Definition pool_ok (s : System) : Prop :=
  _updateParticlePool s = true \/
  (_particleEstimate s
   <= Z.of_nat (length (_particles s) + length (_particlePool s)))%Z.

(** The range of the carry-over. *)
Definition carry_ok (s : System) : Prop :=
  0 <= _carryOver s /\ _carryOver s <= 1.

(** No wrap-around is pending: a looping system with a finite lifetime is
    within its lifetime, as every update leaves it. *)
Definition within_lifetime (s : System) : Prop :=
  loop s = true -> ~ _lifetime s == MAX_VALUE -> _currentTime s <= _lifetime s.

(** The live particles are within their life, as the particle update leaves
    the particles it keeps. *)
Definition particles_alive (s : System) : Prop :=
  Forall (fun p => Particle._age p <= Particle.life p) (_particles s).

(** The update callback keeps a particle within its life. *)
Definition keeps_alive (callback : option updateCallback_t) : Prop :=
  match callback with
  | Some f =>
      forall p dt, Particle._age p <= Particle.life p ->
                   Particle._age (f p dt) <= Particle.life (f p dt)
  | None => True
  end.

(** The life that addParticle draws for a particle is never negative, as
    when the generator returns numbers between 0 and 1 and the bounds of the
    particle life are in order and not negative. *)
Definition lives_ok (s : System) : Prop :=
  forall k,
    0 <= stream (_random s) k
         * (_maximumParticleLife s - _minimumParticleLife s)
         + _minimumParticleLife s.

(** The update callback leaves the reference to the billboard alone. *)
Definition keeps_billboard (callback : option updateCallback_t) : Prop :=
  match callback with
  | Some f => forall p dt, Particle._billboard (f p dt) = Particle._billboard p
  | None => True
  end.

(** Every live particle has a billboard of its own. *)
Definition billboards_distinct (s : System) : Prop :=
  Forall (fun p => is_Some (Particle._billboard p)) (_particles s) /\
  NoDup (map Particle._billboard (_particles s)).

(** A pooled particle whose billboard is in the collection and hidden. *)
Definition hidden_in (c : BillboardCollection) (p : Particle) : Prop :=
  exists h b,
    Particle._billboard p = Some h /\ BillboardCollection.get h c = Some b /\
    Billboard.show b = false.

(** ** Observations of one update *)

(** What update leaves alone: the configuration of the system. *)
Definition settings (s : System) :=
  (show s, updateCallback s, loop s, image s, _emitter s,
   _modelMatrix s, _emitterModelMatrix s, _startColor s, _endColor s,
   _startScale s, _endScale s, _emissionRate s,
   _minimumSpeed s, _maximumSpeed s,
   _minimumParticleLife s, _maximumParticleLife s,
   _minimumMass s, _maximumMass s,
   _minimumImageSize s, _maximumImageSize s, _sizeInMeters s, _lifetime s).

(** The clock and the state of the scheduler. *)
Definition clock (s : System) := (_previousTime s, _currentTime s).

Definition schedule (s : System) :=
  (_carryOver s, _bursts s, _isComplete s, _complete s).

Definition sizing (s : System) := (_updateParticlePool s, _particleEstimate s).

Definition matrices (s : System) := (_matrixDirty s, _combinedMatrix s).

Definition population (s : System) :=
  (_particles s, _particlePool s, _billboardCollection s).

(** How many times the emission loop runs for a count [numToEmit]. *)
Definition emissionCount (numToEmit : Q) (s : System) : nat :=
  match _emitter s with
  | Some _ => if Qgtb numToEmit 0 then Z.to_nat (Qceiling numToEmit) else 0%nat
  | None => 0%nat
  end.

(** The count that calculateNumberToEmit returns within [update s f], and the
    number of particles that this update emits. *)
Definition scheduled (s : System) (frameState : FrameState) : Q :=
  let s := prepare s in
  let dt := frameTime s frameState in
  fst (calculateNumberToEmit (simulate dt s) dt).

Definition emitted (s : System) (frameState : FrameState) : nat :=
  if negb (show s) then 0%nat
  else emissionCount (scheduled s frameState) s.


(** ** Bursts *)

(** A burst is due at an elapsed time when it has not fired and the elapsed
    time is past its time. *)
Definition due (currentTime : Q) (b : ParticleBurst) : bool :=
  negb (ParticleBurst._complete b)
  && Qgtb currentTime (ParticleBurst.time b).

(** A burst after the scheduler has seen it. *)
Definition fire (currentTime : Q) (b : ParticleBurst) : ParticleBurst :=
  if due currentTime b then ParticleBurst.set__complete true b else b.

(** What the bursts that are due add to the count when each emits exactly its
    minimum. *)
Definition burstTotal (currentTime : Q) (bursts : list ParticleBurst) : Q :=
  fold_right
    (fun b acc =>
       (if due currentTime b then ParticleBurst.minimum b else 0) + acc)
    0 bursts.

(** ** Runs of updates *)


Section Runs.

Variable Math_sqrt : Q -> Q.

(** The number of particles emitted over a run of updates. *)
Fixpoint totalEmitted (s : System) (frames : list FrameState) : nat :=
  match frames with
  | [] => 0%nat
  | frameState :: rest =>
      match update Math_sqrt s frameState with
      | Some s' => (emitted s frameState + totalEmitted s' rest)%nat
      | None => 0%nat
      end
  end.



End Runs.

(** ** The behaviour as the specification words it *)

(** The number of pooled entries that the periodic shrink is to release: how
    far the pool exceeds what the estimate still needs beyond the live
    particles. *)
Definition poolExcess (s : System) : Z :=
  let live := Z.of_nat (length (_particles s)) in
  let pooled := Z.of_nat (length (_particlePool s)) in
  Z.max (pooled - Z.max (_particleEstimate s - live) 0) 0.

Section SpeedFirst.

Variable Math_sqrt : Q -> Q.

(** The world velocity of a new particle when the speed is chosen before
    the rotation into world space. *)
Definition velocity_speed_first (combinedMatrix : Matrix4)
    (position velocity : Cartesian3) (speed : Q) : Cartesian3 :=
  rotateVelocity Math_sqrt combinedMatrix position
    (Cartesian3.multiplyByScalar velocity speed).

(** The world velocity of a new particle as update and addParticle compute
    it: rotation and normalization first, the speed afterwards. *)
Definition velocity_speed_last (combinedMatrix : Matrix4)
    (position velocity : Cartesian3) (speed : Q) : Cartesian3 :=
  Cartesian3.multiplyByScalar
    (rotateVelocity Math_sqrt combinedMatrix position velocity) speed.

End SpeedFirst.

(** ** Concrete systems *)

(** A square root that is exact on the squares of rationals. *)
Definition exact_sqrt (q : Q) : Q :=
  Z.sqrt (Qnum q * Zpos (Qden q)) # Qden q.

(** An emitter that puts every particle at the origin, moving along z at unit
    speed: a circle emitter of radius 0. *)
Definition originEmitter (radius : Q) : ParticleEmitter :=
  fun particle _ =>
    (Particle.set_velocity Cartesian3.UNIT_Z
       (Particle.set_position Cartesian3.ZERO particle), 0%nat).

(** A generator that always returns one half. *)
Definition halves : Random := {| stream := fun _ => 1 # 2; drawn := 0 |}.

Definition frame (t : Q) (n : Z) : FrameState :=
  {| time := t; frameNumber := n |}.

(** Options with only some properties given. *)
Definition withOptions (emissionRate : option Q)
    (bursts : option (list ParticleBurst)) (loop : option bool)
    (lifetime : option Q) (speed : option Q)
    (modelMatrix : option Matrix4) : Options.t :=
  {| Options.show := None; Options.updateCallback := None;
     Options.emitter := None; Options.modelMatrix := modelMatrix;
     Options.emitterModelMatrix := None;
     Options.emissionRate := emissionRate; Options.bursts := bursts;
     Options.loop := loop; Options.scale := None;
     Options.startScale := None; Options.endScale := None;
     Options.color := None; Options.startColor := None;
     Options.endColor := None; Options.image := None;
     Options.imageSize := None; Options.minimumImageSize := None;
     Options.maximumImageSize := None; Options.sizeInMeters := None;
     Options.speed := speed; Options.minimumSpeed := None;
     Options.maximumSpeed := None; Options.lifetime := lifetime;
     Options.particleLife := None; Options.minimumParticleLife := None;
     Options.maximumParticleLife := None; Options.mass := None;
     Options.minimumMass := None; Options.maximumMass := None |}.

(** [new ParticleSystem(options)] with the emitter and the generator above. *)
Definition newSystem (options : Options.t) : System :=
  ParticleSystem originEmitter options halves.

(** The state after a run of updates that throws no exception. *)
Definition after (s : System) (frames : list FrameState) : System :=
  default s (run exact_sqrt s frames).

(** [new ParticleBurst({time, minimum, maximum})]. *)
Definition newBurst (time minimum maximum : Q) : ParticleBurst :=
  {| ParticleBurst.time := time; ParticleBurst.minimum := minimum;
     ParticleBurst.maximum := maximum; ParticleBurst._complete := false |}.

(** A system that is not shown. *)
Definition hiddenSystem : System :=
  set_show false (after (newSystem Options.EMPTY_OBJECT) [frame 0 1; frame 1 2]).

(** One particle per second. *)
Definition slowSystem : System :=
  newSystem (withOptions (Some 1) None None None None None).

(** A looping system with a lifetime of 10 seconds and one burst, 8 seconds
    into its first cycle. *)
Definition loopingSystem : System :=
  after (newSystem (withOptions (Some 0) (Some [newBurst 1 2 2]) (Some true)
                      (Some 10) None None))
    [frame 0 1; frame 8 2].

(** A system with a lifetime of 5 seconds that does not loop. *)
Definition finiteSystem : System :=
  newSystem (withOptions (Some 0) None (Some false) (Some 5) None None).

(** A system whose pool was sized for 5 particles per second living 5 seconds
    and whose emission rate is then set to 0. *)
Definition oversizedSystem : System :=
  set_emissionRate 0 (after (newSystem Options.EMPTY_OBJECT) [frame 0 1]).


(** A model matrix that scales by 3 and translates by (1, 2, 3). *)
Definition scaleBy3 : Matrix4 :=
  Matrix4.Build_t 3 0 0 0  0 3 0 0  0 0 3 0  1 2 3 1.

(** A system with that model matrix whose particles move at 2 m/s. *)
Definition fastSystem : System :=
  after (newSystem (withOptions (Some 1) None None None (Some 2)
                      (Some scaleBy3)))
    [frame 0 1].

(** A complete system with six live particles, three of them 3 seconds old,
    whose particles live 5 seconds. *)
Definition completedSystem : System :=
  after (newSystem (withOptions (Some 1) None (Some false) (Some 5) None None))
    [frame 0 1; frame 3 2; frame 6 3].


(** The scenario of the specification: no emission rate and one burst of 3
    particles at time 0. *)
Definition burstSystem : System :=
  newSystem (withOptions (Some 0) (Some [newBurst 0 3 3]) None None None None).

(** The systems of that scenario: shown, with an emitter, no emission rate,
    no finite lifetime, and the one burst, which has fired or not. *)
Definition scenario (fired : bool) (s : System) : Prop :=
  show s = true /\ is_Some (_emitter s) /\ _emissionRate s == 0 /\
  _lifetime s == MAX_VALUE /\
  _bursts s = Some [ParticleBurst.set__complete fired (newBurst 0 3 3)] /\
  _isComplete s = false /\ _carryOver s == 0 /\ pool_ok s.

(** * Further definitions *)

(** ** Calls *)

(** Whether a call is an update; the other calls are assignments. *)
Definition is_update (c : Call) : bool :=
  match c with
  | call_update _ => true
  | _ => false
  end.

(** The number of particle objects that a system holds, live or pooled. *)
Definition atHand (s : System) : nat :=
  (length (_particles s) + length (_particlePool s))%nat.

(** ** The combined matrix *)

(** The dirty check at the head of the emission block of update: the combined
    matrix is computed again when one of the two matrices has changed. *)
Definition refreshMatrix (s : System) : System :=
  if _matrixDirty s then
    set__matrixDirty false
      (set__combinedMatrix
         (Matrix4.multiply (_modelMatrix s) (_emitterModelMatrix s)) s)
  else s.

(** The combined matrix is up to date whenever it is not marked dirty. *)
Definition matrix_coherent (s : System) : Prop :=
  _matrixDirty s = false ->
  Matrix4.equiv (_combinedMatrix s)
    (Matrix4.multiply (_modelMatrix s) (_emitterModelMatrix s)).

(** The two matrices of a system with the state of their product. *)
Definition orientation (s : System) :=
  (_modelMatrix s, _emitterModelMatrix s, _matrixDirty s, _combinedMatrix s).

(** ** The numbers of the configuration *)

(** The numbers that the setters check: the scales, the emission rate, the
    bounds of speed, particle life and mass, the components of the bounds of
    the image size, and the lifetime. *)
Definition checkedNumbers (s : System) : list Q :=
  [_startScale s; _endScale s; _emissionRate s;
   _minimumSpeed s; _maximumSpeed s;
   _minimumParticleLife s; _maximumParticleLife s;
   _minimumMass s; _maximumMass s;
   Cartesian2.x (_minimumImageSize s); Cartesian2.y (_minimumImageSize s);
   Cartesian2.x (_maximumImageSize s); Cartesian2.y (_maximumImageSize s);
   _lifetime s].

(** The numbers of the options that the constructor copies into those. *)
Definition optionNumbers (options : Options.t) : list (option Q) :=
  [Options.scale options; Options.startScale options;
   Options.endScale options; Options.emissionRate options;
   Options.speed options; Options.minimumSpeed options;
   Options.maximumSpeed options; Options.particleLife options;
   Options.minimumParticleLife options; Options.maximumParticleLife options;
   Options.mass options; Options.minimumMass options;
   Options.maximumMass options;
   Cartesian2.x <$> Options.imageSize options;
   Cartesian2.y <$> Options.imageSize options;
   Cartesian2.x <$> Options.minimumImageSize options;
   Cartesian2.y <$> Options.minimumImageSize options;
   Cartesian2.x <$> Options.maximumImageSize options;
   Cartesian2.y <$> Options.maximumImageSize options;
   Options.lifetime options].

(** The setters of those numbers, but for the image sizes. *)
Definition numberSetters : list (Q -> Call) :=
  [assign_startScale; assign_endScale; assign_emissionRate;
   assign_minimumSpeed; assign_maximumSpeed;
   assign_minimumParticleLife; assign_maximumParticleLife;
   assign_minimumMass; assign_maximumMass; assign_lifetime].

(** ** Complete systems *)

(** What stays of a complete system and what can only shrink. *)
Definition finished (s s' : System) : Prop :=
  _isComplete s' = true /\
  (length (_particles s') <= length (_particles s))%nat /\
  _carryOver s' = _carryOver s /\ _random s' = _random s /\
  (raised (_complete s) <= raised (_complete s'))%nat.

(** ** The pool *)

(** How far the particles at hand fall short of the estimate: the number of
    pooled particles that freeParticlePool releases. *)
Definition shortfall (s : System) : Z :=
  Z.max (_particleEstimate s - Z.of_nat (length (_particles s))
         - Z.of_nat (length (_particlePool s))) 0.

(** A system whose pool holds 25 particles and whose estimate has been
    raised to 30 without the pool being sized again. *)
Definition underestimatedSystem : System :=
  set__particleEstimate 30 (after (newSystem Options.EMPTY_OBJECT) [frame 0 1]).

(** ** Random numbers *)


(** [lo <= v <= hi]. *)
Definition between (lo hi v : Q) : Prop := lo <= v /\ v <= hi.

(** Options that give the particle life, the mass, the speed, the image size,
    the scale and the colour as single values. *)
Definition fixedOptions : Options.t :=
  {| Options.show := None; Options.updateCallback := None;
     Options.emitter := None; Options.modelMatrix := None;
     Options.emitterModelMatrix := None;
     Options.emissionRate := Some 2; Options.bursts := None;
     Options.loop := None; Options.scale := Some 3;
     Options.startScale := Some 1; Options.endScale := None;
     Options.color := Some {| Color.red := 1; Color.green := 0;
                              Color.blue := 0; Color.alpha := 1 |};
     Options.startColor := None;
     Options.endColor := None; Options.image := None;
     Options.imageSize := Some {| Cartesian2.x := 8; Cartesian2.y := 4 |};
     Options.minimumImageSize := None;
     Options.maximumImageSize :=
       Some {| Cartesian2.x := 20; Cartesian2.y := 20 |};
     Options.sizeInMeters := None;
     Options.speed := Some 7; Options.minimumSpeed := Some 1;
     Options.maximumSpeed := Some 100; Options.lifetime := None;
     Options.particleLife := Some 9; Options.minimumParticleLife := None;
     Options.maximumParticleLife := Some 50; Options.mass := Some 6;
     Options.minimumMass := None; Options.maximumMass := None |}.


(** Every number of the generator is between 0 and 1. *)
Definition unitStream (r : Random) : Prop :=
  forall k, between 0 1 (stream r k).

(** ** The bursts over time *)

(** A burst as it was, but for its flag; when [lasting], a flag that was
    raised is still raised. *)
Definition burstKept (lasting : bool) (b b' : ParticleBurst) : Prop :=
  ParticleBurst.time b' = ParticleBurst.time b /\
  ParticleBurst.minimum b' = ParticleBurst.minimum b /\
  ParticleBurst.maximum b' = ParticleBurst.maximum b /\
  (lasting = true -> ParticleBurst._complete b = true ->
   ParticleBurst._complete b' = true).

(** The same of the bursts of a system: the array has the bursts it had, in
    their order. *)
Definition burstsKept (lasting : bool)
    (bursts bursts' : option (list ParticleBurst)) : Prop :=
  match bursts, bursts' with
  | Some bs, Some bs' => Forall2 (burstKept lasting) bs bs'
  | None, None => True
  | _, _ => False
  end.

(** The bounds of a burst are in order and not negative. *)
Definition burstsOrdered (bursts : option (list ParticleBurst)) : Prop :=
  match bursts with
  | Some bs =>
      Forall (fun b => 0 <= ParticleBurst.minimum b /\
                       ParticleBurst.minimum b <= ParticleBurst.maximum b) bs
  | None => True
  end.

(** A system with two bursts whose bounds are apart, two seconds after its
    first update. *)
Definition twoBurstSystem : System :=
  after (newSystem (withOptions (Some 1)
                      (Some [newBurst 1 2 4; newBurst (3 # 2) 1 6])
                      None None None None))
    [frame 0 1; frame 2 2].

(** ** Time *)

(** The frame time of update for a frame that follows a frame at time
    [previous], or that is the first. *)
Definition frameTimeAfter (previous : option JulianDate)
    (frameState : FrameState) : Q :=
  let dt :=
    match previous with
    | Some p => JulianDate.secondsDifference (time frameState) p
    | None => 0
    end in
  if Qltb dt 0 then 0 else dt.

(** The sum of the frame times of a run of updates. *)
Fixpoint elapsedTime (previous : option JulianDate)
    (frames : list FrameState) : Q :=
  match frames with
  | [] => 0
  | frameState :: rest =>
      frameTimeAfter previous frameState
      + elapsedTime (Some (time frameState)) rest
  end.

(** The frames come in the order of time. *)
Fixpoint ascending (previous : option JulianDate) (frames : list FrameState)
  : Prop :=
  match frames with
  | [] => True
  | frameState :: rest =>
      match previous with
      | Some t0 => t0 <= time frameState
      | None => True
      end /\ ascending (Some (time frameState)) rest
  end.

(** The time from the update before the run, or from the first frame of the
    run for a system not updated before, to the last frame of the run. *)
Definition span (previous : option JulianDate) (frames : list FrameState)
  : Q :=
  match last frames with
  | Some frameState =>
      time frameState
      - default (default 0 (time <$> head frames)) previous
  | None => 0
  end.



(** ** The billboards and their particles *)

(** A live particle whose billboard is in the collection and shown. *)
Definition shown_in (c : BillboardCollection) (p : Particle) : Prop :=
  exists h b,
    Particle._billboard p = Some h /\ BillboardCollection.get h c = Some b /\
    Billboard.show b = true.

(** The billboards of a collection are those of the live and of the pooled
    particles, one for each: the billboard of a live particle is shown, that
    of a pooled particle is hidden, no two particles have the same billboard,
    and the collection holds no other billboard.  The handles in use are
    below the next one that the collection gives out. *)
Definition owns (live pool : list Particle) (c : BillboardCollection)
  : Prop :=
  Forall (shown_in c) live /\
  Forall (hidden_in c) pool /\
  NoDup (map Particle._billboard (live ++ pool)) /\
  (forall h, is_Some (BillboardCollection.get h c) ->
             Some h ∈ map Particle._billboard (live ++ pool)) /\
  (forall h, is_Some (BillboardCollection.get h c) ->
             (h < BillboardCollection.nextHandle c)%nat).

Definition owned (s : System) : Prop :=
  owns (_particles s) (_particlePool s) (collection s).

(** An emitter leaves the reference to the billboard alone. *)
Definition emitter_keeps_billboard (emitter : option ParticleEmitter)
  : Prop :=
  match emitter with
  | Some e =>
      forall p numbers,
        Particle._billboard (fst (e p numbers)) = Particle._billboard p
  | None => True
  end.

(** The callback and the emitter of a system leave it alone. *)
Definition hooks_keep_billboard (s : System) : Prop :=
  keeps_billboard (updateCallback s) /\ emitter_keeps_billboard (_emitter s).

(** A call that installs no callback or emitter that does not. *)
Definition call_keeps_billboard (c : Call) : Prop :=
  match c with
  | assign_updateCallback value => keeps_billboard value
  | assign_emitter value => emitter_keeps_billboard value
  | _ => True
  end.

(** The handles of the billboards of a collection are below the next one
    that it gives out. *)
Definition handles_bounded (c : BillboardCollection) : Prop :=
  forall h, is_Some (BillboardCollection.get h c) ->
            (h < BillboardCollection.nextHandle c)%nat.

(** Every billboard of [c] is in [c'], with the image it had. *)
Definition billboards_kept (c c' : BillboardCollection) : Prop :=
  forall h b,
    BillboardCollection.get h c = Some b ->
    exists b', BillboardCollection.get h c' = Some b' /\
               Billboard.image b' = Billboard.image b.

(** [c'] has the billboards of [c] with their images, and its handles are
    bounded if those of [c] are. *)
Definition grows (c c' : BillboardCollection) : Prop :=
  billboards_kept c c' /\ (handles_bounded c -> handles_bounded c').

(** The system with two bursts that are due, its emitter removed. *)
Definition muteSystem : System := set__emitter None twoBurstSystem.

(** * Properties *)

(** Splitting of the conjunctions of a goal, and of nothing else. *)
Ltac conjs := repeat match goal with |- _ /\ _ => split end.

(** ** Numbers *)

Lemma Qgtb_true (a b : Q) : Qgtb a b = true <-> b < a.
Proof.
  unfold Qgtb. destruct (Qcompare_spec a b) as [H|H|H]; split; intros; try easy; try lra.
Qed.

Lemma Qgtb_false (a b : Q) : Qgtb a b = false <-> a <= b.
Proof.
  unfold Qgtb. destruct (Qcompare_spec a b) as [H|H|H]; split; intros; try easy; try lra.
Qed.

Lemma Qltb_true (a b : Q) : Qltb a b = true <-> a < b.
Proof.
  unfold Qltb. destruct (Qcompare_spec a b) as [H|H|H]; split; intros; try easy; try lra.
Qed.

Lemma Qltb_false (a b : Q) : Qltb a b = false <-> b <= a.
Proof.
  unfold Qltb. destruct (Qcompare_spec a b) as [H|H|H]; split; intros; try easy; try lra.
Qed.

Lemma Qfloor_unique (q : Q) (k : Z) :
  inject_Z k <= q -> q < inject_Z (k + 1) -> Qfloor q = k.
Proof.
  intros Hlo Hhi.
  assert (H1 : (k <= Qfloor q)%Z).
  { rewrite <- (Qfloor_Z k). now apply Qfloor_resp_le. }
  assert (H2 : (Qfloor q < k + 1)%Z).
  { rewrite Zlt_Qlt. eapply Qle_lt_trans; [apply Qfloor_le | exact Hhi]. }
  lia.
Qed.

Lemma Qtrunc_nonneg (q : Q) : 0 <= q -> Qtrunc q = Qfloor q.
Proof.
  intros H. unfold Qtrunc, Qfloor. destruct q as [n d]. simpl.
  apply Z.quot_div_nonneg; [|lia].
  unfold Qle in H. simpl in H. lia.
Qed.

Lemma frac_range (v : Q) : 0 <= v - inject_Z (Qfloor v) /\ v - inject_Z (Qfloor v) < 1.
Proof.
  pose proof (Qfloor_le v). pose proof (Qlt_floor v).
  rewrite inject_Z_plus in H0. change (inject_Z 1) with 1 in H0. lra.
Qed.

Lemma js_rem_nonneg (m n : Q) :
  0 <= m -> 0 < n ->
  js_rem m n == m - n * inject_Z (Qfloor (m / n)) /\ 0 <= js_rem m n /\ js_rem m n < n.
Proof.
  intros Hm Hn. unfold js_rem.
  assert (Hq : 0 <= m / n).
  { apply Qle_shift_div_l; lra. }
  rewrite (Qtrunc_nonneg _ Hq).
  destruct (frac_range (m / n)) as [H1 H2].
  split; [reflexivity|].
  assert (E : m == n * (m / n)) by (field; lra).
  split.
  - assert (0 <= n * (m / n - inject_Z (Qfloor (m / n)))) by (apply Qmult_le_0_compat; lra).
    lra.
  - assert (n * (m / n - inject_Z (Qfloor (m / n))) < n * 1).
    { apply Qmult_lt_l; lra. }
    lra.
Qed.








(** CesiumMath.mod of a non-negative number by a positive one is the
    remainder of the floored division. *)
Lemma mod_wrap (m n : Q) :
  0 <= m -> 0 < n ->
  CesiumMath.mod_ m n == m - n * inject_Z (Qfloor (m / n)) /\
  0 <= CesiumMath.mod_ m n /\ CesiumMath.mod_ m n < n.
Proof.
  intros Hm Hn. unfold CesiumMath.mod_.
  destruct ((CesiumMath.sign m =? CesiumMath.sign n)%Z
            && Qltb (Qabs m) (Qabs n)) eqn:Hexit.
  - apply andb_prop in Hexit as [_ Hlt]. apply Qltb_true in Hlt.
    rewrite !Qabs_pos in Hlt by lra.
    assert (Hf : Qfloor (m / n) = 0%Z).
    { apply Qfloor_unique.
      - change (inject_Z 0) with 0. apply Qle_shift_div_l; lra.
      - apply Qlt_shift_div_r; [lra|]. change (inject_Z (0 + 1)) with 1. lra. }
    rewrite Hf. change (inject_Z 0) with 0. split; [lra|]. split; lra.
  - destruct (js_rem_nonneg m n Hm Hn) as (E1 & L1 & U1).
    assert (Hone : Qtrunc ((js_rem m n + n) / n) = 1%Z).
    { rewrite Qtrunc_nonneg by (apply Qle_shift_div_l; lra).
      apply Qfloor_unique.
      - apply Qle_shift_div_l; [lra|]. change (inject_Z 1) with 1. lra.
      - apply Qlt_shift_div_r; [lra|]. change (inject_Z (1 + 1)) with 2. lra. }
    assert (E2 : js_rem (js_rem m n + n) n == js_rem m n).
    { unfold js_rem at 1. rewrite Hone. change (inject_Z 1) with 1. lra. }
    rewrite E2. split; [exact E1|]. split; assumption.
Qed.

Section Properties.

Variable Math_sqrt : Q -> Q.

(** ** The particle loop *)

Lemma lastToFront_snoc (l : list Particle) (q : Particle) :
  lastToFront (l ++ [q]) = q :: l.
Proof.
  unfold lastToFront. rewrite last_snoc. now rewrite removelast_last.
Qed.

Lemma lastToFront_length (l : list Particle) :
  length (lastToFront l) = length l.
Proof.
  destruct l as [|a l] using rev_ind; [reflexivity|].
  rewrite lastToFront_snoc, length_app. simpl. lia.
Qed.

Lemma lastToFront_perm (l : list Particle) : lastToFront l ≡ₚ l.
Proof.
  destruct l as [|a l] using rev_ind; [reflexivity|].
  rewrite lastToFront_snoc. apply Permutation_cons_append.
Qed.

(** The loop of update over the array computes the pass over the particles
    still to visit. *)
Lemma sweep_updateParticles dt callback sim (n : nat) :
  forall (todo done junk pool : list Particle) (c : BillboardCollection),
    length todo = n ->
    updateParticles dt callback sim n (length done) (done ++ todo ++ junk)
      pool c
    = sweep dt callback sim n todo done pool c.
Proof.
  induction n as [|n IH]; intros todo done junk pool c Hlen.
  - destruct todo; [|discriminate]. simpl. now rewrite take_app_length.
  - destruct todo as [|p rest]; [discriminate|]. simpl in Hlen.
    injection Hlen as Hlen. simpl.
    rewrite list_lookup_middle by reflexivity.
    destruct (Particle.update dt callback p) as [alive p'].
    destruct alive.
    + destruct (updateBillboard sim p' c) as [p'' c'].
      rewrite insert_app_r_alt by lia. rewrite Nat.sub_diag. simpl.
      replace (S (length done)) with (length (done ++ [p'']))
        by (rewrite length_app; simpl; lia).
      replace (done ++ p'' :: rest ++ junk)
        with ((done ++ [p'']) ++ rest ++ junk)
        by (now rewrite <- app_assoc).
      now apply IH.
    + rewrite insert_app_r_alt by lia. rewrite Nat.sub_diag. simpl.
      destruct rest as [|q rest _] using rev_ind.
      * simpl in Hlen. subst n. rewrite Nat.add_0_r.
        rewrite list_lookup_middle by reflexivity.
        rewrite insert_app_r_alt by lia. rewrite Nat.sub_diag. simpl.
        now rewrite take_app_length.
      * rewrite length_app in Hlen. simpl in Hlen.
        replace (done ++ p' :: (rest ++ [q]) ++ junk)
          with ((done ++ p' :: rest) ++ q :: junk)
          by (rewrite <- !app_assoc; reflexivity).
        rewrite list_lookup_middle
          by (rewrite length_app; simpl; lia).
        rewrite <- app_assoc. simpl.
        rewrite insert_app_r_alt by lia. rewrite Nat.sub_diag. simpl.
        rewrite lastToFront_snoc.
        replace (done ++ q :: rest ++ q :: junk)
          with (done ++ (q :: rest) ++ q :: junk) by reflexivity.
        apply IH. simpl. lia.
Qed.

(** The pass neither loses nor invents a particle. *)
Lemma sweep_length dt callback sim (n : nat) :
  forall (todo done pool : list Particle) (c : BillboardCollection),
    length todo = n ->
    let '(done', pool', _) := sweep dt callback sim n todo done pool c in
    (length done' + length pool' = length done + length todo + length pool)%nat.
Proof.
  induction n as [|n IH]; intros todo done pool c Hlen.
  - destruct todo; [|discriminate]. simpl. lia.
  - destruct todo as [|p rest]; [discriminate|]. simpl in Hlen.
    injection Hlen as Hlen. simpl.
    destruct (Particle.update dt callback p) as [alive p'].
    destruct alive.
    + destruct (updateBillboard sim p' c) as [p'' c'].
      specialize (IH rest (done ++ [p'']) pool c' Hlen).
      destruct (sweep dt callback sim n rest (done ++ [p'']) pool c')
        as [[done' pool'] c''].
      rewrite length_app in IH. simpl in *. lia.
    + assert (Hl : length (lastToFront rest) = n)
        by (now rewrite lastToFront_length).
      specialize (IH (lastToFront rest) done (pool ++ [p'])
                    (removeBillboard p' c) Hl).
      destruct (sweep dt callback sim n (lastToFront rest) done (pool ++ [p'])
                  (removeBillboard p' c)) as [[done' pool'] c''].
      rewrite length_app, lastToFront_length in IH. simpl in *. lia.
Qed.

(** simulate is the pass over all the live particles. *)
Lemma simulate_sweep (dt : Q) (s : System) :
  simulate dt s =
  let '(particles, pool, c) :=
    sweep dt (updateCallback s) (_sizeInMeters s) (length (_particles s))
      (_particles s) [] (_particlePool s) (collection s) in
  set__billboardCollection (Some c)
    (set__particlePool pool (set__particles particles s)).
Proof.
  unfold simulate.
  pose proof (sweep_updateParticles dt (updateCallback s) (_sizeInMeters s)
                (length (_particles s)) (_particles s) [] []
                (_particlePool s) (collection s) eq_refl) as H.
  simpl in H. rewrite app_nil_r in H. now rewrite H.
Qed.

(** ** What each step of update leaves alone *)

Lemma allocate_spec (n : nat) (img : Image) :
  forall (pool : list Particle) (c : BillboardCollection),
    exists fresh c',
      allocate n img pool c = (pool ++ fresh, c') /\ length fresh = n.
Proof.
  induction n as [|n IH]; intros pool c; simpl.
  - exists [], c. now rewrite app_nil_r.
  - destruct (IH (pool ++ [Particle.set__billboard
                             (Some (BillboardCollection.nextHandle c))
                             Particle.new])
                (snd (BillboardCollection.add img false c)))
      as (fresh & c' & E & L).
    simpl in E. rewrite E. rewrite <- app_assoc.
    eexists _, c'. split; [reflexivity|]. simpl. now rewrite L.
Qed.

Lemma updateParticlePool_frame (s : System) :
  settings (updateParticlePool s) = settings s /\
  clock (updateParticlePool s) = clock s /\
  schedule (updateParticlePool s) = schedule s /\
  matrices (updateParticlePool s) = matrices s /\
  _particles (updateParticlePool s) = _particles s /\
  _random (updateParticlePool s) = _random s /\
  _updateParticlePool (updateParticlePool s) = _updateParticlePool s.
Proof.
  unfold updateParticlePool.
  destruct (allocate _ _ _ _) as [pool c]. now repeat split.
Qed.

Lemma prepare_frame (s : System) :
  settings (prepare s) = settings s /\
  clock (prepare s) = clock s /\
  schedule (prepare s) = schedule s /\
  matrices (prepare s) = matrices s /\
  _particles (prepare s) = _particles s /\
  _random (prepare s) = _random s /\
  _updateParticlePool (prepare s) = false.
Proof.
  unfold prepare.
  destruct (_billboardCollection s) eqn:Hc; simpl;
    destruct (_updateParticlePool s) eqn:Hf; simpl;
    try (now repeat split);
    match goal with
    | |- context [updateParticlePool ?t] =>
        destruct (updateParticlePool_frame t) as (H1 & H2 & H3 & H4 & H5 & H6 & H7)
    end; simpl in *; repeat split; assumption.
Qed.

Lemma simulate_frame (dt : Q) (s : System) :
  settings (simulate dt s) = settings s /\
  clock (simulate dt s) = clock s /\
  schedule (simulate dt s) = schedule s /\
  sizing (simulate dt s) = sizing s /\
  matrices (simulate dt s) = matrices s /\
  _random (simulate dt s) = _random s.
Proof.
  unfold simulate. destruct (updateParticles _ _ _ _ _ _ _ _) as [[ps pool] c].
  now repeat split.
Qed.

Lemma calculateNumberToEmit_frame (s : System) (dt : Q) :
  let s' := snd (calculateNumberToEmit s dt) in
  settings s' = settings s /\ clock s' = clock s /\ sizing s' = sizing s /\
  matrices s' = matrices s /\ population s' = population s /\
  _isComplete s' = _isComplete s /\ _complete s' = _complete s.
Proof.
  unfold calculateNumberToEmit.
  destruct (_isComplete s) eqn:Hc; simpl; [now repeat split|].
  destruct (rateTerm s dt) as [n carry]. simpl.
  destruct (_bursts s) as [bs|]; [|now repeat split].
  destruct (applyBursts _ _ _ _) as [[bs' n'] r]. now repeat split.
Qed.

Lemma emitOne_frame (e : ParticleEmitter) (M : Matrix4) (s : System) :
  let s' := emitOne Math_sqrt e M s in
  settings s' = settings s /\ clock s' = clock s /\
  schedule s' = schedule s /\ sizing s' = sizing s /\
  matrices s' = matrices s /\
  length (_particles s') = S (length (_particles s)) /\
  (length (_particlePool s) <= S (length (_particlePool s')))%nat /\
  (length (_particlePool s') <= length (_particlePool s))%nat.
Proof.
  unfold emitOne, getOrCreateParticle.
  destruct (last (_particlePool s)) as [q|] eqn:Hlast.
  - simpl. destruct (e q _) as [p used]. simpl.
    unfold addParticle, randomBetween, nextRandomNumber. simpl.
    destruct (updateBillboard _ _ _) as [p' c]. simpl.
    repeat split; try reflexivity.
    + rewrite length_app. simpl. lia.
    + destruct (_particlePool s) as [|a l] using rev_ind; [discriminate|].
      rewrite removelast_last, length_app. simpl. lia.
    + destruct (_particlePool s) as [|a l] using rev_ind; [discriminate|].
      rewrite removelast_last, length_app. simpl. lia.
  - simpl. destruct (e Particle.new _) as [p used]. simpl.
    unfold addParticle, randomBetween, nextRandomNumber. simpl.
    destruct (updateBillboard _ _ _) as [p' c]. simpl.
    repeat split; try reflexivity; try lia.
    rewrite length_app. simpl. lia.
Qed.

Lemma emitLoop_frame (n : nat) (e : ParticleEmitter) (M : Matrix4) :
  forall s : System,
    let s' := emitLoop Math_sqrt n e M s in
    settings s' = settings s /\ clock s' = clock s /\
    schedule s' = schedule s /\ sizing s' = sizing s /\
    matrices s' = matrices s /\
    length (_particles s') = (length (_particles s) + n)%nat /\
    (length (_particles s) + length (_particlePool s)
     <= length (_particles s') + length (_particlePool s'))%nat.
Proof.
  induction n as [|n IH]; intros s; simpl.
  - repeat split; lia.
  - destruct (emitOne_frame e M s) as (A1 & A2 & A3 & A4 & A5 & A6 & A7 & A8).
    destruct (IH (emitOne Math_sqrt e M s)) as (B1 & B2 & B3 & B4 & B5 & B6 & B7).
    repeat split; try congruence; lia.
Qed.

Lemma emitParticles_frame (numToEmit : Q) (s : System) :
  let s' := emitParticles Math_sqrt numToEmit s in
  settings s' = settings s /\ clock s' = clock s /\
  schedule s' = schedule s /\ sizing s' = sizing s /\
  length (_particles s') =
    (length (_particles s) + emissionCount numToEmit s)%nat /\
  (length (_particles s) + length (_particlePool s)
   <= length (_particles s') + length (_particlePool s'))%nat.
Proof.
  unfold emitParticles, emissionCount.
  destruct (_emitter s) as [e|]; [|repeat split; lia].
  destruct (Qgtb numToEmit 0); [|repeat split; lia].
  destruct (_matrixDirty s).
  - match goal with
    | |- context [emitLoop _ ?n e ?M ?t] =>
        destruct (emitLoop_frame n e M t) as (B1 & B2 & B3 & B4 & B5 & B6 & B7)
    end.
    simpl in *. repeat split; assumption.
  - destruct (emitLoop_frame (Z.to_nat (Qceiling numToEmit)) e
                (_combinedMatrix s) s) as (B1 & B2 & B3 & B4 & B5 & B6 & B7).
    repeat split; assumption.
Qed.

(** ** update as a whole *)

Lemma simulate_collection (dt : Q) (s : System) :
  is_Some (_billboardCollection (simulate dt s)).
Proof.
  unfold simulate. destruct (updateParticles _ _ _ _ _ _ _ _) as [[ps pool] c].
  simpl. eauto.
Qed.

(** The particle loop moves particles between the live array and the pool. *)
Lemma simulate_total (dt : Q) (s : System) :
  (length (_particles (simulate dt s)) + length (_particlePool (simulate dt s))
   = length (_particles s) + length (_particlePool s))%nat.
Proof.
  rewrite simulate_sweep.
  pose proof (sweep_length dt (updateCallback s) (_sizeInMeters s)
                (length (_particles s)) (_particles s) [] (_particlePool s)
                (collection s) eq_refl) as H.
  destruct (sweep _ _ _ _ _ _ _ _) as [[ps pool] c]. simpl in *. lia.
Qed.

Lemma emitOne_collection (e : ParticleEmitter) (M : Matrix4) (s : System) :
  is_Some (_billboardCollection (emitOne Math_sqrt e M s)).
Proof.
  unfold emitOne.
  destruct (getOrCreateParticle s) as [p s1].
  destruct (e p _) as [p' used].
  destruct (addParticle _ _) as [s2 p2].
  destruct (updateBillboard _ _ _) as [p3 c]. simpl. eauto.
Qed.

Lemma emitLoop_collection (n : nat) (e : ParticleEmitter) (M : Matrix4) :
  forall s : System,
    is_Some (_billboardCollection s) ->
    is_Some (_billboardCollection (emitLoop Math_sqrt n e M s)).
Proof.
  induction n as [|n IH]; intros s H; simpl; [exact H|].
  apply IH, emitOne_collection.
Qed.

Lemma emitParticles_collection (numToEmit : Q) (s : System) :
  is_Some (_billboardCollection s) ->
  is_Some (_billboardCollection (emitParticles Math_sqrt numToEmit s)).
Proof.
  intros H. unfold emitParticles.
  destruct (_emitter s); [|exact H].
  destruct (Qgtb numToEmit 0); [|exact H].
  apply emitLoop_collection. now destruct (_matrixDirty s).
Qed.

(** The emission leaves the configuration, the clock, the sizing of the
    pool and the completion alone, and loses no particle. *)
Lemma emit_frame (dt : Q) (s : System) :
  let s' := emit Math_sqrt dt s in
  settings s' = settings s /\ clock s' = clock s /\ sizing s' = sizing s /\
  _isComplete s' = _isComplete s /\ _complete s' = _complete s /\
  _carryOver s' = _carryOver (snd (calculateNumberToEmit s dt)) /\
  _bursts s' = _bursts (snd (calculateNumberToEmit s dt)) /\
  (length (_particles s) + length (_particlePool s)
   <= length (_particles s') + length (_particlePool s'))%nat /\
  (is_Some (_billboardCollection s) -> is_Some (_billboardCollection s')).
Proof.
  unfold emit.
  pose proof (calculateNumberToEmit_frame s dt) as H.
  destruct (calculateNumberToEmit s dt) as [n s1]. simpl in H.
  destruct H as (A1 & A2 & A3 & A4 & A5 & A6 & A7).
  destruct (emitParticles_frame n s1) as (B1 & B2 & B3 & B4 & B5 & B6).
  simpl.
  assert (P1 : _particles s1 = _particles s) by (unfold population in A5; congruence).
  assert (P2 : _particlePool s1 = _particlePool s) by (unfold population in A5; congruence).
  assert (P3 : _billboardCollection s1 = _billboardCollection s)
    by (unfold population in A5; congruence).
  unfold schedule in B3.
  conjs; try congruence.
  intros H. apply emitParticles_collection. now rewrite P3.
Qed.

Lemma checkLifetime_frame (s : System) :
  let s' := checkLifetime s in
  settings s' = settings s /\ sizing s' = sizing s /\
  population s' = population s /\ _previousTime s' = _previousTime s /\
  _carryOver s' = _carryOver s /\ _random s' = _random s.
Proof.
  unfold checkLifetime.
  destruct (negb _ && _); [|now repeat split].
  destruct (loop s); now repeat split.
Qed.

(** The state that update hands to the check of the lifetime. *)
Lemma ticked_frame (s : System) (frameState : FrameState) :
  let dt := frameTime s frameState in
  let s' := ticked Math_sqrt s frameState in
  settings s' = settings s /\ sizing s' = sizing s /\
  _isComplete s' = _isComplete s /\ _complete s' = _complete s /\
  _previousTime s' = Some (time frameState) /\
  _currentTime s' = _currentTime s + dt /\
  _carryOver s' = _carryOver (snd (calculateNumberToEmit (simulate dt s) dt)) /\
  _bursts s' = _bursts (snd (calculateNumberToEmit (simulate dt s) dt)) /\
  (length (_particles s) + length (_particlePool s)
   <= length (_particles s') + length (_particlePool s'))%nat /\
  is_Some (_billboardCollection s').
Proof.
  intros dt. unfold ticked, tick. fold dt.
  destruct (simulate_frame dt s) as (A1 & A2 & A3 & A4 & A5 & A6).
  destruct (emit_frame dt (simulate dt s))
    as (B1 & B2 & B3 & B4 & B5 & B6 & B7 & B8 & B9).
  pose proof (simulate_total dt s) as T.
  pose proof (simulate_collection dt s) as C.
  unfold clock, schedule, settings, sizing in *. cbn -[Qplus].
  conjs; try congruence; try lia; auto.
Qed.

Lemma freeParticlePool_covered (s : System) :
  (_particleEstimate s
   <= Z.of_nat (length (_particles s) + length (_particlePool s)))%Z ->
  is_Some (_billboardCollection s) ->
  freeParticlePool s = Some s.
Proof.
  intros Hcov [c Hc]. unfold freeParticlePool.
  rewrite Z.max_r by lia. rewrite Z.sub_0_r.
  destruct (Z.ltb_spec (Z.of_nat (length (_particlePool s))) 0); [lia|].
  rewrite Nat2Z.id, drop_all, firstn_all. simpl.
  unfold collection. rewrite Hc. simpl.
  destruct s. simpl in *. now subst.
Qed.

Lemma prepare_covers (s : System) :
  pool_ok s ->
  (_particleEstimate (prepare s)
   <= Z.of_nat (length (_particles (prepare s))
                + length (_particlePool (prepare s))))%Z.
Proof.
  intros Hok. unfold prepare.
  assert (Hup : forall t,
             (_particleEstimate (updateParticlePool t)
              <= Z.of_nat (length (_particles (updateParticlePool t))
                   + length (_particlePool (updateParticlePool t))))%Z).
  { intros t. unfold updateParticlePool.
    destruct (allocate_spec
                (Z.to_nat
                   (Z.max
                      (Qceiling (_emissionRate t * _maximumParticleLife t
                                 + burstAmount (_bursts t))
                       - Z.of_nat (length (_particles t))
                       - Z.of_nat (length (_particlePool t))) 0))
                (image t) (_particlePool t) (collection t))
      as (fresh & c' & E & L).
    rewrite E. simpl. rewrite length_app, L. lia. }
  destruct Hok as [Hflag|Hcov].
  - destruct (_billboardCollection s); simpl; rewrite Hflag; simpl; apply Hup.
  - destruct (_billboardCollection s); simpl;
      destruct (_updateParticlePool s); simpl; auto; apply Hup.
Qed.

Lemma step_covers (s : System) (frameState : FrameState) :
  pool_ok s ->
  let s' := step Math_sqrt s frameState in
  _updateParticlePool s' = false /\
  (_particleEstimate s'
   <= Z.of_nat (length (_particles s') + length (_particlePool s')))%Z /\
  is_Some (_billboardCollection s').
Proof.
  intros Hok. unfold step, advance.
  pose proof (prepare_covers s Hok) as Hcov.
  destruct (prepare_frame s) as (_ & _ & _ & _ & _ & _ & Hflag).
  destruct (ticked_frame (prepare s) frameState)
    as (_ & T2 & _ & _ & _ & _ & _ & _ & T9 & T10).
  destruct (checkLifetime_frame (ticked Math_sqrt (prepare s) frameState))
    as (_ & C2 & C3 & _).
  unfold sizing, population in *. cbn zeta.
  conjs; try congruence.
  replace (_particleEstimate (checkLifetime (ticked Math_sqrt (prepare s) frameState)))
    with (_particleEstimate (prepare s)) by congruence.
  replace (_particles (checkLifetime (ticked Math_sqrt (prepare s) frameState)))
    with (_particles (ticked Math_sqrt (prepare s) frameState)) by congruence.
  replace (_particlePool (checkLifetime (ticked Math_sqrt (prepare s) frameState)))
    with (_particlePool (ticked Math_sqrt (prepare s) frameState)) by congruence.
  lia.
Qed.

(** A shown system whose pool covers its estimate updates without an
    exception, and the periodic release finds nothing to release. *)
Lemma update_step (s : System) (frameState : FrameState) :
  show s = true -> pool_ok s ->
  update Math_sqrt s frameState = Some (step Math_sqrt s frameState).
Proof.
  intros Hshow Hok. unfold update. rewrite Hshow. simpl.
  destruct (step_covers s frameState Hok) as (_ & Hcov & Hc).
  destruct (Z.rem (frameNumber frameState) 120 =? 0)%Z; [|reflexivity].
  now apply freeParticlePool_covered.
Qed.

(** update returns at once when the system is not shown. *)
Lemma update_not_shown (s : System) (frameState : FrameState) :
  show s = false -> update Math_sqrt s frameState = Some s.
Proof. intros Hshow. unfold update. now rewrite Hshow. Qed.

Lemma update_pool_ok (s : System) (frameState : FrameState) :
  pool_ok s ->
  exists s', update Math_sqrt s frameState = Some s' /\ pool_ok s'.
Proof.
  intros Hok. destruct (show s) eqn:Hshow.
  - rewrite update_step by assumption. eexists. split; [reflexivity|].
    right. now apply step_covers.
  - unfold update. rewrite Hshow. simpl. eauto.
Qed.

(** ** The carry-over *)

Lemma rateTerm_range (s : System) (dt : Q) :
  carry_ok s ->
  0 <= snd (rateTerm s dt) /\ snd (rateTerm s dt) <= 1.
Proof.
  intros [Hlo Hhi]. unfold rateTerm.
  set (v := CesiumMath.mod_ dt (_lifetime s) * _emissionRate s).
  destruct (frac_range v) as [F1 F2].
  destruct (Qgtb (_carryOver s + (v - inject_Z (Qfloor v))) 1) eqn:Hgt;
    cbn [snd].
  - apply Qgtb_true in Hgt. lra.
  - apply Qgtb_false in Hgt. lra.
Qed.

Lemma calculateNumberToEmit_carry (s : System) (dt : Q) :
  carry_ok s -> carry_ok (snd (calculateNumberToEmit s dt)).
Proof.
  intros Hok. unfold calculateNumberToEmit.
  destruct (_isComplete s); [exact Hok|].
  pose proof (rateTerm_range s dt Hok) as H.
  destruct (rateTerm s dt) as [n carry]. cbn [snd] in H. cbn -[Qle].
  destruct (_bursts s) as [bs|]; [|exact H].
  destruct (applyBursts _ _ _ _) as [[bs' n'] r]. exact H.
Qed.

Lemma step_carry (s : System) (frameState : FrameState) :
  carry_ok s -> carry_ok (step Math_sqrt s frameState).
Proof.
  intros Hok. unfold step, advance, carry_ok.
  destruct (checkLifetime_frame (ticked Math_sqrt (prepare s) frameState))
    as (_ & _ & _ & _ & C5 & _).
  destruct (ticked_frame (prepare s) frameState)
    as (_ & _ & _ & _ & _ & _ & T7 & _).
  rewrite C5, T7.
  apply calculateNumberToEmit_carry.
  destruct (simulate_frame (frameTime (prepare s) frameState) (prepare s))
    as (_ & _ & S3 & _).
  destruct (prepare_frame s) as (_ & _ & P3 & _).
  unfold carry_ok, schedule in *.
  replace (_carryOver (simulate (frameTime (prepare s) frameState) (prepare s)))
    with (_carryOver s) by congruence.
  exact Hok.
Qed.

(** C8: a system that is not shown is left as it is by update: no field of
    the system, no particle, no pool entry and no billboard changes, and
    the elapsed time stays where it was, also over any number of updates. *)
Theorem update_hidden_noop (s : System) (frameState : FrameState) :
  show s = false ->
  update Math_sqrt s frameState = Some s /\
  forall frames, run Math_sqrt s frames = Some s.
Proof.
  intros Hshow. split; [now apply update_not_shown|].
  induction frames as [|f frames IH]; [reflexivity|].
  cbn [run]. now rewrite update_not_shown.
Qed.

(** C2, as amended: over every sequence of updates of a system with a
    non-zero lifetime the carry-over stays between 0 and 1, both
    included. *)
Theorem carryOver_stays_in_range (frames : list FrameState) :
  forall s : System,
    ~ _lifetime s == 0 -> pool_ok s -> carry_ok s ->
    exists s', run Math_sqrt s frames = Some s' /\ carry_ok s'.
Proof.
  induction frames as [|f frames IH]; intros s Hlife Hpool Hcarry; simpl.
  - eauto.
  - destruct (show s) eqn:Hshow.
    + rewrite update_step by assumption.
      apply IH.
      * unfold step, advance.
        destruct (checkLifetime_frame (ticked Math_sqrt (prepare s) f))
          as (C1 & _).
        destruct (ticked_frame (prepare s) f) as (T1 & _).
        destruct (prepare_frame s) as (P1 & _).
        unfold settings in *.
        replace (_lifetime (checkLifetime (ticked Math_sqrt (prepare s) f)))
          with (_lifetime s) by congruence.
        exact Hlife.
      * right. now apply step_covers.
      * now apply step_carry.
    + rewrite update_not_shown by assumption. now apply IH.
Qed.

(** ** The end of the lifetime *)

Lemma finite_lifetime (s : System) :
  negb (Qeq_bool (_lifetime s) MAX_VALUE) = true <-> ~ _lifetime s == MAX_VALUE.
Proof.
  rewrite negb_true_iff. split.
  - intros H E. apply Qeq_bool_iff in E. congruence.
  - intros H. destruct (Qeq_bool (_lifetime s) MAX_VALUE) eqn:E; [|reflexivity].
    apply Qeq_bool_iff in E. contradiction.
Qed.

Lemma checkLifetime_wraps (s : System) :
  loop s = true -> ~ _lifetime s == MAX_VALUE -> _lifetime s < _currentTime s ->
  checkLifetime s =
  set__bursts (resetBursts (_bursts s))
    (set__currentTime (CesiumMath.mod_ (_currentTime s) (_lifetime s)) s).
Proof.
  intros Hloop Hfin Hgt. unfold checkLifetime.
  apply finite_lifetime in Hfin. apply Qgtb_true in Hgt.
  now rewrite Hfin, Hgt, Hloop.
Qed.

Lemma checkLifetime_completes (s : System) :
  loop s = false -> ~ _lifetime s == MAX_VALUE -> _lifetime s < _currentTime s ->
  checkLifetime s =
  set__complete (raiseEvent (_complete s)) (set__isComplete true s).
Proof.
  intros Hloop Hfin Hgt. unfold checkLifetime.
  apply finite_lifetime in Hfin. apply Qgtb_true in Hgt.
  now rewrite Hfin, Hgt, Hloop.
Qed.

Lemma checkLifetime_within (s : System) :
  _lifetime s == MAX_VALUE \/ _currentTime s <= _lifetime s ->
  checkLifetime s = s.
Proof.
  intros H. unfold checkLifetime.
  destruct (negb (Qeq_bool (_lifetime s) MAX_VALUE)) eqn:Hfin; [|reflexivity].
  apply finite_lifetime in Hfin.
  destruct H as [H|H]; [contradiction|].
  apply Qgtb_false in H. now rewrite H.
Qed.


(** Extraction of single settings from the preserved configuration. *)
Lemma settings_fields (s s' : System) :
  settings s' = settings s ->
  show s' = show s /\ loop s' = loop s /\ _lifetime s' = _lifetime s /\
  _emitter s' = _emitter s /\ _emissionRate s' = _emissionRate s /\
  updateCallback s' = updateCallback s /\ _sizeInMeters s' = _sizeInMeters s.
Proof.
  unfold settings. intros H. injection H as ?. now conjs.
Qed.

(** The state that step hands to the check of the lifetime. *)
Lemma step_ticked (s : System) (frameState : FrameState) :
  let t := ticked Math_sqrt (prepare s) frameState in
  step Math_sqrt s frameState = checkLifetime t /\
  loop t = loop s /\ _lifetime t = _lifetime s /\
  _currentTime t = _currentTime s + frameTime s frameState /\
  _isComplete t = _isComplete s /\ _complete t = _complete s.
Proof.
  cbn zeta.
  destruct (ticked_frame (prepare s) frameState)
    as (T1 & _ & T3 & T4 & _ & T6 & _).
  destruct (prepare_frame s) as (P1 & P2 & P3 & _).
  apply settings_fields in T1 as (_ & T1 & T1' & _).
  apply settings_fields in P1 as (_ & P1 & P1' & _).
  unfold clock, schedule in *.
  assert (F : frameTime (prepare s) frameState = frameTime s frameState).
  { unfold frameTime. now replace (_previousTime (prepare s))
      with (_previousTime s) by congruence. }
  conjs; try congruence; try reflexivity.
Qed.


(** A system that does not loop is complete once its elapsed time exceeds
    its lifetime, and the event is raised in that update: also when the
    system was complete already. *)
Lemma completion_raises (s : System) (frameState : FrameState) :
  show s = true -> pool_ok s -> loop s = false ->
  ~ _lifetime s == MAX_VALUE ->
  _lifetime s < _currentTime s + frameTime s frameState ->
  exists s',
    update Math_sqrt s frameState = Some s' /\
    _isComplete s' = true /\
    raised (_complete s') = S (raised (_complete s)).
Proof.
  intros Hshow Hpool Hloop Hfin Hgt.
  rewrite update_step by assumption. eexists. split; [reflexivity|].
  destruct (step_ticked s frameState) as (E & L1 & L2 & L3 & L4 & L5).
  rewrite E.
  rewrite checkLifetime_completes by (rewrite ?L1, ?L2, ?L3; assumption).
  cbn -[ticked prepare]. now rewrite L5.
Qed.

(** A looping system never raises the event. *)
Lemma looping_never_raises (frames : list FrameState) :
  forall s : System,
    loop s = true -> pool_ok s ->
    exists s',
      run Math_sqrt s frames = Some s' /\ _complete s' = _complete s /\
      _isComplete s' = _isComplete s.
Proof.
  induction frames as [|f frames IH]; intros s Hloop Hpool; simpl.
  - eauto.
  - destruct (show s) eqn:Hshow.
    + rewrite update_step by assumption.
      destruct (step_ticked s f) as (E & L1 & L2 & L3 & L4 & L5).
      destruct (IH (step Math_sqrt s f)) as (s' & R & C & I).
      * rewrite E. unfold checkLifetime.
        destruct (negb _ && _); [|congruence].
        rewrite L1, Hloop. cbn -[ticked prepare]. congruence.
      * right. now apply step_covers.
      * exists s'. split; [exact R|].
        rewrite C, I, E. unfold checkLifetime.
        destruct (negb _ && _); [|split; congruence].
        rewrite L1, Hloop. cbn -[ticked prepare]. split; congruence.
    + rewrite update_not_shown by assumption. now apply IH.
Qed.

(** ** The sizing of the pool *)



(** ** The periodic release of the pool *)

(** What freeParticlePool releases: as many entries as the estimate exceeds
    the particles at hand, none when they cover the estimate. *)
Lemma freeParticlePool_length (s s' : System) :
  freeParticlePool s = Some s' ->
  Z.of_nat (length (_particlePool s'))
  = (Z.of_nat (length (_particlePool s))
     - Z.max (_particleEstimate s - Z.of_nat (length (_particles s))
              - Z.of_nat (length (_particlePool s))) 0)%Z.
Proof.
  unfold freeParticlePool. intros H.
  destruct (Z.ltb_spec
              (Z.of_nat (length (_particlePool s))
               - Z.max (_particleEstimate s - Z.of_nat (length (_particles s))
                        - Z.of_nat (length (_particlePool s))) 0) 0)
    as [Hneg|Hpos]; [discriminate|].
  injection H as <-. simpl. rewrite length_take. lia.
Qed.

(** ** The velocity of a new particle *)

Lemma magnitudeSquared_scaled (v : Cartesian3) (k : Q) :
  Cartesian3.magnitudeSquared (Cartesian3.multiplyByScalar v k)
  == k * k * Cartesian3.magnitudeSquared v.
Proof.
  unfold Cartesian3.magnitudeSquared, Cartesian3.multiplyByScalar.
  cbn [Cartesian3.x Cartesian3.y Cartesian3.z]. ring.
Qed.

(** Where the square root is exact, a normalized vector has magnitude 1. *)
Lemma magnitudeSquared_normalize (d : Cartesian3) :
  let m := Math_sqrt (Cartesian3.magnitudeSquared d) in
  m * m == Cartesian3.magnitudeSquared d ->
  0 < Cartesian3.magnitudeSquared d ->
  Cartesian3.magnitudeSquared (normalize Math_sqrt d) == 1.
Proof.
  intros m Hm Hpos.
  assert (Hnz : ~ m == 0).
  { intros E. rewrite E in Hm. lra. }
  unfold normalize. fold m.
  unfold Cartesian3.magnitudeSquared in *.
  cbn [Cartesian3.x Cartesian3.y Cartesian3.z].
  set (a := Cartesian3.x d) in *. set (b := Cartesian3.y d) in *.
  set (c := Cartesian3.z d) in *.
  transitivity ((a * a + b * b + c * c) / (m * m)).
  - field. exact Hnz.
  - rewrite Hm. field. lra.
Qed.

(** C9, as amended: the velocity of an emitted particle is the offset
    between the transformed point [position + velocity] and the transformed
    position, normalized, and then multiplied by a speed drawn between the
    configured speed bounds: the speed is chosen after the rotation, in
    addParticle.  Where the square root of the normalization is exact, the
    magnitude of the velocity is that speed, whatever the scale of the
    matrix. *)
Theorem emitted_velocity (e : ParticleEmitter) (M : Matrix4) (s : System) :
  let acquired := getOrCreateParticle s in
  let r := _random (snd acquired) in
  let local := e (fst acquired) (fun k => stream r (drawn r + k)%nat) in
  let position := Particle.position (fst local) in
  let velocity := Particle.velocity (fst local) in
  let d :=
    Cartesian3.subtract
      (Matrix4.multiplyByPoint M (Cartesian3.add position velocity))
      (Matrix4.multiplyByPoint M position) in
  let m := Math_sqrt (Cartesian3.magnitudeSquared d) in
  let speed :=
    stream r (4 + (drawn r + snd local))
    * (_maximumSpeed s - _minimumSpeed s) + _minimumSpeed s in
  m * m == Cartesian3.magnitudeSquared d ->
  0 < Cartesian3.magnitudeSquared d ->
  exists p,
    last (_particles (emitOne Math_sqrt e M s)) = Some p /\
    Particle.velocity p
    = Cartesian3.multiplyByScalar (normalize Math_sqrt d) speed /\
    Particle.position p = Matrix4.multiplyByPoint M position /\
    Cartesian3.magnitudeSquared (Particle.velocity p) == speed * speed.
Proof.
  cbv zeta.
  assert (Hsame : _minimumSpeed (snd (getOrCreateParticle s)) = _minimumSpeed s
                  /\ _maximumSpeed (snd (getOrCreateParticle s))
                     = _maximumSpeed s).
  { unfold getOrCreateParticle. destruct (last (_particlePool s)); auto. }
  unfold emitOne.
  destruct (getOrCreateParticle s) as [p0 s0]. cbn [fst snd] in *.
  destruct Hsame as [Hmin Hmax].
  destruct (e p0 _) as [p1 used]. cbn [fst snd].
  intros Hm Hpos.
  unfold addParticle, randomBetween, nextRandomNumber.
  cbn -[Qmult Qplus Qminus Qdiv updateBillboard].
  unfold updateBillboard.
  destruct (Particle._billboard p1) as [h|];
    cbn -[Qmult Qplus Qminus Qdiv];
    rewrite last_snoc; eexists; (split; [reflexivity|]);
    cbn -[Qmult Qplus Qminus Qdiv]; rewrite Hmin, Hmax;
    (split; [reflexivity|]); (split; [reflexivity|]);
    rewrite magnitudeSquared_scaled, (magnitudeSquared_normalize _ Hm Hpos);
    ring.
Qed.

(** ** What the particle loop does to each particle *)

Lemma update_keeps_billboard dt callback (p : Particle) :
  keeps_billboard callback ->
  Particle._billboard (snd (Particle.update dt callback p))
  = Particle._billboard p.
Proof.
  intros Hk. unfold Particle.update.
  destruct (Qgtb _ _); [reflexivity|].
  destruct callback as [f|]; cbn [snd]; [|reflexivity].
  cbn [Particle.set_position Particle._billboard]. now rewrite Hk.
Qed.

Lemma set__billboard_same (p : Particle) (h : option nat) :
  Particle._billboard p = h -> Particle.set__billboard h p = p.
Proof. destruct p. simpl. now intros ->. Qed.

Lemma survivors_cons dt callback (p : Particle) (l : list Particle) :
  survivors dt callback (p :: l)
  = (if fst (Particle.update dt callback p)
     then [snd (Particle.update dt callback p)] else [])
    ++ survivors dt callback l.
Proof.
  unfold survivors. simpl. now destruct (fst (Particle.update dt callback p)).
Qed.

Lemma casualties_cons dt callback (p : Particle) (l : list Particle) :
  casualties dt callback (p :: l)
  = (if fst (Particle.update dt callback p)
     then [] else [snd (Particle.update dt callback p)])
    ++ casualties dt callback l.
Proof.
  unfold casualties. simpl. now destruct (fst (Particle.update dt callback p)).
Qed.

Lemma survivors_perm dt callback (l l' : list Particle) :
  l ≡ₚ l' -> survivors dt callback l ≡ₚ survivors dt callback l'.
Proof.
  induction 1 as [|a l l' _ IH|a b l|l1 l2 l3 _ IH1 _ IH2].
  - reflexivity.
  - rewrite !survivors_cons. now rewrite IH.
  - rewrite !survivors_cons, !app_assoc. f_equiv.
    destruct (fst (Particle.update dt callback a)),
      (fst (Particle.update dt callback b)); simpl; try reflexivity.
    apply Permutation_swap.
  - now rewrite IH1.
Qed.

Lemma casualties_perm dt callback (l l' : list Particle) :
  l ≡ₚ l' -> casualties dt callback l ≡ₚ casualties dt callback l'.
Proof.
  induction 1 as [|a l l' _ IH|a b l|l1 l2 l3 _ IH1 _ IH2].
  - reflexivity.
  - rewrite !casualties_cons. now rewrite IH.
  - rewrite !casualties_cons, !app_assoc. f_equiv.
    destruct (fst (Particle.update dt callback a)),
      (fst (Particle.update dt callback b)); simpl; try reflexivity.
    apply Permutation_swap.
  - now rewrite IH1.
Qed.

Lemma get_modify_eq (f : Billboard -> Billboard) (h : nat)
    (c : BillboardCollection) :
  BillboardCollection.get h (BillboardCollection.modify f h c)
  = f <$> BillboardCollection.get h c.
Proof.
  unfold BillboardCollection.get, BillboardCollection.modify. simpl.
  apply lookup_alter_eq.
Qed.

Lemma get_modify_ne (f : Billboard -> Billboard) (h k : nat)
    (c : BillboardCollection) :
  h <> k ->
  BillboardCollection.get k (BillboardCollection.modify f h c)
  = BillboardCollection.get k c.
Proof.
  intros Hne. unfold BillboardCollection.get, BillboardCollection.modify.
  simpl. now apply lookup_alter_ne.
Qed.

(** The pass over particles that each have a billboard of their own: the
    particles that live on end up in the live array, the others in the pool,
    and each billboard receives the state of its particle. *)
Lemma sweep_spec dt callback sim (n : nat) :
  keeps_billboard callback ->
  forall (todo done pool : list Particle) (c : BillboardCollection),
    length todo = n ->
    Forall (fun p => is_Some (Particle._billboard p)) todo ->
    NoDup (map Particle._billboard todo) ->
    let '(done', pool', c') := sweep dt callback sim n todo done pool c in
    done' ≡ₚ done ++ survivors dt callback todo /\
    pool' ≡ₚ pool ++ casualties dt callback todo /\
    (forall h, Some h ∉ map Particle._billboard todo ->
               BillboardCollection.get h c' = BillboardCollection.get h c) /\
    (forall p h, p ∈ todo -> Particle._billboard p = Some h ->
                 BillboardCollection.get h c'
                 = written dt callback sim p <$> BillboardCollection.get h c).
Proof.
  intros Hk. induction n as [|n IH]; intros todo done pool c Hlen Hall Hnd.
  - destruct todo; [|discriminate]. simpl.
    rewrite !app_nil_r. conjs; auto.
    intros p h Hp. now apply not_elem_of_nil in Hp.
  - destruct todo as [|p rest]; [discriminate|]. simpl in Hlen.
    injection Hlen as Hlen.
    apply Forall_cons in Hall as [[h0 Hh0] Hall].
    simpl in Hnd. apply NoDup_cons in Hnd as [Hfresh Hnd].
    pose proof (update_keeps_billboard dt callback p Hk) as Hb.
    cbn [sweep].
    rewrite survivors_cons, casualties_cons.
    unfold written at 1.
    destruct (Particle.update dt callback p) as [alive p'] eqn:Hu.
    cbn [fst snd] in Hb |- *.
    assert (Hhead : forall q h, q ∈ p :: rest ->
                      Particle._billboard q = Some h -> h = h0 -> q = p).
    { intros q h Hq Hqh ->. apply elem_of_cons in Hq as [->|Hq]; [reflexivity|].
      exfalso. apply Hfresh.
      replace (Particle._billboard p) with (Particle._billboard q) by congruence.
      apply list_elem_of_In, in_map, list_elem_of_In, Hq. }
    destruct alive.
    + unfold updateBillboard. rewrite Hb, Hh0.
      rewrite (set__billboard_same p' (Some h0)) by congruence.
      specialize (IH rest (done ++ [p']) pool
                    (BillboardCollection.modify (pushToBillboard sim p') h0 c)
                    Hlen Hall Hnd).
      destruct (sweep dt callback sim n rest (done ++ [p']) pool _)
        as [[done' pool'] c'].
      destruct IH as (I1 & I2 & I3 & I4).
      conjs.
      * rewrite I1, <- app_assoc. reflexivity.
      * exact I2.
      * intros h Hh. rewrite I3.
        -- apply get_modify_ne. intros ->. apply Hh. simpl. rewrite Hh0.
           apply list_elem_of_here.
        -- intros Hin. apply Hh. simpl. now apply list_elem_of_further.
      * intros q h Hq Hqh.
        destruct (decide (h = h0)) as [->|Hne].
        -- rewrite (Hhead q h0 Hq Hqh eq_refl).
           rewrite I3 by (now rewrite <- Hh0).
           rewrite get_modify_eq. unfold written. now rewrite Hu.
        -- apply elem_of_cons in Hq as [->|Hq]; [congruence|].
           rewrite (I4 q h Hq Hqh). now rewrite get_modify_ne.
    + unfold removeBillboard. rewrite Hb, Hh0.
      assert (Hperm : lastToFront rest ≡ₚ rest) by apply lastToFront_perm.
      specialize (IH (lastToFront rest) done (pool ++ [p'])
                    (BillboardCollection.modify (Billboard.set_show false) h0 c)).
      destruct (sweep dt callback sim n (lastToFront rest) done (pool ++ [p']) _)
        as [[done' pool'] c'].
      destruct IH as (I1 & I2 & I3 & I4).
      { now rewrite lastToFront_length. }
      { now rewrite Hperm. }
      { rewrite (Permutation_map Particle._billboard Hperm). exact Hnd. }
      conjs.
      * rewrite I1. now rewrite (survivors_perm _ _ _ _ Hperm).
      * rewrite I2, <- app_assoc. simpl.
        now rewrite (casualties_perm _ _ _ _ Hperm).
      * intros h Hh. rewrite I3.
        -- apply get_modify_ne. intros ->. apply Hh. simpl. rewrite Hh0.
           apply list_elem_of_here.
        -- intros Hin. apply Hh. simpl. apply list_elem_of_further.
           now rewrite <- (Permutation_map Particle._billboard Hperm).
      * intros q h Hq Hqh.
        destruct (decide (h = h0)) as [->|Hne].
        -- rewrite (Hhead q h0 Hq Hqh eq_refl).
           rewrite I3.
           ++ rewrite get_modify_eq. unfold written. now rewrite Hu.
           ++ intros Hin. apply Hfresh. rewrite Hh0.
              now rewrite <- (Permutation_map Particle._billboard Hperm).
        -- apply elem_of_cons in Hq as [->|Hq]; [congruence|].
           rewrite (I4 q h); [|now rewrite Hperm|exact Hqh].
           now rewrite get_modify_ne.
Qed.

(** ** Updates of a complete system *)

Lemma calculateNumberToEmit_complete (s : System) (dt : Q) :
  _isComplete s = true -> calculateNumberToEmit s dt = (0, s).
Proof. intros H. unfold calculateNumberToEmit. now rewrite H. Qed.

Lemma checkLifetime_no_loop (s : System) :
  loop s = false ->
  _currentTime (checkLifetime s) = _currentTime s /\
  _bursts (checkLifetime s) = _bursts s /\
  (_isComplete s = true -> _isComplete (checkLifetime s) = true).
Proof.
  intros Hloop. unfold checkLifetime. rewrite Hloop.
  destruct (negb _ && _); now conjs.
Qed.

Lemma emit_complete (s : System) (dt : Q) :
  _isComplete s = true -> emit Math_sqrt dt s = s.
Proof.
  intros H. unfold emit. rewrite calculateNumberToEmit_complete by exact H.
  unfold emitParticles. now destruct (_emitter s).
Qed.


(** ** Updates without time *)





(** A particle that survives its update is within its life. *)
Lemma update_within_life dt callback (p : Particle) :
  keeps_alive callback ->
  fst (Particle.update dt callback p) = true ->
  Particle._age (snd (Particle.update dt callback p))
  <= Particle.life (snd (Particle.update dt callback p)).
Proof.
  intros Hk. unfold Particle.update.
  cbn [Particle.set__age Particle._age Particle.life].
  destruct (Qgtb (Particle._age p + dt) (Particle.life p)) eqn:Hgt;
    [discriminate|].
  intros _. apply Qgtb_false in Hgt.
  destruct callback as [f|]; cbn [snd].
  - cbn [Particle.set_position Particle._age Particle.life].
    apply Hk. exact Hgt.
  - exact Hgt.
Qed.



(** The particles that the pass keeps are within their life. *)
Lemma sweep_alive dt callback sim (n : nat) :
  keeps_alive callback ->
  forall (todo done pool : list Particle) (c : BillboardCollection),
    Forall (fun p => Particle._age p <= Particle.life p) done ->
    let '(done', _, _) := sweep dt callback sim n todo done pool c in
    Forall (fun p => Particle._age p <= Particle.life p) done'.
Proof.
  intros Hk. induction n as [|n IH]; intros todo done pool c Hdone.
  - now destruct todo.
  - destruct todo as [|p rest]; [exact Hdone|].
    cbn [sweep].
    pose proof (update_within_life dt callback p Hk) as Hp.
    destruct (Particle.update dt callback p) as [alive p'].
    cbn [fst snd] in Hp. destruct alive.
    + unfold updateBillboard.
      destruct (Particle._billboard p');
        apply IH; apply Forall_app; (split; [exact Hdone|]);
        constructor; auto; destruct p'; simpl in *; now apply Hp.
    + now apply IH.
Qed.

(** ** The lives of new particles *)

Lemma lives_ok_fields (s s' : System) :
  stream (_random s') = stream (_random s) ->
  settings s' = settings s ->
  lives_ok s -> lives_ok s'.
Proof.
  intros Hr Hs H k. unfold settings in Hs. injection Hs as ?.
  unfold lives_ok in H.
  replace (_maximumParticleLife s') with (_maximumParticleLife s) by congruence.
  replace (_minimumParticleLife s') with (_minimumParticleLife s) by congruence.
  rewrite Hr. apply H.
Qed.

Lemma applyBursts_stream (currentTime : Q) (bursts : list ParticleBurst) :
  forall (numToEmit : Q) (r : Random),
    stream (snd (applyBursts currentTime bursts numToEmit r)) = stream r.
Proof.
  induction bursts as [|b bs IH]; intros n r; [reflexivity|].
  cbn [applyBursts].
  destruct (negb _ && _).
  - unfold randomBetween, nextRandomNumber. cbn -[Qplus Qmult Qminus].
    specialize (IH (n + (stream r (drawn r)
                         * (ParticleBurst.maximum b - ParticleBurst.minimum b)
                         + ParticleBurst.minimum b))
                  {| stream := stream r; drawn := S (drawn r) |}).
    destruct (applyBursts _ _ _ _) as [[bs' n'] r']. exact IH.
  - specialize (IH n r).
    destruct (applyBursts _ _ _ _) as [[bs' n'] r']. exact IH.
Qed.

Lemma calculateNumberToEmit_stream (s : System) (dt : Q) :
  stream (_random (snd (calculateNumberToEmit s dt))) = stream (_random s).
Proof.
  unfold calculateNumberToEmit.
  destruct (_isComplete s); [reflexivity|].
  destruct (rateTerm s dt) as [n carry]. cbn -[applyBursts].
  destruct (_bursts s) as [bs|]; [|reflexivity].
  pose proof (applyBursts_stream (_currentTime s) bs n (_random s)) as H.
  destruct (applyBursts _ _ _ _) as [[bs' n'] r]. exact H.
Qed.

Lemma emitOne_alive (e : ParticleEmitter) (M : Matrix4) (s : System) :
  lives_ok s -> particles_alive s ->
  particles_alive (emitOne Math_sqrt e M s) /\
  stream (_random (emitOne Math_sqrt e M s)) = stream (_random s).
Proof.
  intros Hlives Halive. unfold emitOne.
  assert (Hg : _particles (snd (getOrCreateParticle s)) = _particles s /\
               _random (snd (getOrCreateParticle s)) = _random s /\
               _minimumParticleLife (snd (getOrCreateParticle s))
               = _minimumParticleLife s /\
               _maximumParticleLife (snd (getOrCreateParticle s))
               = _maximumParticleLife s).
  { unfold getOrCreateParticle. destruct (last (_particlePool s)); now conjs. }
  destruct (getOrCreateParticle s) as [p0 s0]. cbn [snd] in Hg.
  destruct Hg as (G1 & G2 & G3 & G4).
  destruct (e p0 _) as [p1 used].
  unfold addParticle, randomBetween, nextRandomNumber.
  cbn -[Qmult Qplus Qminus updateBillboard].
  unfold updateBillboard.
  destruct (Particle._billboard p1);
    cbn -[Qmult Qplus Qminus]; rewrite G1, G2, G3, G4;
    (split; [|reflexivity]);
    apply Forall_app; (split; [exact Halive|]);
    constructor; auto; cbn -[Qmult Qplus Qminus]; apply Hlives.
Qed.

Lemma emitLoop_alive (n : nat) (e : ParticleEmitter) (M : Matrix4) :
  forall s : System,
    lives_ok s -> particles_alive s ->
    particles_alive (emitLoop Math_sqrt n e M s) /\
    stream (_random (emitLoop Math_sqrt n e M s)) = stream (_random s).
Proof.
  induction n as [|n IH]; intros s Hlives Halive; [now split|].
  cbn [emitLoop].
  destruct (emitOne_alive e M s Hlives Halive) as [A1 A2].
  destruct (emitOne_frame e M s) as (F1 & _).
  destruct (IH (emitOne Math_sqrt e M s)) as [B1 B2].
  - exact (lives_ok_fields _ _ A2 F1 Hlives).
  - exact A1.
  - split; [exact B1 | congruence].
Qed.

Lemma emitParticles_alive (numToEmit : Q) (s : System) :
  lives_ok s -> particles_alive s ->
  particles_alive (emitParticles Math_sqrt numToEmit s) /\
  stream (_random (emitParticles Math_sqrt numToEmit s)) = stream (_random s).
Proof.
  intros Hlives Halive. unfold emitParticles.
  destruct (_emitter s) as [e|]; [|now split].
  destruct (Qgtb numToEmit 0); [|now split].
  destruct (_matrixDirty s).
  - match goal with
    | |- context [emitLoop _ ?n e ?M ?t] =>
        destruct (emitLoop_alive n e M t) as [B1 B2]
    end; [exact Hlives | exact Halive | now split].
  - now apply emitLoop_alive.
Qed.

(** An update keeps the live particles within their life, and leaves the
    numbers that the generator will return as they are. *)
Lemma step_alive (s : System) (frameState : FrameState) :
  keeps_alive (updateCallback s) -> lives_ok s -> particles_alive s ->
  particles_alive (step Math_sqrt s frameState) /\
  lives_ok (step Math_sqrt s frameState).
Proof.
  intros Hk Hlives Halive.
  destruct (prepare_frame s) as (P1 & _ & _ & _ & P5 & P6 & _).
  pose proof (settings_fields _ _ P1) as (_ & _ & _ & _ & _ & P7 & _).
  set (dt := frameTime (prepare s) frameState).
  assert (H1 : particles_alive (simulate dt (prepare s)) /\
               lives_ok (simulate dt (prepare s))).
  { destruct (simulate_frame dt (prepare s)) as (F1 & _ & _ & _ & _ & F6).
    split.
    - unfold particles_alive. rewrite simulate_sweep.
      pose proof (sweep_alive dt (updateCallback (prepare s))
                    (_sizeInMeters (prepare s)) (length (_particles (prepare s)))
                    ltac:(now rewrite P7) (_particles (prepare s)) []
                    (_particlePool (prepare s)) (collection (prepare s))
                    ltac:(constructor)) as H.
      destruct (sweep _ _ _ _ _ _ _ _) as [[done' pool'] c']. exact H.
    - apply (lives_ok_fields s); [congruence | congruence | exact Hlives]. }
  destruct H1 as [A1 L1].
  assert (H2 : particles_alive (emit Math_sqrt dt (simulate dt (prepare s))) /\
               lives_ok (emit Math_sqrt dt (simulate dt (prepare s)))).
  { unfold emit.
    pose proof (calculateNumberToEmit_frame (simulate dt (prepare s)) dt) as Hc.
    pose proof (calculateNumberToEmit_stream (simulate dt (prepare s)) dt) as Hs.
    destruct (calculateNumberToEmit (simulate dt (prepare s)) dt) as [n s3].
    cbn [snd] in Hc, Hs. destruct Hc as (C1 & _ & _ & _ & C5 & _).
    assert (A3 : particles_alive s3).
    { unfold particles_alive, population in *.
      now replace (_particles s3) with (_particles (simulate dt (prepare s)))
        by congruence. }
    assert (L3 : lives_ok s3) by exact (lives_ok_fields _ _ Hs C1 L1).
    destruct (emitParticles_alive n s3 L3 A3) as [B1 B2].
    destruct (emitParticles_frame n s3) as (E1 & _).
    split; [exact B1 | exact (lives_ok_fields _ _ B2 E1 L3)]. }
  destruct H2 as [A2 L2].
  unfold step, advance, ticked. fold dt.
  set (e := emit Math_sqrt dt (simulate dt (prepare s))) in *.
  destruct (checkLifetime_frame (tick dt frameState e))
    as (C1 & _ & C3 & _ & _ & C6).
  unfold population in C3. split.
  - unfold particles_alive. injection C3 as E1 _ _. rewrite E1. exact A2.
  - apply (lives_ok_fields e); [now rewrite C6 | now rewrite C1 | exact L2].
Qed.







(** ** Bursts *)

Lemma due_fire (currentTime currentTime' : Q) (b : ParticleBurst) :
  due currentTime b = true -> due currentTime' (fire currentTime b) = false.
Proof. intros H. unfold fire. rewrite H. reflexivity. Qed.

(** The burst loop when every burst has its minimum equal to its maximum:
    each burst that is due adds exactly that number and is marked as fired,
    the others are left as they are. *)
Lemma applyBursts_fixed (currentTime : Q) (bursts : list ParticleBurst) :
  Forall (fun b => ParticleBurst.minimum b == ParticleBurst.maximum b) bursts ->
  forall (numToEmit : Q) (r : Random),
    let '(bursts', numToEmit', _) :=
      applyBursts currentTime bursts numToEmit r in
    bursts' = map (fire currentTime) bursts /\
    numToEmit' == numToEmit + burstTotal currentTime bursts.
Proof.
  induction 1 as [|b bs Hb _ IH]; intros n r.
  - simpl. split; [reflexivity|lra].
  - cbn [applyBursts map burstTotal fold_right]. unfold fire at 1.
    fold (burstTotal currentTime bs). fold (due currentTime b).
    destruct (due currentTime b).
    + unfold randomBetween, nextRandomNumber.
      specialize (IH (n + (stream r (drawn r)
                           * (ParticleBurst.maximum b - ParticleBurst.minimum b)
                           + ParticleBurst.minimum b))
                    {| stream := stream r; drawn := S (drawn r) |}).
      destruct (applyBursts _ _ _ _) as [[bs' n'] r'].
      destruct IH as [-> IH]. split; [reflexivity|].
      rewrite IH.
      assert (E : ParticleBurst.maximum b - ParticleBurst.minimum b == 0)
        by lra.
      rewrite E. lra.
    + specialize (IH n r).
      destruct (applyBursts _ _ _ _) as [[bs' n'] r'].
      destruct IH as [-> IH]. split; [reflexivity|]. rewrite IH. lra.
Qed.

Lemma rateTerm_no_rate (s : System) (dt : Q) :
  _emissionRate s == 0 -> _carryOver s <= 1 ->
  fst (rateTerm s dt) == 0 /\ snd (rateTerm s dt) == _carryOver s.
Proof.
  intros Hrate Hcarry. unfold rateTerm.
  assert (Hv : CesiumMath.mod_ dt (_lifetime s) * _emissionRate s == 0)
    by (rewrite Hrate; lra).
  set (v := CesiumMath.mod_ dt (_lifetime s) * _emissionRate s) in *.
  assert (Hf : Qfloor v = 0%Z) by (now rewrite (Qfloor_comp v 0 Hv)).
  rewrite Hf. change (inject_Z 0) with 0.
  assert (Hno : Qgtb (_carryOver s + (v - 0)) 1 = false)
    by (apply Qgtb_false; lra).
  rewrite Hno. cbn [fst snd]. split; lra.
Qed.

Lemma calculateNumberToEmit_bursts (s : System) (dt : Q)
    (bursts : list ParticleBurst) :
  _isComplete s = false -> _bursts s = Some bursts ->
  calculateNumberToEmit s dt
  = let '(bursts', numToEmit, r) :=
      applyBursts (_currentTime s) bursts (fst (rateTerm s dt)) (_random s) in
    (numToEmit,
     set__random r
       (set__bursts (Some bursts') (set__carryOver (snd (rateTerm s dt)) s))).
Proof.
  intros Hc Hb. unfold calculateNumberToEmit. rewrite Hc.
  destruct (rateTerm s dt) as [n carry]. cbn -[applyBursts].
  now rewrite Hb.
Qed.

Lemma Qgtb_comp (a a' b : Q) : a == a' -> Qgtb a b = Qgtb a' b.
Proof. intros E. unfold Qgtb. now rewrite E. Qed.

(** The scheduler in the scenario: the count is 3 when the burst fires and
    0 otherwise, and the carry-over stays 0. *)
Lemma scenario_schedule (fired : bool) (s : System) (dt : Q) :
  _isComplete s = false ->
  _bursts s = Some [ParticleBurst.set__complete fired (newBurst 0 3 3)] ->
  _emissionRate s == 0 -> _carryOver s == 0 ->
  let fires := negb fired && Qgtb (_currentTime s) 0 in
  let result := calculateNumberToEmit s dt in
  fst result == (if fires then 3 else 0) /\
  _bursts (snd result)
  = Some [ParticleBurst.set__complete (fired || Qgtb (_currentTime s) 0)
            (newBurst 0 3 3)] /\
  _carryOver (snd result) == 0.
Proof.
  intros Hcomplete Hbursts Hrate Hcarry fires result.
  destruct (rateTerm_no_rate s dt Hrate) as [R1 R2]; [lra|].
  unfold result.
  rewrite (calculateNumberToEmit_bursts s dt _ Hcomplete Hbursts).
  cbn [applyBursts ParticleBurst._complete ParticleBurst.set__complete
         ParticleBurst.time ParticleBurst.minimum ParticleBurst.maximum
         newBurst].
  fold fires. destruct fires eqn:Hf.
  - unfold randomBetween, nextRandomNumber. cbn [fst snd].
    cbn [_bursts set__random set__bursts _carryOver set__carryOver].
    conjs.
    + lra.
    + apply andb_prop in Hf as [Hf1 Hf2]. rewrite Hf2.
      now destruct fired.
    + lra.
  - cbn [fst snd].
    cbn [_bursts set__random set__bursts _carryOver set__carryOver].
    conjs.
    + exact R1.
    + unfold fires in Hf. destruct fired; [reflexivity|].
      cbn [negb andb] in Hf. now rewrite Hf.
    + lra.
Qed.

(** One update of a system of the scenario: the burst fires when it had not
    fired and the elapsed time on entry is positive, and the update then
    emits its 3 particles, and none otherwise. *)
Lemma scenario_update (fired : bool) (s : System) (frameState : FrameState) :
  scenario fired s ->
  emitted s frameState
  = (if negb fired && Qgtb (_currentTime s) 0 then 3 else 0)%nat /\
  exists s',
    update Math_sqrt s frameState = Some s' /\
    scenario (fired || Qgtb (_currentTime s) 0) s'.
Proof.
  intros (Hshow & Hem & Hrate & Hlife & Hbursts & Hcomplete & Hcarry & Hpool).
  destruct (prepare_frame s) as (P1 & P2 & P3 & P4 & P5 & P6 & P7).
  pose proof (settings_fields _ _ P1) as (S1 & S2 & S3 & S4 & S5 & S6 & S7).
  unfold clock, schedule in P2, P3.
  injection P2 as P2a P2b. injection P3 as P3a P3b P3c P3d.
  destruct (simulate_frame (frameTime (prepare s) frameState) (prepare s))
    as (F1 & F2 & F3 & F4 & F5 & F6).
  pose proof (settings_fields _ _ F1) as (G1 & G2 & G3 & G4 & G5 & G6 & G7).
  unfold clock, schedule in F2, F3.
  injection F2 as F2a F2b. injection F3 as F3a F3b F3c F3d.
  destruct (scenario_schedule fired
              (simulate (frameTime (prepare s) frameState) (prepare s))
              (frameTime (prepare s) frameState))
    as (C1 & C2 & C3).
  { congruence. }
  { congruence. }
  { now rewrite G5, S5. }
  { now rewrite F3a, P3a. }
  rewrite F2b, P2b in C1, C2.
  split.
  - unfold emitted, scheduled, emissionCount. rewrite Hshow. cbn [negb].
    destruct Hem as [e ->].
    rewrite (Qgtb_comp _ _ 0 C1), (Qceiling_comp _ _ C1).
    now destruct (negb fired && Qgtb (_currentTime s) 0).
  - rewrite update_step by assumption. eexists. split; [reflexivity|].
    destruct (step_covers s frameState Hpool) as (_ & Hcov & _).
    destruct (step_ticked s frameState) as (E & _).
    destruct (ticked_frame (prepare s) frameState)
      as (T1 & T2 & T3 & T4 & T5 & T6 & T7 & T8 & T9 & T10).
    pose proof (settings_fields _ _ T1) as (U1 & U2 & U3 & U4 & U5 & _).
    assert (Hsame : step Math_sqrt s frameState
                    = ticked Math_sqrt (prepare s) frameState).
    { rewrite E. apply checkLifetime_within. left. now rewrite U3, S3. }
    unfold scenario. rewrite Hsame in Hcov |- *. conjs.
    + congruence.
    + now rewrite U4, S4.
    + now rewrite U5, S5.
    + now rewrite U3, S3.
    + now rewrite T8.
    + congruence.
    + now rewrite T7.
    + right. exact Hcov.
Qed.

Lemma scenario_run (frames : list FrameState) :
  forall (fired : bool) (s : System),
    scenario fired s ->
    exists s' fired',
      run Math_sqrt s frames = Some s' /\ scenario fired' s' /\
      (fired = true -> fired' = true) /\
      totalEmitted Math_sqrt s frames
      = (if fired then 0 else if fired' then 3 else 0)%nat.
Proof.
  induction frames as [|f frames IH]; intros fired s Hs.
  - exists s, fired. simpl. conjs; auto. now destruct fired.
  - destruct (scenario_update fired s f Hs) as (He & s1 & Hup & Hs1).
    destruct (IH _ s1 Hs1) as (s' & fired' & Hrun & Hs' & Himp & Htot).
    exists s', fired'. cbn [run totalEmitted]. rewrite Hup, He, Htot.
    conjs; auto.
    + intros ->. now apply Himp.
    + destruct fired; cbn [negb andb orb] in *; [reflexivity|].
      destruct (Qgtb (_currentTime s) 0); cbn [orb] in *.
      * now rewrite Himp.
      * reflexivity.
Qed.

Lemma burstSystem_scenario : scenario false burstSystem.
Proof.
  unfold scenario. conjs; try reflexivity.
  - eexists. reflexivity.
  - now left.
Qed.

(** C4, as amended: a burst whose minimum and maximum are both n fires when
    it has not fired and the elapsed time on entry to the update, before the
    frame time is added, is past its time; it then adds exactly n to the
    count and is marked as fired, so that it cannot fire again until a loop
    resets it.  With no emission rate, no finite lifetime and one burst of 3
    at time 0, the first update emits nothing, an update emits the 3
    particles when it is the first to start with a positive elapsed time, and
    a run of updates emits 3 particles in all once the burst has fired, and
    none before. *)
Theorem burst_emission :
  (forall currentTime bursts numToEmit r,
      Forall (fun b => ParticleBurst.minimum b == ParticleBurst.maximum b)
        bursts ->
      let '(bursts', numToEmit', _) :=
        applyBursts currentTime bursts numToEmit r in
      bursts' = map (fire currentTime) bursts /\
      numToEmit' == numToEmit + burstTotal currentTime bursts) /\
  (forall currentTime currentTime' b,
      due currentTime b = true ->
      due currentTime' (fire currentTime b) = false) /\
  (forall frameState, emitted burstSystem frameState = 0%nat) /\
  (forall s frameState,
      scenario false s ->
      emitted s frameState
      = (if Qgtb (_currentTime s) 0 then 3 else 0)%nat /\
      exists s',
        update Math_sqrt s frameState = Some s' /\
        scenario (Qgtb (_currentTime s) 0) s') /\
  (forall frames,
      exists s' fired,
        run Math_sqrt burstSystem frames = Some s' /\ scenario fired s' /\
        totalEmitted Math_sqrt burstSystem frames
        = (if fired then 3 else 0)%nat).
Proof.
  conjs.
  - intros currentTime bursts numToEmit r H. now apply applyBursts_fixed.
  - intros currentTime currentTime' b. apply due_fire.
  - intros frameState.
    now destruct (scenario_update false burstSystem frameState
                    burstSystem_scenario) as [-> _].
  - intros s frameState Hs.
    exact (scenario_update false s frameState Hs).
  - intros frames.
    destruct (scenario_run frames false burstSystem
                burstSystem_scenario) as (s' & fired & Hrun & Hs & _ & Htot).
    now exists s', fired.
Qed.


(** ** The invariants *)

(** A new system satisfies the invariants. *)
Lemma constructed_invariants (CircleEmitter : Q -> ParticleEmitter)
    (options : Options.t) (rnd : Random) :
  let s := ParticleSystem CircleEmitter options rnd in
  pool_ok s /\ carry_ok s /\ particles_alive s /\ billboards_distinct s /\
  (0 <= _lifetime s -> within_lifetime s).
Proof.
  cbn zeta. conjs.
  - now left.
  - unfold carry_ok. simpl. lra.
  - constructor.
  - split; constructor.
  - intros H _ _. exact H.
Qed.

(** Every update of a shown system leaves a looping system with a finite
    positive lifetime within its lifetime. *)
Lemma step_within_lifetime (s : System) (frameState : FrameState) :
  0 < _lifetime s -> within_lifetime (step Math_sqrt s frameState).
Proof.
  intros Hpos Hloop Hfin.
  destruct (step_ticked s frameState) as (E & L1 & L2 & L3 & _).
  remember (ticked Math_sqrt (prepare s) frameState) as t eqn:Et.
  destruct (checkLifetime_frame t) as (C1 & _).
  apply settings_fields in C1 as (_ & C1 & C2 & _).
  rewrite E in Hloop, Hfin |- *. rewrite C2 in Hfin |- *. rewrite C1 in Hloop.
  destruct (Qlt_le_dec (_lifetime t) (_currentTime t)) as [Hgt|Hle].
  - rewrite checkLifetime_wraps by assumption.
    change (CesiumMath.mod_ (_currentTime t) (_lifetime t) <= _lifetime t).
    destruct (mod_wrap (_currentTime t) (_lifetime t)) as (_ & _ & M);
      [rewrite L2 in Hgt; lra | now rewrite L2 | lra].
  - rewrite checkLifetime_within by (now right). exact Hle.
Qed.

(** Every update keeps the invariants of a system whose callback and particle
    lives keep the particles within their life. *)
Lemma update_invariants (s : System) (frameState : FrameState) :
  pool_ok s -> carry_ok s -> particles_alive s -> 0 < _lifetime s ->
  within_lifetime s ->
  keeps_alive (updateCallback s) -> lives_ok s ->
  exists s',
    update Math_sqrt s frameState = Some s' /\
    pool_ok s' /\ carry_ok s' /\ particles_alive s' /\ within_lifetime s' /\
    lives_ok s' /\ settings s' = settings s.
Proof.
  intros Hpool Hcarry Halive Hpos Hwithin Hkeep Hlives.
  destruct (show s) eqn:Hshow.
  - rewrite update_step by assumption. eexists. split; [reflexivity|].
    destruct (step_alive s frameState Hkeep Hlives Halive) as [A1 A2].
    conjs; auto.
    + right. now apply step_covers.
    + now apply step_carry.
    + now apply step_within_lifetime.
    + destruct (step_ticked s frameState) as (E & _).
      destruct (checkLifetime_frame (ticked Math_sqrt (prepare s) frameState))
        as (C1 & _).
      destruct (ticked_frame (prepare s) frameState) as (T1 & _).
      destruct (prepare_frame s) as (P1 & _).
      rewrite E. congruence.
  - rewrite update_not_shown by assumption. eexists. split; [reflexivity|].
    now conjs.
Qed.

End Properties.

(** * Concrete runs *)

(** C8 at a system that has run for two frames and is then hidden. *)
Lemma update_hidden_noop_witness :
  show hiddenSystem = false /\
  update exact_sqrt hiddenSystem (frame 2 120) = Some hiddenSystem /\
  forall frames, run exact_sqrt hiddenSystem frames = Some hiddenSystem.
Proof.
  split; [vm_compute; reflexivity|].
  apply (update_hidden_noop exact_sqrt hiddenSystem (frame 2 120)).
  vm_compute. reflexivity.
Defined.

(** C2 as stated fails: at one particle per second, two frames of half a
    second each bring the carry-over to exactly 1. *)
Lemma carryOver_reaches_one :
  exists s',
    run exact_sqrt slowSystem [frame 0 1; frame (1 # 2) 2; frame 1 3] = Some s'
    /\ ~ _carryOver s' < 1.
Proof.
  eexists. split; [vm_compute; reflexivity|].
  vm_compute. discriminate.
Qed.

Lemma carryOver_stays_in_range_witness :
  (~ _lifetime slowSystem == 0 /\ pool_ok slowSystem /\ carry_ok slowSystem) /\
  exists s',
    run exact_sqrt slowSystem [frame 0 1; frame (1 # 2) 2; frame 1 3] = Some s'
    /\ carry_ok s'.
Proof.
  assert (H1 : ~ _lifetime slowSystem == 0) by (vm_compute; discriminate).
  assert (H2 : pool_ok slowSystem) by (left; reflexivity).
  assert (H3 : carry_ok slowSystem) by (split; vm_compute; discriminate).
  split; [auto|].
  apply (carryOver_stays_in_range exact_sqrt
           [frame 0 1; frame (1 # 2) 2; frame 1 3] slowSystem H1 H2 H3).
Defined.


(** The example of the looping system: after a nominal 12 seconds the elapsed
    time is 2 seconds, the burst that had fired is ready again, and the
    system is not complete. *)
Example looping_example :
  option_map (fun s => (Qred (_currentTime s), _bursts s, _isComplete s))
    (update exact_sqrt loopingSystem (frame 12 3))
  = Some (2, Some [newBurst 1 2 2], false).
Proof. vm_compute. reflexivity. Qed.

(** C1: the completion event is raised again by every update that follows
    the completion.  A system with a lifetime of 5 seconds that does not loop
    completes in the update at 6 seconds; after the updates at 7 and 8
    seconds the event has been raised three times. *)
Theorem completion_raised_on_every_update :
  option_map (fun s => (_isComplete s, raised (_complete s)))
    (run exact_sqrt finiteSystem [frame 0 1; frame 6 2])
  = Some (true, 1%nat) /\
  option_map (fun s => (_isComplete s, raised (_complete s)))
    (run exact_sqrt finiteSystem [frame 0 1; frame 6 2; frame 7 3; frame 8 4])
  = Some (true, 3%nat).
Proof. split; vm_compute; reflexivity. Qed.


(** C3: the periodic shrink releases nothing where the pool exceeds the
    estimate.  After the emission rate is set to 0 the estimate is 0 and the
    pool holds 25 particles that nothing needs; the update of frame 120
    leaves all 25 in the pool and their 25 billboards in the collection. *)
Theorem periodic_shrink_releases_nothing :
  option_map
    (fun s => (_particleEstimate s, length (_particles s),
               length (_particlePool s),
               BillboardCollection.length (collection s), poolExcess s))
    (update exact_sqrt oversizedSystem (frame 0 120))
  = Some (0%Z, 0%nat, 25%nat, 25%nat, 25%Z).
Proof. vm_compute. reflexivity. Qed.

(** C9 at a matrix that scales by 3: the particle moves at the 2 m/s that
    were asked for. *)
Lemma emitted_velocity_witness :
  exists p,
    last (_particles (emitOne exact_sqrt (originEmitter 0) scaleBy3 fastSystem))
    = Some p /\
    Particle.velocity p
    = Cartesian3.multiplyByScalar
        (normalize exact_sqrt
           (Cartesian3.subtract
              (Matrix4.multiplyByPoint scaleBy3
                 (Cartesian3.add Cartesian3.ZERO Cartesian3.UNIT_Z))
              (Matrix4.multiplyByPoint scaleBy3 Cartesian3.ZERO)))
        ((1 # 2) * (2 - 2) + 2) /\
    Particle.position p = Matrix4.multiplyByPoint scaleBy3 Cartesian3.ZERO /\
    Cartesian3.magnitudeSquared (Particle.velocity p)
    == ((1 # 2) * (2 - 2) + 2) * ((1 # 2) * (2 - 2) + 2).
Proof.
  apply (emitted_velocity exact_sqrt (originEmitter 0) scaleBy3 fastSystem).
  - vm_compute. reflexivity.
  - vm_compute. reflexivity.
Defined.

(** C9 as stated fails: the speed is not chosen before the rotation.  The
    velocity that enters the rotation is the unit vector of the emitter, the
    particle leaves it at 2 m/s, and choosing the speed first would leave the
    particle at 1 m/s, since the normalization undoes the scaling. *)
Lemma speed_not_chosen_before_rotation :
  exists p,
    last (_particles (emitOne exact_sqrt (originEmitter 0) scaleBy3 fastSystem))
    = Some p /\
    Cartesian3.equiv (Particle.velocity p)
      (velocity_speed_last exact_sqrt scaleBy3 Cartesian3.ZERO
         Cartesian3.UNIT_Z 2) /\
    ~ Cartesian3.equiv (Particle.velocity p)
        (velocity_speed_first exact_sqrt scaleBy3 Cartesian3.ZERO
           Cartesian3.UNIT_Z 2) /\
    Cartesian3.magnitudeSquared (Particle.velocity p) == 4 /\
    Cartesian3.magnitudeSquared
      (velocity_speed_first exact_sqrt scaleBy3 Cartesian3.ZERO
         Cartesian3.UNIT_Z 2) == 1.
Proof.
  eexists. split; [vm_compute; reflexivity|].
  split; [now vm_compute|].
  split; [|now vm_compute].
  vm_compute. intros (_ & _ & H). discriminate.
Qed.

(** C4 at the scenario, one second after its first two updates: the burst
    fires in the third update. *)
Lemma burst_emission_witness :
  scenario false (after burstSystem [frame 0 1; frame 1 2]) /\
  emitted (after burstSystem [frame 0 1; frame 1 2]) (frame 2 3)
  = (if Qgtb (_currentTime (after burstSystem [frame 0 1; frame 1 2])) 0
     then 3 else 0)%nat /\
  exists s',
    update exact_sqrt (after burstSystem [frame 0 1; frame 1 2]) (frame 2 3)
    = Some s' /\
    scenario (Qgtb (_currentTime (after burstSystem [frame 0 1; frame 1 2])) 0)
      s'.
Proof.
  assert (H : scenario false (after burstSystem [frame 0 1; frame 1 2])).
  { unfold scenario. conjs; try (vm_compute; reflexivity).
    - eexists. vm_compute. reflexivity.
    - right. vm_compute. discriminate. }
  split; [exact H|].
  destruct (burst_emission exact_sqrt) as (_ & _ & _ & Hstep & _).
  exact (Hstep (after burstSystem [frame 0 1; frame 1 2]) (frame 2 3) H).
Defined.

(** C4 as stated fails: the first update of the scenario emits nothing, and
    neither does the second, which starts with no elapsed time either; the 3
    particles come with the third update. *)
Lemma burst_not_at_first_tick :
  emitted burstSystem (frame 0 1) = 0%nat /\
  option_map (fun s => length (_particles s))
    (run exact_sqrt burstSystem [frame 0 1]) = Some 0%nat /\
  option_map (fun s => length (_particles s))
    (run exact_sqrt burstSystem [frame 0 1; frame 1 2]) = Some 0%nat /\
  option_map (fun s => length (_particles s))
    (run exact_sqrt burstSystem [frame 0 1; frame 1 2; frame 2 3])
  = Some 3%nat.
Proof. conjs; vm_compute; reflexivity. Qed.



(** * Further properties *)

Section Interface.

Variable Math_sqrt : Q -> Q.

(** What an assignment leaves alone: the particles, the clock, the state of
    the scheduler but for the bursts, and the estimate; a request to size the
    pool is never withdrawn. *)
Lemma assignment_frame (c : Call) (s s' : System) :
  is_update c = false -> perform Math_sqrt c s = Some s' ->
  population s' = population s /\ clock s' = clock s /\
  _carryOver s' = _carryOver s /\ _isComplete s' = _isComplete s /\
  _complete s' = _complete s /\ _particleEstimate s' = _particleEstimate s /\
  _random s' = _random s /\
  (_updateParticlePool s = true -> _updateParticlePool s' = true).
Proof.
  intros Hc H.
  destruct c; try discriminate Hc; simpl in H;
    unfold greaterThanOrEquals, set_emitter, set_minimumImageSize,
      set_maximumImageSize in H;
    repeat case_match; simplify_eq; now conjs.
Qed.

Lemma assignment_pool_ok (c : Call) (s s' : System) :
  is_update c = false -> perform Math_sqrt c s = Some s' ->
  pool_ok s -> pool_ok s'.
Proof.
  intros Hc H Hok.
  destruct (assignment_frame c s s' Hc H) as (P & _ & _ & _ & _ & E & _ & F).
  unfold population in P.
  destruct Hok as [Hok|Hok]; [left; auto|right].
  rewrite E. now replace (_particles s') with (_particles s) by congruence;
    replace (_particlePool s') with (_particlePool s) by congruence.
Qed.

Lemma perform_pool_ok (c : Call) (s s' : System) :
  perform Math_sqrt c s = Some s' -> pool_ok s -> pool_ok s'.
Proof.
  intros H Hok. destruct (is_update c) eqn:Hc.
  - destruct c; try discriminate Hc. simpl in H.
    destruct (update_pool_ok Math_sqrt s frameState Hok) as (s1 & E & Hok').
    congruence.
  - eauto using assignment_pool_ok.
Qed.

Lemma performAll_pool_ok (calls : list Call) :
  forall s s' : System,
    performAll Math_sqrt calls s = Some s' -> pool_ok s -> pool_ok s'.
Proof.
  induction calls as [|c calls IH]; intros s s' H Hok; simpl in H.
  - congruence.
  - destruct (perform Math_sqrt c s) as [s1|] eqn:E; [|discriminate].
    eauto using perform_pool_ok.
Qed.

Lemma prepare_pool (s : System) :
  exists fresh, _particlePool (prepare s) = _particlePool s ++ fresh.
Proof.
  unfold prepare.
  set (s1 := match _billboardCollection s with
             | Some _ => s
             | None => set__billboardCollection (Some BillboardCollection.new) s
             end).
  assert (E : _particlePool s1 = _particlePool s)
    by (subst s1; now destruct (_billboardCollection s)).
  destruct (_updateParticlePool s1).
  - unfold updateParticlePool.
    destruct (allocate_spec
                (Z.to_nat
                   (Z.max (Qceiling (_emissionRate s1 * _maximumParticleLife s1
                                     + burstAmount (_bursts s1))
                           - Z.of_nat (length (_particles s1))
                           - Z.of_nat (length (_particlePool s1))) 0))
                (image s1) (_particlePool s1) (collection s1))
      as (fresh & c' & A & _).
    rewrite A. simpl. exists fresh. now rewrite E.
  - exists []. now rewrite app_nil_r.
Qed.

Lemma step_atHand (s : System) (frameState : FrameState) :
  (atHand s <= atHand (step Math_sqrt s frameState))%nat.
Proof.
  unfold step, advance, atHand.
  destruct (checkLifetime_frame (ticked Math_sqrt (prepare s) frameState))
    as (_ & _ & C & _).
  unfold population in C.
  replace (_particles (checkLifetime (ticked Math_sqrt (prepare s) frameState)))
    with (_particles (ticked Math_sqrt (prepare s) frameState)) by congruence.
  replace (_particlePool
             (checkLifetime (ticked Math_sqrt (prepare s) frameState)))
    with (_particlePool (ticked Math_sqrt (prepare s) frameState))
    by congruence.
  destruct (ticked_frame Math_sqrt (prepare s) frameState)
    as (_ & _ & _ & _ & _ & _ & _ & _ & T & _).
  destruct (prepare_frame s) as (_ & _ & _ & _ & P & _).
  destruct (prepare_pool s) as (fresh & F).
  rewrite P, F, length_app in T. lia.
Qed.

Lemma update_atHand (s s' : System) (frameState : FrameState) :
  pool_ok s -> update Math_sqrt s frameState = Some s' ->
  (atHand s <= atHand s')%nat.
Proof.
  intros Hok H. destruct (show s) eqn:Hshow.
  - rewrite update_step in H by assumption. inversion H. apply step_atHand.
  - rewrite update_not_shown in H by assumption. now inversion H.
Qed.

Variable CircleEmitter : Q -> ParticleEmitter.


End Interface.


(** ** The combined matrix *)

Lemma Matrix4_equiv_refl (m : Matrix4) : Matrix4.equiv m m.
Proof. unfold Matrix4.equiv. conjs; reflexivity. Qed.

Lemma Matrix4_equiv_trans (l m r : Matrix4) :
  Matrix4.equiv l m -> Matrix4.equiv m r -> Matrix4.equiv l r.
Proof.
  unfold Matrix4.equiv.
  intros (A0 & A1 & A2 & A3 & A4 & A5 & A6 & A7 & A8 & A9 & A10 & A11 & A12
          & A13 & A14 & A15)
         (B0 & B1 & B2 & B3 & B4 & B5 & B6 & B7 & B8 & B9 & B10 & B11 & B12
          & B13 & B14 & B15).
  conjs; etransitivity; eassumption.
Qed.

Lemma Matrix4_equals_equiv (l r : Matrix4) :
  Matrix4.equals l r = true <-> Matrix4.equiv l r.
Proof.
  unfold Matrix4.equals, Matrix4.equiv.
  rewrite !andb_true_iff, !Qeq_bool_iff. tauto.
Qed.

Lemma Matrix4_multiply_equiv (l l' r r' : Matrix4) :
  Matrix4.equiv l l' -> Matrix4.equiv r r' ->
  Matrix4.equiv (Matrix4.multiply l r) (Matrix4.multiply l' r').
Proof.
  unfold Matrix4.equiv.
  intros (A0 & A1 & A2 & A3 & A4 & A5 & A6 & A7 & A8 & A9 & A10 & A11 & A12
          & A13 & A14 & A15)
         (B0 & B1 & B2 & B3 & B4 & B5 & B6 & B7 & B8 & B9 & B10 & B11 & B12
          & B13 & B14 & B15).
  simpl. conjs; repeat apply Qplus_comp; apply Qmult_comp; assumption.
Qed.

Section CombinedMatrix.

Variable Math_sqrt : Q -> Q.

Lemma orientation_coherent (s s' : System) :
  orientation s' = orientation s -> matrix_coherent s -> matrix_coherent s'.
Proof.
  unfold orientation, matrix_coherent. intros E H.
  injection E as E1 E2 E3 E4. now rewrite E1, E2, E3, E4.
Qed.

Lemma frames_orientation (s s' : System) :
  settings s' = settings s -> matrices s' = matrices s ->
  orientation s' = orientation s.
Proof.
  unfold settings, matrices, orientation. intros E1 E2. congruence.
Qed.

Lemma emitParticles_refresh (numToEmit : Q) (s : System) (e : ParticleEmitter) :
  _emitter s = Some e -> Qgtb numToEmit 0 = true ->
  emitParticles Math_sqrt numToEmit s
  = emitLoop Math_sqrt (Z.to_nat (Qceiling numToEmit)) e
      (_combinedMatrix (refreshMatrix s)) (refreshMatrix s).
Proof.
  intros He Hn. unfold emitParticles, refreshMatrix. now rewrite He, Hn.
Qed.

Lemma refreshMatrix_coherent (s : System) :
  matrix_coherent s ->
  _matrixDirty (refreshMatrix s) = false /\
  Matrix4.equiv (_combinedMatrix (refreshMatrix s))
    (Matrix4.multiply (_modelMatrix s) (_emitterModelMatrix s)) /\
  settings (refreshMatrix s) = settings s.
Proof.
  intros H. unfold refreshMatrix. destruct (_matrixDirty s) eqn:D; simpl.
  - conjs; [reflexivity | apply Matrix4_equiv_refl | reflexivity].
  - conjs; [assumption | now apply H | reflexivity].
Qed.

Lemma emitParticles_coherent (numToEmit : Q) (s : System) :
  matrix_coherent s -> matrix_coherent (emitParticles Math_sqrt numToEmit s).
Proof.
  intros H. destruct (_emitter s) as [e|] eqn:He.
  - destruct (Qgtb numToEmit 0) eqn:Hn.
    + rewrite (emitParticles_refresh numToEmit s e He Hn).
      destruct (refreshMatrix_coherent s H) as (D & C & S).
      destruct (emitLoop_frame Math_sqrt (Z.to_nat (Qceiling numToEmit)) e
                  (_combinedMatrix (refreshMatrix s)) (refreshMatrix s))
        as (L1 & _ & _ & _ & L2 & _).
      apply (orientation_coherent (refreshMatrix s));
        [now apply frames_orientation|].
      intros _. unfold settings in S. injection S as _ _ _ _ _ S1 S2.
      remember (refreshMatrix s) as t.
      assert (E1 : _modelMatrix t = _modelMatrix s) by congruence.
      assert (E2 : _emitterModelMatrix t = _emitterModelMatrix s)
        by congruence.
      now rewrite E1, E2.
    + unfold emitParticles. now rewrite He, Hn.
  - unfold emitParticles. now rewrite He.
Qed.

Lemma emit_coherent (dt : Q) (s : System) :
  matrix_coherent s -> matrix_coherent (emit Math_sqrt dt s).
Proof.
  intros H. unfold emit.
  destruct (calculateNumberToEmit_frame s dt) as (C1 & _ & _ & C2 & _).
  destruct (calculateNumberToEmit s dt) as [numToEmit s1]. simpl in C1, C2.
  apply emitParticles_coherent.
  apply (orientation_coherent s); [now apply frames_orientation|assumption].
Qed.

Lemma tick_orientation (dt : Q) (frameState : FrameState) (s : System) :
  orientation (tick dt frameState s) = orientation s.
Proof. reflexivity. Qed.

Lemma checkLifetime_orientation (s : System) :
  orientation (checkLifetime s) = orientation s.
Proof.
  unfold checkLifetime.
  destruct (negb _ && _); [|reflexivity]. now destruct (loop s).
Qed.

Lemma freeParticlePool_orientation (s s' : System) :
  freeParticlePool s = Some s' -> orientation s' = orientation s.
Proof.
  unfold freeParticlePool. intros H.
  destruct (_ <? 0)%Z; [discriminate|]. now inversion H.
Qed.

Lemma step_coherent (s : System) (frameState : FrameState) :
  matrix_coherent s -> matrix_coherent (step Math_sqrt s frameState).
Proof.
  intros H. unfold step, advance, ticked.
  apply (orientation_coherent _ _ (checkLifetime_orientation _)).
  apply (orientation_coherent _ _ (tick_orientation _ _ _)).
  apply emit_coherent.
  destruct (simulate_frame (frameTime (prepare s) frameState) (prepare s))
    as (S1 & _ & _ & _ & S2 & _).
  apply (orientation_coherent _ _ (frames_orientation _ _ S1 S2)).
  destruct (prepare_frame s) as (P1 & _ & _ & P2 & _).
  now apply (orientation_coherent _ _ (frames_orientation _ _ P1 P2)).
Qed.

Lemma update_coherent (s s' : System) (frameState : FrameState) :
  update Math_sqrt s frameState = Some s' ->
  matrix_coherent s -> matrix_coherent s'.
Proof.
  unfold update. intros H Hc.
  destruct (negb (show s)); [now injection H as <-|].
  destruct (Z.rem _ _ =? 0)%Z.
  - apply (orientation_coherent _ _ (freeParticlePool_orientation _ _ H)).
    now apply step_coherent.
  - injection H as <-. now apply step_coherent.
Qed.

Lemma set_modelMatrix_coherent (value : Matrix4) (s : System) :
  matrix_coherent s -> matrix_coherent (set_modelMatrix value s).
Proof.
  unfold matrix_coherent, set_modelMatrix. simpl. intros H D.
  apply orb_false_iff in D as [D1 D2]. apply negb_false_iff in D2.
  apply Matrix4_equals_equiv in D2.
  eapply Matrix4_equiv_trans; [now apply H|].
  apply Matrix4_multiply_equiv; [assumption | apply Matrix4_equiv_refl].
Qed.

Lemma set_emitterModelMatrix_coherent (value : Matrix4) (s : System) :
  matrix_coherent s -> matrix_coherent (set_emitterModelMatrix value s).
Proof.
  unfold matrix_coherent, set_emitterModelMatrix. simpl. intros H D.
  apply orb_false_iff in D as [D1 D2]. apply negb_false_iff in D2.
  apply Matrix4_equals_equiv in D2.
  eapply Matrix4_equiv_trans; [now apply H|].
  apply Matrix4_multiply_equiv; [apply Matrix4_equiv_refl | assumption].
Qed.

Lemma perform_coherent (c : Call) (s s' : System) :
  perform Math_sqrt c s = Some s' -> matrix_coherent s -> matrix_coherent s'.
Proof.
  intros H Hc.
  destruct c; simpl in H;
    try (unfold greaterThanOrEquals, set_emitter, set_minimumImageSize,
           set_maximumImageSize in H;
         repeat case_match; simplify_eq; exact Hc).
  - injection H as <-. now apply set_modelMatrix_coherent.
  - injection H as <-. now apply set_emitterModelMatrix_coherent.
  - eauto using update_coherent.
Qed.

Lemma performAll_coherent (calls : list Call) :
  forall s s' : System,
    performAll Math_sqrt calls s = Some s' ->
    matrix_coherent s -> matrix_coherent s'.
Proof.
  induction calls as [|c calls IH]; intros s s' H Hc; simpl in H.
  - now injection H as <-.
  - destruct (perform Math_sqrt c s) as [s1|] eqn:E; [|discriminate].
    eauto using perform_coherent.
Qed.

Variable CircleEmitter : Q -> ParticleEmitter.

(** X2: The combined matrix is never stale.  In every state that a new system
    reaches through its interface, the emission block of update hands to the
    emission loop the product of the model matrix and the emitter matrix as
    they are then, whether it has just computed it or kept the one it had. *)
Theorem combined_matrix_never_stale (calls : list Call) (options : Options.t)
    (rnd : Random) (s : System) :
  performAll Math_sqrt calls (ParticleSystem CircleEmitter options rnd)
  = Some s ->
  (forall numToEmit e,
      _emitter s = Some e -> Qgtb numToEmit 0 = true ->
      emitParticles Math_sqrt numToEmit s
      = emitLoop Math_sqrt (Z.to_nat (Qceiling numToEmit)) e
          (_combinedMatrix (refreshMatrix s)) (refreshMatrix s)) /\
  Matrix4.equiv (_combinedMatrix (refreshMatrix s))
    (Matrix4.multiply (_modelMatrix s) (_emitterModelMatrix s)) /\
  (_matrixDirty s = false -> refreshMatrix s = s).
Proof.
  intros H.
  assert (Hc : matrix_coherent s).
  { eapply performAll_coherent; [exact H|]. discriminate. }
  conjs.
  - intros numToEmit e. apply emitParticles_refresh.
  - now apply refreshMatrix_coherent.
  - intros D. unfold refreshMatrix. now rewrite D.
Qed.

End CombinedMatrix.

(** A system that has emitted a particle, whose model matrix is then assigned
    a matrix equal to the one in place, and then another. *)
Lemma combined_matrix_never_stale_witness :
  performAll exact_sqrt
    [call_update (frame 0 1); call_update (frame 1 2);
     assign_modelMatrix Matrix4.IDENTITY; assign_emitterModelMatrix scaleBy3]
    (ParticleSystem originEmitter Options.EMPTY_OBJECT halves)
  = Some (set_emitterModelMatrix scaleBy3
            (set_modelMatrix Matrix4.IDENTITY
               (after (newSystem Options.EMPTY_OBJECT)
                  [frame 0 1; frame 1 2]))) /\
  Matrix4.equiv
    (_combinedMatrix
       (refreshMatrix
          (set_emitterModelMatrix scaleBy3
             (set_modelMatrix Matrix4.IDENTITY
                (after (newSystem Options.EMPTY_OBJECT)
                   [frame 0 1; frame 1 2])))))
    scaleBy3.
Proof.
  assert (H : performAll exact_sqrt
    [call_update (frame 0 1); call_update (frame 1 2);
     assign_modelMatrix Matrix4.IDENTITY; assign_emitterModelMatrix scaleBy3]
    (ParticleSystem originEmitter Options.EMPTY_OBJECT halves)
  = Some (set_emitterModelMatrix scaleBy3
            (set_modelMatrix Matrix4.IDENTITY
               (after (newSystem Options.EMPTY_OBJECT)
                  [frame 0 1; frame 1 2])))) by (vm_compute; reflexivity).
  split; [exact H|].
  destruct (combined_matrix_never_stale exact_sqrt originEmitter _ _ _ _ H)
    as (_ & E & _).
  eapply Matrix4_equiv_trans; [exact E|].
  vm_compute. conjs; reflexivity.
Defined.

Section Checks.

Variable Math_sqrt : Q -> Q.

Lemma freeParticlePool_settings (s s' : System) :
  freeParticlePool s = Some s' -> settings s' = settings s.
Proof.
  unfold freeParticlePool. intros H.
  destruct (_ <? 0)%Z; [discriminate|]. now injection H as <-.
Qed.

Lemma step_settings (s : System) (frameState : FrameState) :
  settings (step Math_sqrt s frameState) = settings s.
Proof.
  unfold step, advance.
  destruct (checkLifetime_frame (ticked Math_sqrt (prepare s) frameState))
    as (C & _).
  destruct (ticked_frame Math_sqrt (prepare s) frameState) as (T & _).
  destruct (prepare_frame s) as (P & _).
  congruence.
Qed.

(** update does not touch the configuration. *)
Lemma update_settings (s s' : System) (frameState : FrameState) :
  update Math_sqrt s frameState = Some s' -> settings s' = settings s.
Proof.
  unfold update. intros H.
  destruct (negb (show s)); [now injection H as <-|].
  destruct (Z.rem _ _ =? 0)%Z.
  - rewrite (freeParticlePool_settings _ _ H). apply step_settings.
  - injection H as <-. apply step_settings.
Qed.

Lemma settings_checkedNumbers (s s' : System) :
  settings s' = settings s -> checkedNumbers s' = checkedNumbers s.
Proof.
  unfold settings, checkedNumbers. intros E.
  injection E as E1 E2 E3 E4 E5 E6 E7 E8 E9 E10 E11 E12 E13 E14 E15 E16 E17
    E18 E19 E20 E21 E22.
  congruence.
Qed.

Lemma greaterThanOrEquals_Some (value : Q) (s s' : System) :
  greaterThanOrEquals value 0 s = Some s' -> 0 <= value /\ s' = s.
Proof.
  unfold greaterThanOrEquals. destruct (Qltb value 0) eqn:E; [discriminate|].
  apply Qltb_false in E. intros H. now injection H as <-.
Qed.

Lemma perform_checked (c : Call) (s s' : System) :
  perform Math_sqrt c s = Some s' ->
  Forall (fun v => 0 <= v) (checkedNumbers s) ->
  Forall (fun v => 0 <= v) (checkedNumbers s').
Proof.
  intros H Hv.
  destruct c; simpl in H;
    try (injection H as <-; exact Hv);
    try (apply greaterThanOrEquals_Some in H as [Hn ->];
         unfold checkedNumbers in *; simpl;
         repeat match goal with
                | H : Forall _ (_ :: _) |- _ =>
                    apply Forall_cons in H as [? H]
                end;
         repeat constructor; assumption).
  - unfold set_emitter in H. destruct value; [|discriminate].
    injection H as <-. exact Hv.
  - unfold set_minimumImageSize in H.
    destruct (Qltb (Cartesian2.x value) 0) eqn:Ex; [discriminate|].
    destruct (Qltb (Cartesian2.y value) 0) eqn:Ey; [discriminate|].
    apply Qltb_false in Ex, Ey. injection H as <-.
    unfold checkedNumbers in *; simpl.
    repeat match goal with
           | H : Forall _ (_ :: _) |- _ => apply Forall_cons in H as [? H]
           end.
    repeat constructor; assumption.
  - unfold set_maximumImageSize in H.
    destruct (Qltb (Cartesian2.x value) 0) eqn:Ex; [discriminate|].
    destruct (Qltb (Cartesian2.y value) 0) eqn:Ey; [discriminate|].
    apply Qltb_false in Ex, Ey. injection H as <-.
    unfold checkedNumbers in *; simpl.
    repeat match goal with
           | H : Forall _ (_ :: _) |- _ => apply Forall_cons in H as [? H]
           end.
    repeat constructor; assumption.
  - now rewrite (settings_checkedNumbers _ _ (update_settings _ _ _ H)).
Qed.

Lemma performAll_checked (calls : list Call) :
  forall s s' : System,
    performAll Math_sqrt calls s = Some s' ->
    Forall (fun v => 0 <= v) (checkedNumbers s) ->
    Forall (fun v => 0 <= v) (checkedNumbers s').
Proof.
  induction calls as [|c calls IH]; intros s s' H Hv; simpl in H.
  - now injection H as <-.
  - destruct (perform Math_sqrt c s) as [s1|] eqn:E; [|discriminate].
    eauto using perform_checked.
Qed.

Variable CircleEmitter : Q -> ParticleEmitter.

Lemma constructed_checked (options : Options.t) (rnd : Random) :
  Forall (from_option (fun v => 0 <= v) True) (optionNumbers options) ->
  Forall (fun v => 0 <= v)
    (checkedNumbers (ParticleSystem CircleEmitter options rnd)).
Proof.
  unfold optionNumbers, checkedNumbers. intros H.
  repeat match goal with
         | H : Forall _ (_ :: _) |- _ => apply Forall_cons in H as [? H]
         end.
  assert (M : 0 <= MAX_VALUE) by (vm_compute; discriminate).
  destruct options; simpl in *. unfold nullish2.
  repeat constructor;
    repeat match goal with
           | |- context [match ?o with Some _ => _ | None => _ end] =>
               destruct o; simpl in *
           | |- context [default _ ?o] => destruct o; simpl in *
           end;
    try assumption; try lra.
Qed.

(** X3: The checks of the setters keep the numbers of the configuration from
    becoming negative.  When none of the numbers given to the constructor,
    which checks nothing, is negative, none of the checked numbers is negative
    in any state that the system reaches through its interface; and in every
    state the assignment of a negative number throws. *)
Theorem checked_numbers_never_negative (calls : list Call)
    (options : Options.t) (rnd : Random) (s : System) :
  Forall (from_option (fun v => 0 <= v) True) (optionNumbers options) ->
  performAll Math_sqrt calls (ParticleSystem CircleEmitter options rnd)
  = Some s ->
  Forall (fun v => 0 <= v) (checkedNumbers s) /\
  (forall v, v < 0 ->
             Forall (fun set => perform Math_sqrt (set v) s = None)
               numberSetters) /\
  (forall value,
      Cartesian2.x value < 0 \/ Cartesian2.y value < 0 ->
      perform Math_sqrt (assign_minimumImageSize value) s = None /\
      perform Math_sqrt (assign_maximumImageSize value) s = None).
Proof.
  intros Ho H. conjs.
  - eapply performAll_checked; [exact H|]. now apply constructed_checked.
  - intros v Hv. apply Qltb_true in Hv.
    repeat constructor; simpl; unfold greaterThanOrEquals; now rewrite Hv.
  - intros value Hv. simpl.
    unfold set_minimumImageSize, set_maximumImageSize.
    destruct Hv as [Hv|Hv]; apply Qltb_true in Hv; rewrite Hv;
      [|rewrite orb_true_r]; now split.
Qed.

End Checks.

(** A system built with an emission rate and a lifetime, whose speed bounds
    are then assigned and which is updated. *)
Lemma checked_numbers_never_negative_witness :
  Forall (fun v => 0 <= v)
    (checkedNumbers
       (after (set__maximumSpeed 3 (set__minimumSpeed 2 finiteSystem))
          [frame 0 1; frame 1 2])).
Proof.
  refine (proj1 (checked_numbers_never_negative exact_sqrt originEmitter
            [assign_minimumSpeed 2; assign_maximumSpeed 3;
             call_update (frame 0 1); call_update (frame 1 2)]
            (withOptions (Some 0) None (Some false) (Some 5) None None)
            halves _ _ _)).
  - vm_compute. repeat constructor; discriminate.
  - vm_compute. reflexivity.
Defined.

(** ** The particle loop, again *)

Lemma is_Some_get_modify (f : Billboard -> Billboard) (h k : nat)
    (c : BillboardCollection) :
  is_Some (BillboardCollection.get k (BillboardCollection.modify f h c))
  <-> is_Some (BillboardCollection.get k c).
Proof.
  destruct (decide (h = k)) as [->|Hne].
  - rewrite get_modify_eq. apply fmap_is_Some.
  - now rewrite get_modify_ne.
Qed.

Lemma survivors_all dt callback (l : list Particle) :
  casualties dt callback l = [] ->
  survivors dt callback l = map (fun p => snd (Particle.update dt callback p)) l.
Proof.
  induction l as [|p l IH]; [reflexivity|].
  rewrite casualties_cons, survivors_cons. simpl.
  destruct (fst (Particle.update dt callback p)); [|discriminate].
  simpl. intros H. now rewrite IH.
Qed.

(** The pass over particles that each have a billboard, as far as the
    particles go: those that live on are appended to the live array, in their
    order when no particle dies, and the others to the pool; no billboard is
    added to the collection or removed from it. *)
Lemma sweep_view dt callback sim (n : nat) :
  keeps_billboard callback ->
  forall (todo done pool : list Particle) (c : BillboardCollection),
    length todo = n ->
    Forall (fun p => is_Some (Particle._billboard p)) todo ->
    exists kept dead c',
      sweep dt callback sim n todo done pool c
      = (done ++ kept, pool ++ dead, c') /\
      kept ≡ₚ survivors dt callback todo /\
      dead ≡ₚ casualties dt callback todo /\
      (casualties dt callback todo = [] ->
       kept = survivors dt callback todo) /\
      BillboardCollection.nextHandle c' = BillboardCollection.nextHandle c /\
      (forall h, is_Some (BillboardCollection.get h c')
                 <-> is_Some (BillboardCollection.get h c)).
Proof.
  intros Hk. induction n as [|n IH]; intros todo done pool c Hlen Hall.
  - destruct todo; [|discriminate]. exists [], [], c. simpl.
    rewrite !app_nil_r. now conjs.
  - destruct todo as [|p rest]; [discriminate|]. simpl in Hlen.
    injection Hlen as Hlen.
    apply Forall_cons in Hall as [[h0 Hh0] Hall].
    pose proof (update_keeps_billboard dt callback p Hk) as Hb.
    cbn [sweep]. rewrite survivors_cons, casualties_cons.
    destruct (Particle.update dt callback p) as [alive p'] eqn:Hu.
    cbn [fst snd] in Hb |- *.
    destruct alive.
    + unfold updateBillboard. rewrite Hb, Hh0.
      rewrite (set__billboard_same p' (Some h0)) by congruence.
      destruct (IH rest (done ++ [p']) pool
                  (BillboardCollection.modify (pushToBillboard sim p') h0 c)
                  Hlen Hall)
        as (kept & dead & c' & E & I1 & I2 & I3 & I4 & I5).
      exists (p' :: kept), dead, c'. conjs.
      * rewrite E, <- app_assoc. reflexivity.
      * simpl. now rewrite I1.
      * exact I2.
      * simpl. intros H. now rewrite I3.
      * exact I4.
      * intros h. rewrite I5. apply is_Some_get_modify.
    + unfold removeBillboard. rewrite Hb, Hh0.
      assert (Hperm : lastToFront rest ≡ₚ rest) by apply lastToFront_perm.
      destruct (IH (lastToFront rest) done (pool ++ [p'])
                  (BillboardCollection.modify (Billboard.set_show false) h0 c))
        as (kept & dead & c' & E & I1 & I2 & I3 & I4 & I5).
      { now rewrite lastToFront_length. }
      { now rewrite Hperm. }
      exists kept, (p' :: dead), c'. conjs.
      * rewrite E, <- app_assoc. reflexivity.
      * simpl. now rewrite I1, (survivors_perm _ _ _ _ Hperm).
      * simpl. now rewrite I2, (casualties_perm _ _ _ _ Hperm).
      * discriminate.
      * exact I4.
      * intros h. rewrite I5. apply is_Some_get_modify.
Qed.

(** The pass never makes the live array longer. *)
Lemma sweep_done_bound dt callback sim (n : nat) :
  forall (todo done pool : list Particle) (c : BillboardCollection),
    length todo = n ->
    (length (fst (fst (sweep dt callback sim n todo done pool c)))
     <= length done + length todo)%nat.
Proof.
  induction n as [|n IH]; intros todo done pool c Hlen.
  - destruct todo; [|discriminate]. simpl. lia.
  - destruct todo as [|p rest]; [discriminate|]. simpl in Hlen.
    injection Hlen as Hlen. simpl.
    destruct (Particle.update dt callback p) as [alive p'].
    destruct alive.
    + destruct (updateBillboard sim p' c) as [p'' c'].
      specialize (IH rest (done ++ [p'']) pool c' Hlen).
      rewrite length_app in IH. simpl in IH. lia.
    + specialize (IH (lastToFront rest) done (pool ++ [p'])
                    (removeBillboard p' c)).
      rewrite lastToFront_length in IH. specialize (IH Hlen). lia.
Qed.

Lemma simulate_live_bound (dt : Q) (s : System) :
  (length (_particles (simulate dt s)) <= length (_particles s))%nat.
Proof.
  rewrite simulate_sweep.
  pose proof (sweep_done_bound dt (updateCallback s) (_sizeInMeters s)
                (length (_particles s)) (_particles s) [] (_particlePool s)
                (collection s) eq_refl) as H.
  destruct (sweep _ _ _ _ _ _ _ _) as [[particles pool] c]. simpl in *. lia.
Qed.

(** X4: The particle loop of update visits every live particle once.  When every
    live particle has a billboard, which the callback leaves alone, the live
    array becomes the particles that are alive after their update, in their
    order if none dies, and the others are appended to the pool. *)
Theorem particles_visited_once (dt : Q) (s : System) :
  keeps_billboard (updateCallback s) ->
  Forall (fun p => is_Some (Particle._billboard p)) (_particles s) ->
  exists dead,
    _particles (simulate dt s)
    ≡ₚ survivors dt (updateCallback s) (_particles s) /\
    _particlePool (simulate dt s) = _particlePool s ++ dead /\
    dead ≡ₚ casualties dt (updateCallback s) (_particles s) /\
    (casualties dt (updateCallback s) (_particles s) = [] ->
     _particles (simulate dt s)
     = map (fun p => snd (Particle.update dt (updateCallback s) p))
         (_particles s)).
Proof.
  intros Hk Hall. rewrite simulate_sweep.
  destruct (sweep_view dt (updateCallback s) (_sizeInMeters s)
              (length (_particles s)) Hk (_particles s) [] (_particlePool s)
              (collection s) eq_refl Hall)
    as (kept & dead & c' & E & I1 & I2 & I3 & _).
  rewrite E. simpl. exists dead. conjs; auto.
  intros H. rewrite (I3 H). now apply survivors_all.
Qed.

(** Six live particles, three of them 3 seconds old and with 5 seconds to
    live, 3 seconds later: the three older ones die. *)
Lemma particles_visited_once_witness :
  exists dead,
    _particles (simulate 3 completedSystem)
    ≡ₚ survivors 3 (updateCallback completedSystem)
         (_particles completedSystem) /\
    _particlePool (simulate 3 completedSystem)
    = _particlePool completedSystem ++ dead /\
    dead ≡ₚ casualties 3 (updateCallback completedSystem)
              (_particles completedSystem) /\
    (casualties 3 (updateCallback completedSystem)
       (_particles completedSystem) = [] ->
     _particles (simulate 3 completedSystem)
     = map (fun p => snd (Particle.update 3 (updateCallback completedSystem) p))
         (_particles completedSystem)).
Proof.
  apply (particles_visited_once 3 completedSystem).
  - vm_compute. exact I.
  - apply (bool_decide_unpack _). vm_compute. reflexivity.
Defined.

Section Completion.

Variable Math_sqrt : Q -> Q.

Lemma checkLifetime_finished (s : System) :
  _isComplete s = true -> finished s (checkLifetime s).
Proof.
  intros H. unfold checkLifetime, finished.
  destruct (negb _ && _); [|now conjs].
  destruct (loop s); simpl; conjs; auto.
Qed.

Lemma step_finished (s : System) (frameState : FrameState) :
  _isComplete s = true -> finished s (step Math_sqrt s frameState).
Proof.
  intros H. unfold step, advance, ticked.
  set (dt := frameTime (prepare s) frameState).
  destruct (prepare_frame s) as (_ & _ & P1 & _ & P2 & P3 & _).
  destruct (simulate_frame dt (prepare s)) as (_ & _ & S1 & _ & _ & S2).
  unfold schedule in P1, S1.
  assert (Hc : _isComplete (simulate dt (prepare s)) = true) by congruence.
  rewrite (emit_complete Math_sqrt _ dt Hc).
  set (t := tick dt frameState (simulate dt (prepare s))).
  assert (Ht : _isComplete t = true) by exact Hc.
  destruct (checkLifetime_finished t Ht) as (F1 & F2 & F3 & F4 & F5).
  pose proof (simulate_live_bound dt (prepare s)) as B.
  unfold finished. conjs.
  - exact F1.
  - change (_particles t) with (_particles (simulate dt (prepare s))) in F2.
    rewrite P2 in B. lia.
  - rewrite F3. change (_carryOver t)
      with (_carryOver (simulate dt (prepare s))). congruence.
  - rewrite F4. change (_random t) with (_random (simulate dt (prepare s))).
    congruence.
  - change (_complete t) with (_complete (simulate dt (prepare s))) in F5.
    replace (_complete s) with (_complete (simulate dt (prepare s)))
      by congruence.
    exact F5.
Qed.

Lemma freeParticlePool_finished (s s' : System) :
  freeParticlePool s = Some s' ->
  _isComplete s' = _isComplete s /\ _particles s' = _particles s /\
  _carryOver s' = _carryOver s /\ _random s' = _random s /\
  _complete s' = _complete s.
Proof.
  unfold freeParticlePool. intros H.
  destruct (_ <? 0)%Z; [discriminate|]. now injection H as <-.
Qed.

Lemma finished_refl (s : System) : _isComplete s = true -> finished s s.
Proof. intros H. unfold finished. now conjs. Qed.

Lemma finished_trans (s1 s2 s3 : System) :
  finished s1 s2 -> finished s2 s3 -> finished s1 s3.
Proof.
  unfold finished. intros (A1 & A2 & A3 & A4 & A5) (B1 & B2 & B3 & B4 & B5).
  conjs; try congruence; lia.
Qed.

Lemma perform_finished (c : Call) (s s' : System) :
  _isComplete s = true -> perform Math_sqrt c s = Some s' -> finished s s'.
Proof.
  intros Hc H. destruct (is_update c) eqn:Hu.
  - destruct c; try discriminate Hu. simpl in H. unfold update in H.
    destruct (negb (show s)).
    + injection H as <-. now apply finished_refl.
    + pose proof (step_finished s frameState Hc) as F.
      destruct (Z.rem _ _ =? 0)%Z; [|now injection H as <-].
      destruct (freeParticlePool_finished _ _ H) as (E1 & E2 & E3 & E4 & E5).
      unfold finished in *. rewrite E1, E2, E3, E4, E5. exact F.
  - destruct (assignment_frame Math_sqrt c s s' Hu H)
      as (P & _ & A1 & A2 & A3 & _ & A4 & _).
    unfold population in P. unfold finished.
    replace (_particles s') with (_particles s) by congruence.
    rewrite A1, A2, A3, A4. now conjs.
Qed.

(** X5: Completion is final.  Whatever is assigned to a complete system and
    however often it is updated, it stays complete; no particle is emitted,
    so the live particles can only become fewer, and no random number is
    drawn. *)
Theorem completion_is_final (calls : list Call) :
  forall s s' : System,
    _isComplete s = true -> performAll Math_sqrt calls s = Some s' ->
    _isComplete s' = true /\
    (length (_particles s') <= length (_particles s))%nat /\
    _carryOver s' = _carryOver s /\ _random s' = _random s /\
    (raised (_complete s) <= raised (_complete s'))%nat.
Proof.
  induction calls as [|c calls IH]; intros s s' Hc H; simpl in H.
  - injection H as <-. now apply finished_refl.
  - destruct (perform Math_sqrt c s) as [s1|] eqn:E; [|discriminate].
    pose proof (perform_finished c s s1 Hc E) as F.
    apply (finished_trans s s1 s'); [exact F|].
    apply IH; [apply F | exact H].
Qed.

End Completion.

(** A complete system that is set to loop, given an emission rate, a long
    lifetime and a burst, and updated twice. *)
Lemma completion_is_final_witness :
  _isComplete
    (after (set_bursts (Some [newBurst 0 7 7])
              (set__lifetime 1000
                 (set_emissionRate 100 (set_loop true completedSystem))))
       [frame 7 4; frame 8 5]) = true /\
  (length
     (_particles
        (after (set_bursts (Some [newBurst 0 7 7])
                  (set__lifetime 1000
                     (set_emissionRate 100 (set_loop true completedSystem))))
           [frame 7 4; frame 8 5]))
   <= length (_particles completedSystem))%nat.
Proof.
  assert (H : performAll exact_sqrt
                [assign_loop true; assign_emissionRate 100;
                 assign_lifetime 1000; assign_bursts (Some [newBurst 0 7 7]);
                 call_update (frame 7 4); call_update (frame 8 5)]
                completedSystem
              = Some (after (set_bursts (Some [newBurst 0 7 7])
                               (set__lifetime 1000
                                  (set_emissionRate 100
                                     (set_loop true completedSystem))))
                        [frame 7 4; frame 8 5]))
    by (vm_compute; reflexivity).
  destruct (completion_is_final exact_sqrt _ completedSystem _
              ltac:(vm_compute; reflexivity) H) as (F1 & F2 & _).
  split; [exact F1 | exact F2].
Defined.

(** ** The pool *)

Lemma set__particlePool_same (s : System) (pool : list Particle) :
  _particlePool s = pool -> set__particlePool pool s = s.
Proof. destruct s. simpl. now intros ->. Qed.

(** X6: The pool is a stack: getOrCreateParticle takes back the particle that
    addParticleToPool has put in last and leaves the system as it was before;
    on an empty pool it makes a new particle, which has no billboard, and
    leaves the system alone. *)
Theorem pool_is_a_stack (s : System) (p q : Particle) :
  getOrCreateParticle (addParticleToPool s p) = (p, s) /\
  getOrCreateParticle (addParticleToPool (addParticleToPool s p) q)
  = (q, addParticleToPool s p) /\
  getOrCreateParticle (set__particlePool [] s)
  = (Particle.new, set__particlePool [] s) /\
  Particle._billboard Particle.new = None.
Proof.
  assert (H : forall t r, getOrCreateParticle (addParticleToPool t r) = (r, t)).
  { intros t r. unfold getOrCreateParticle, addParticleToPool.
    cbn [_particlePool set__particlePool].
    rewrite last_snoc, removelast_last.
    f_equal. destruct t. reflexivity. }
  conjs; [apply H | apply H | reflexivity | reflexivity].
Qed.

Lemma removeAll_nil (c : BillboardCollection) : removeAll [] c = c.
Proof. reflexivity. Qed.

Lemma get_remove_eq (h : nat) (c : BillboardCollection) :
  BillboardCollection.get h (BillboardCollection.remove (Some h) c) = None.
Proof.
  unfold BillboardCollection.get, BillboardCollection.remove. simpl.
  apply lookup_delete_eq.
Qed.

Lemma get_remove_ne (h : nat) (k : option nat) (c : BillboardCollection) :
  k <> Some h ->
  BillboardCollection.get h (BillboardCollection.remove k c)
  = BillboardCollection.get h c.
Proof.
  intros Hne. destruct k as [k|]; [|reflexivity].
  unfold BillboardCollection.get, BillboardCollection.remove. simpl.
  apply lookup_delete_ne. congruence.
Qed.

Lemma removeAll_spec (ps : list Particle) :
  forall c : BillboardCollection,
    (forall p h, p ∈ ps -> Particle._billboard p = Some h ->
                 BillboardCollection.get h (removeAll ps c) = None) /\
    (forall h, Some h ∉ map Particle._billboard ps ->
               BillboardCollection.get h (removeAll ps c)
               = BillboardCollection.get h c).
Proof.
  induction ps as [|p ps IH]; intros c.
  - split; [intros p h Hp; now apply not_elem_of_nil in Hp | reflexivity].
  - change (removeAll (p :: ps) c)
      with (removeAll ps (BillboardCollection.remove (Particle._billboard p) c)).
    destruct (IH (BillboardCollection.remove (Particle._billboard p) c))
      as [I1 I2].
    split.
    + intros q h Hq Hh. apply elem_of_cons in Hq as [->|Hq]; [|now eauto].
      destruct (decide (Some h ∈ map Particle._billboard ps)) as [Hin|Hin].
      * apply list_elem_of_fmap in Hin as (r & Hr & Hin). now eauto.
      * rewrite (I2 h Hin), Hh. apply get_remove_eq.
    + intros h Hh. rewrite I2.
      * apply get_remove_ne. intros E. apply Hh. simpl. rewrite E.
        apply list_elem_of_here.
      * intros Hin. apply Hh. simpl. now apply list_elem_of_further.
Qed.

(** X7: What freeParticlePool does, case by case.  It releases as many pooled
    particles as the particles at hand fall short of the estimate: it throws
    when those are more than the pool holds, and otherwise cuts that many
    particles off the end of the pool and removes their billboards from the
    collection, leaving the live particles and every other billboard
    alone. *)
Theorem freeParticlePool_cases (s : System) :
  let pooled := Z.of_nat (length (_particlePool s)) in
  let kept := Z.to_nat (pooled - shortfall s) in
  ((pooled < shortfall s)%Z -> freeParticlePool s = None) /\
  ((shortfall s <= pooled)%Z ->
   exists s',
     freeParticlePool s = Some s' /\
     _particles s' = _particles s /\
     _particlePool s' = take kept (_particlePool s) /\
     (forall p h, p ∈ drop kept (_particlePool s) ->
                  Particle._billboard p = Some h ->
                  BillboardCollection.get h (collection s') = None) /\
     (forall h, Some h ∉ map Particle._billboard (drop kept (_particlePool s)) ->
                BillboardCollection.get h (collection s')
                = BillboardCollection.get h (collection s))) /\
  (shortfall s = 0%Z ->
   _particlePool <$> freeParticlePool s = Some (_particlePool s)).
Proof.
  cbn zeta. unfold freeParticlePool, shortfall. conjs.
  - intros H. apply Z.ltb_lt in H.
    replace (_ <? 0)%Z with true; [reflexivity|].
    symmetry. apply Z.ltb_lt. apply Z.ltb_lt in H. lia.
  - intros H.
    replace (_ <? 0)%Z with false by (symmetry; apply Z.ltb_ge; lia).
    eexists. split; [reflexivity|]. cbn.
    destruct (removeAll_spec
                (drop (Z.to_nat
                         (Z.of_nat (length (_particlePool s))
                          - Z.max (_particleEstimate s
                                   - Z.of_nat (length (_particles s))
                                   - Z.of_nat (length (_particlePool s))) 0))
                   (_particlePool s)) (collection s)) as [R1 R2].
    conjs; auto.
  - intros H. rewrite H, Z.sub_0_r.
    replace (_ <? 0)%Z with false by (symmetry; apply Z.ltb_ge; lia).
    cbn. rewrite Nat2Z.id. now rewrite firstn_all.
Qed.

(** A pool of 25 particles under an estimate of 30, with no live particle:
    the last 5 pooled particles are released with their billboards. *)
Lemma freeParticlePool_cases_witness :
  (shortfall underestimatedSystem = 5%Z /\
   length (_particlePool underestimatedSystem) = 25%nat) /\
  exists s',
    freeParticlePool underestimatedSystem = Some s' /\
    _particles s' = _particles underestimatedSystem /\
    _particlePool s' = take 20 (_particlePool underestimatedSystem) /\
    (forall p h, p ∈ drop 20 (_particlePool underestimatedSystem) ->
                 Particle._billboard p = Some h ->
                 BillboardCollection.get h (collection s') = None) /\
    (forall h,
        Some h ∉ map Particle._billboard
                   (drop 20 (_particlePool underestimatedSystem)) ->
        BillboardCollection.get h (collection s')
        = BillboardCollection.get h (collection underestimatedSystem)).
Proof.
  split; [split; vm_compute; reflexivity|].
  destruct (freeParticlePool_cases underestimatedSystem) as (_ & H & _).
  apply H. vm_compute. discriminate.
Defined.

(** ** Sizing the pool twice *)








(** ** The attributes of a new particle *)

Lemma randomBetween_between (min max : Q) (r : Random) :
  0 <= stream r (drawn r) -> stream r (drawn r) <= 1 -> min <= max ->
  between min max (fst (randomBetween min max r)).
Proof.
  unfold randomBetween, nextRandomNumber, between. simpl.
  intros H0 H1 Hm. split; nra.
Qed.

Lemma randomBetween_fixed (min max : Q) (r : Random) :
  min == max -> fst (randomBetween min max r) == min.
Proof.
  unfold randomBetween, nextRandomNumber. simpl. intros ->. ring.
Qed.

(** The five draws of addParticle, in their order. *)
Lemma addParticle_draws (s : System) (p : Particle) :
  let r := _random s in
  let q := snd (addParticle s p) in
  Particle.life q
  = fst (randomBetween (_minimumParticleLife s) (_maximumParticleLife s) r) /\
  Particle.mass q
  = stream r (drawn r + 1) * (_maximumMass s - _minimumMass s)
    + _minimumMass s /\
  Cartesian2.x (Particle.imageSize q)
  = stream r (drawn r + 2)
    * (Cartesian2.x (_maximumImageSize s) - Cartesian2.x (_minimumImageSize s))
    + Cartesian2.x (_minimumImageSize s) /\
  Cartesian2.y (Particle.imageSize q)
  = stream r (drawn r + 3)
    * (Cartesian2.y (_maximumImageSize s) - Cartesian2.y (_minimumImageSize s))
    + Cartesian2.y (_minimumImageSize s) /\
  Particle.velocity q
  = Cartesian3.multiplyByScalar (Particle.velocity p)
      (stream r (drawn r + 4) * (_maximumSpeed s - _minimumSpeed s)
       + _minimumSpeed s) /\
  _random (fst (addParticle s p))
  = {| stream := stream r; drawn := drawn r + 5 |}.
Proof.
  cbn zeta. unfold addParticle, randomBetween, nextRandomNumber. simpl.
  replace (drawn (_random s) + 1)%nat with (S (drawn (_random s))) by lia.
  replace (drawn (_random s) + 2)%nat with (S (S (drawn (_random s)))) by lia.
  replace (drawn (_random s) + 3)%nat
    with (S (S (S (drawn (_random s))))) by lia.
  replace (drawn (_random s) + 4)%nat
    with (S (S (S (S (drawn (_random s)))))) by lia.
  replace (drawn (_random s) + 5)%nat
    with (S (S (S (S (S (drawn (_random s))))))) by lia.
  now conjs.
Qed.



Section Constructor.

Variable Math_sqrt : Q -> Q.
Variable CircleEmitter : Q -> ParticleEmitter.

(** X10: The options that give a single value override those that give bounds:
    in a system built with [particleLife], [mass], [imageSize], [speed],
    [scale] or [color], however it has been updated since, every particle
    that addParticle adds gets exactly that life, mass, image size, speed,
    scale or colour, whatever the generator returns and whatever bounds the
    options give besides. *)
Theorem single_value_options_win (options : Options.t) (rnd : Random)
    (frames : list FrameState) (s : System) (p : Particle) :
  run Math_sqrt (ParticleSystem CircleEmitter options rnd) frames = Some s ->
  let q := snd (addParticle s p) in
  (forall v, Options.particleLife options = Some v -> Particle.life q == v) /\
  (forall v, Options.mass options = Some v -> Particle.mass q == v) /\
  (forall v, Options.imageSize options = Some v ->
             Cartesian2.x (Particle.imageSize q) == Cartesian2.x v /\
             Cartesian2.y (Particle.imageSize q) == Cartesian2.y v) /\
  (forall v, Options.speed options = Some v ->
             Cartesian3.equiv (Particle.velocity q)
               (Cartesian3.multiplyByScalar (Particle.velocity p) v)) /\
  (forall v, Options.scale options = Some v ->
             Particle.startScale q = v /\ Particle.endScale q = v) /\
  (forall v, Options.color options = Some v ->
             Particle.startColor q = v /\ Particle.endColor q = v).
Proof.
  intros H.
  assert (E : settings s
              = settings (ParticleSystem CircleEmitter options rnd)).
  { revert H. generalize (ParticleSystem CircleEmitter options rnd).
    induction frames as [|f frames IH]; intros s0 H; simpl in H.
    - now injection H as <-.
    - destruct (update Math_sqrt s0 f) as [s1|] eqn:U; [|discriminate].
      rewrite (IH s1 H). eapply update_settings. exact U. }
  unfold settings in E.
  injection E as _ _ _ _ _ _ _ E1 E2 E3 E4 _ E5 E6 E7 E8 E9 E10 E11 E12 _ _.
  cbn zeta. destruct (addParticle_draws s p) as (D1 & D2 & D3 & D4 & D5 & _).
  cbn zeta in *. simpl in E1, E2, E3, E4, E5, E6, E7, E8, E9, E10, E11, E12.
  unfold nullish2 in *. conjs.
  - intros v Hv. rewrite Hv in *. rewrite D1.
    unfold randomBetween, nextRandomNumber. simpl. rewrite E7, E8. ring.
  - intros v Hv. rewrite Hv in *. rewrite D2, E9, E10. ring.
  - intros v Hv. rewrite Hv in *. rewrite D3, D4, E11, E12. split; ring.
  - intros v Hv. rewrite Hv in *. rewrite D5, E5, E6.
    unfold Cartesian3.equiv. simpl. conjs; ring.
  - intros v Hv. rewrite Hv in *.
    unfold addParticle, randomBetween, nextRandomNumber. simpl. now split.
  - intros v Hv. rewrite Hv in *.
    unfold addParticle, randomBetween, nextRandomNumber. simpl. now split.
Qed.

End Constructor.

(** A system built with single values and with bounds, after two updates. *)
Lemma single_value_options_win_witness :
  Particle.life
    (snd (addParticle (after (newSystem fixedOptions) [frame 0 1; frame 2 2])
            Particle.new)) == 9 /\
  Particle.startScale
    (snd (addParticle (after (newSystem fixedOptions) [frame 0 1; frame 2 2])
            Particle.new)) = 3.
Proof.
  destruct (single_value_options_win exact_sqrt originEmitter fixedOptions
              halves [frame 0 1; frame 2 2]
              (after (newSystem fixedOptions) [frame 0 1; frame 2 2])
              Particle.new ltac:(vm_compute; reflexivity))
    as (H1 & _ & _ & _ & H2 & _).
  split; [now apply H1 | now apply H2].
Defined.

(** ** The bursts over time *)

Lemma burstKept_refl (lasting : bool) (b : ParticleBurst) :
  burstKept lasting b b.
Proof. unfold burstKept. now conjs. Qed.

Lemma burstsKept_refl (lasting : bool) (o : option (list ParticleBurst)) :
  burstsKept lasting o o.
Proof.
  destruct o as [bs|]; [|exact I]. simpl.
  induction bs; constructor; auto using burstKept_refl.
Qed.

Lemma burstsKept_trans (lasting : bool)
    (o1 o2 o3 : option (list ParticleBurst)) :
  burstsKept lasting o1 o2 -> burstsKept lasting o2 o3 ->
  burstsKept lasting o1 o3.
Proof.
  destruct o1 as [l1|], o2 as [l2|], o3 as [l3|]; simpl; try tauto.
  intros H. revert l3.
  induction H as [|b1 b2 l1 l2 (A1 & A2 & A3 & A4) _ IH]; intros l3 H';
    inversion H' as [|? b3 ? l3' (B1 & B2 & B3 & B4) H'']; subst;
    constructor; [|now apply IH].
  unfold burstKept. conjs; try congruence. auto.
Qed.

Lemma burstsKept_weaken (o o' : option (list ParticleBurst)) :
  burstsKept true o o' -> burstsKept false o o'.
Proof.
  destruct o as [l|], o' as [l'|]; simpl; try tauto.
  induction 1 as [|b b' l l' (A1 & A2 & A3 & A4) _ IH]; constructor;
    [|exact IH].
  unfold burstKept. conjs; auto; discriminate.
Qed.

(** The burst loop of the scheduler raises flags and changes nothing else
    of the bursts. *)
Lemma applyBursts_kept (currentTime : Q) (bursts : list ParticleBurst) :
  forall (numToEmit : Q) (r : Random),
    Forall2 (burstKept true) bursts
      (fst (fst (applyBursts currentTime bursts numToEmit r))).
Proof.
  induction bursts as [|b bursts IH]; intros numToEmit r; cbn [applyBursts].
  - constructor.
  - destruct (negb (ParticleBurst._complete b)
              && Qgtb currentTime (ParticleBurst.time b)).
    + destruct (randomBetween (ParticleBurst.minimum b)
                  (ParticleBurst.maximum b) r) as [n r'].
      specialize (IH (numToEmit + n) r').
      destruct (applyBursts currentTime bursts (numToEmit + n) r')
        as [[rest k] r'']. simpl in *.
      constructor; [|exact IH]. unfold burstKept. now conjs.
    + specialize (IH numToEmit r).
      destruct (applyBursts currentTime bursts numToEmit r)
        as [[rest k] r'']. simpl in *.
      constructor; [|exact IH]. apply burstKept_refl.
Qed.

Lemma calculateNumberToEmit_kept (s : System) (dt : Q) :
  burstsKept true (_bursts s) (_bursts (snd (calculateNumberToEmit s dt))).
Proof.
  unfold calculateNumberToEmit.
  destruct (_isComplete s); [apply burstsKept_refl|].
  destruct (rateTerm s dt) as [numToEmit carryOver].
  cbn [_bursts set__carryOver].
  destruct (_bursts s) as [bursts|] eqn:E.
  - pose proof (applyBursts_kept
                  (_currentTime (set__carryOver carryOver s)) bursts
                  numToEmit (_random (set__carryOver carryOver s))) as H.
    destruct (applyBursts _ bursts numToEmit _) as [[bursts' k] r'].
    simpl in *. exact H.
  - simpl. now rewrite E.
Qed.

Lemma resetBursts_kept (o : option (list ParticleBurst)) :
  burstsKept false o (resetBursts o).
Proof.
  destruct o as [bs|]; [|exact I]. simpl.
  induction bs; constructor; [|assumption].
  unfold burstKept. simpl. conjs; auto; discriminate.
Qed.

Lemma checkLifetime_kept (s : System) :
  burstsKept (negb (loop s)) (_bursts s) (_bursts (checkLifetime s)).
Proof.
  unfold checkLifetime.
  destruct (negb _ && _); [|apply burstsKept_refl].
  destruct (loop s); simpl.
  - apply resetBursts_kept.
  - apply burstsKept_refl.
Qed.

Section Bursts.

Variable Math_sqrt : Q -> Q.

Lemma step_kept (s : System) (frameState : FrameState) :
  burstsKept (negb (loop s)) (_bursts s)
    (_bursts (step Math_sqrt s frameState)).
Proof.
  destruct (step_ticked Math_sqrt s frameState) as (E & L & _).
  cbn zeta in *. rewrite E.
  set (t := ticked Math_sqrt (prepare s) frameState) in *.
  apply (burstsKept_trans _ _ (_bursts t)).
  - destruct (ticked_frame Math_sqrt (prepare s) frameState)
      as (_ & _ & _ & _ & _ & _ & _ & T & _).
    cbn zeta in T. fold t in T. rewrite T.
    set (dt := frameTime (prepare s) frameState).
    destruct (simulate_frame dt (prepare s)) as (_ & _ & S1 & _).
    destruct (prepare_frame s) as (_ & _ & P1 & _).
    unfold schedule in S1, P1.
    replace (_bursts s) with (_bursts (simulate dt (prepare s)))
      by congruence.
    pose proof (calculateNumberToEmit_kept (simulate dt (prepare s)) dt) as H.
    destruct (loop s); [now apply burstsKept_weaken|exact H].
  - rewrite <- L. apply checkLifetime_kept.
Qed.

Lemma freeParticlePool_bursts (s s' : System) :
  freeParticlePool s = Some s' -> _bursts s' = _bursts s /\ loop s' = loop s.
Proof.
  unfold freeParticlePool. intros H.
  destruct (_ <? 0)%Z; [discriminate|]. now injection H as <-.
Qed.

Lemma update_kept (s s' : System) (frameState : FrameState) :
  update Math_sqrt s frameState = Some s' ->
  burstsKept (negb (loop s)) (_bursts s) (_bursts s') /\ loop s' = loop s.
Proof.
  unfold update. intros H.
  destruct (negb (show s)).
  - injection H as <-. split; [apply burstsKept_refl|reflexivity].
  - pose proof (step_kept s frameState) as K.
    pose proof (step_settings Math_sqrt s frameState) as S.
    apply settings_fields in S as (_ & S & _).
    destruct (Z.rem _ _ =? 0)%Z.
    + destruct (freeParticlePool_bursts _ _ H) as [E1 E2].
      rewrite E1, E2. now split.
    + injection H as <-. now split.
Qed.

(** X11: update never adds, drops, reorders or alters a burst: over any run of
    updates the bursts keep their times and their bounds, and only their
    flags change.  In a system that does not loop, a burst that has fired
    stays fired, so that it fires at most once. *)
Theorem bursts_only_change_flags (frames : list FrameState) :
  forall s s' : System,
    run Math_sqrt s frames = Some s' ->
    burstsKept (negb (loop s)) (_bursts s) (_bursts s').
Proof.
  induction frames as [|f frames IH]; intros s s' H; simpl in H.
  - injection H as <-. apply burstsKept_refl.
  - destruct (update Math_sqrt s f) as [s1|] eqn:U; [|discriminate].
    destruct (update_kept s s1 f U) as [K L].
    apply (burstsKept_trans _ _ (_bursts s1)); [exact K|].
    rewrite <- L. now apply IH.
Qed.

End Bursts.

(** A system with a lifetime of 5 seconds that does not loop, with two
    bursts, over four updates: the first burst has fired by the end. *)
Lemma bursts_only_change_flags_witness :
  let s := set_bursts (Some [newBurst 1 2 2; newBurst 4 1 3]) finiteSystem in
  let frames := [frame 0 1; frame 2 2; frame 3 3; frame 7 4] in
  exists s',
    run exact_sqrt s frames = Some s' /\
    _bursts s'
    = Some [ParticleBurst.set__complete true (newBurst 1 2 2);
            newBurst 4 1 3] /\
    burstsKept (negb (loop s)) (_bursts s) (_bursts s').
Proof.
  cbn zeta.
  exists (after (set_bursts (Some [newBurst 1 2 2; newBurst 4 1 3])
                   finiteSystem)
            [frame 0 1; frame 2 2; frame 3 3; frame 7 4]).
  assert (R : run exact_sqrt
                (set_bursts (Some [newBurst 1 2 2; newBurst 4 1 3])
                   finiteSystem)
                [frame 0 1; frame 2 2; frame 3 3; frame 7 4]
              = Some (after (set_bursts (Some [newBurst 1 2 2; newBurst 4 1 3])
                               finiteSystem)
                        [frame 0 1; frame 2 2; frame 3 3; frame 7 4]))
    by (vm_compute; reflexivity).
  split; [exact R|]. split; [vm_compute; reflexivity|].
  exact (bursts_only_change_flags exact_sqrt _ _ _ R).
Defined.

(** ** What the bursts add to the count *)

Lemma sumMaxima_from (bs : list ParticleBurst) :
  forall a : Q,
    fold_left (fun acc b => acc + ParticleBurst.maximum b) bs a
    == a + fold_left (fun acc b => acc + ParticleBurst.maximum b) bs 0.
Proof.
  induction bs as [|b bs IH]; intros a; simpl.
  - ring.
  - rewrite (IH (a + ParticleBurst.maximum b)),
      (IH (0 + ParticleBurst.maximum b)). ring.
Qed.

Lemma sumMaxima_nonneg (bs : list ParticleBurst) :
  Forall (fun b => 0 <= ParticleBurst.minimum b /\
                   ParticleBurst.minimum b <= ParticleBurst.maximum b) bs ->
  0 <= fold_left (fun acc b => acc + ParticleBurst.maximum b) bs 0.
Proof.
  induction 1 as [|b bs [H0 H1] _ IH]; simpl; [lra|].
  rewrite sumMaxima_from. lra.
Qed.

(** The burst loop of the scheduler adds no less than nothing and no more
    than the maxima of all the bursts. *)
Lemma applyBursts_bounds (currentTime : Q) (bursts : list ParticleBurst) :
  forall (numToEmit : Q) (r : Random),
    unitStream r ->
    Forall (fun b => 0 <= ParticleBurst.minimum b /\
                     ParticleBurst.minimum b <= ParticleBurst.maximum b)
      bursts ->
    numToEmit <= snd (fst (applyBursts currentTime bursts numToEmit r)) /\
    snd (fst (applyBursts currentTime bursts numToEmit r))
    <= numToEmit
       + fold_left (fun acc b => acc + ParticleBurst.maximum b) bursts 0.
Proof.
  induction bursts as [|b bursts IH]; intros numToEmit r Hr Hb;
    cbn [applyBursts].
  - simpl. lra.
  - apply Forall_cons in Hb as [[H0 H1] Hb].
    pose proof (sumMaxima_nonneg bursts Hb) as Hs.
    cbn [fold_left]. rewrite sumMaxima_from.
    destruct (negb (ParticleBurst._complete b)
              && Qgtb currentTime (ParticleBurst.time b)).
    + pose proof (randomBetween_between (ParticleBurst.minimum b)
                    (ParticleBurst.maximum b) r) as B.
      destruct (Hr (drawn r)) as [U0 U1].
      specialize (B U0 U1 H1). unfold between in B.
      destruct (randomBetween (ParticleBurst.minimum b)
                  (ParticleBurst.maximum b) r) as [n r'] eqn:E.
      assert (Hr' : unitStream r').
      { unfold randomBetween, nextRandomNumber in E. injection E as _ <-.
        exact Hr. }
      specialize (IH (numToEmit + n) r' Hr' Hb).
      destruct (applyBursts currentTime bursts (numToEmit + n) r')
        as [[rest k] r'']. simpl in *. lra.
    + specialize (IH numToEmit r Hr Hb).
      destruct (applyBursts currentTime bursts numToEmit r)
        as [[rest k] r'']. simpl in *. lra.
Qed.

(** X12: The pool is sized for the bursts.  When the generator returns numbers
    between 0 and 1 and the bounds of every burst are in order and not
    negative, the bursts of one update add to the count of the scheduler no
    less than nothing and no more than the sum of their maxima, which is what
    updateParticlePool adds to the estimate for them. *)
Theorem bursts_within_estimate (s : System) (dt : Q) :
  unitStream (_random s) -> burstsOrdered (_bursts s) ->
  let numToEmit := fst (calculateNumberToEmit s dt) in
  let rate := if _isComplete s then 0 else fst (rateTerm s dt) in
  rate <= numToEmit /\ numToEmit <= rate + burstAmount (_bursts s) /\
  0 <= burstAmount (_bursts s) /\
  (0 <= _emissionRate s * _maximumParticleLife s ->
   numToEmit - rate
   <= inject_Z (_particleEstimate (updateParticlePool s))).
Proof.
  intros Hr Hb. cbn zeta.
  assert (Hs : 0 <= burstAmount (_bursts s)).
  { unfold burstAmount, burstsOrdered in *.
    destruct (_bursts s); [now apply sumMaxima_nonneg|lra]. }
  assert (H : (if _isComplete s then 0 else fst (rateTerm s dt))
              <= fst (calculateNumberToEmit s dt)
              /\ fst (calculateNumberToEmit s dt)
                 <= (if _isComplete s then 0 else fst (rateTerm s dt))
                    + burstAmount (_bursts s)).
  { unfold calculateNumberToEmit.
    destruct (_isComplete s); [simpl; lra|].
    destruct (rateTerm s dt) as [numToEmit carryOver].
    cbn [_bursts set__carryOver fst].
    unfold burstAmount, burstsOrdered in *.
    destruct (_bursts s) as [bursts|]; [|simpl; lra].
    pose proof (applyBursts_bounds
                  (_currentTime (set__carryOver carryOver s)) bursts
                  numToEmit (_random (set__carryOver carryOver s)) Hr Hb)
      as B.
    destruct (applyBursts _ bursts numToEmit _) as [[bursts' k] r'].
    simpl in *. exact B. }
  destruct H as [H1 H2]. conjs; auto.
  intros Hp.
  assert (E : _particleEstimate (updateParticlePool s)
              = Qceiling (_emissionRate s * _maximumParticleLife s
                          + burstAmount (_bursts s))).
  { unfold updateParticlePool. now destruct (allocate _ _ _ _). }
  rewrite E.
  pose proof (Qle_ceiling (_emissionRate s * _maximumParticleLife s
                           + burstAmount (_bursts s))) as C.
  lra.
Qed.

(** Two bursts that are both due, with the generator returning one half:
    they add 3 and 3.5 to the one particle of the emission rate. *)
Lemma bursts_within_estimate_witness :
  fst (calculateNumberToEmit twoBurstSystem 1) == 15 # 2 /\
  fst (rateTerm twoBurstSystem 1) == 1 /\
  burstAmount (_bursts twoBurstSystem) == 10 /\
  fst (calculateNumberToEmit twoBurstSystem 1) - fst (rateTerm twoBurstSystem 1)
  <= inject_Z (_particleEstimate (updateParticlePool twoBurstSystem)).
Proof.
  destruct (bursts_within_estimate twoBurstSystem 1) as (_ & _ & _ & H).
  - intros k. vm_compute. split; discriminate.
  - vm_compute. repeat constructor; discriminate.
  - conjs; [vm_compute; reflexivity | vm_compute; reflexivity
            | vm_compute; reflexivity |].
    apply H. vm_compute. discriminate.
Defined.

(** ** The clock *)

Lemma frameTime_after (s : System) (frameState : FrameState) :
  frameTime s frameState = frameTimeAfter (_previousTime s) frameState.
Proof. reflexivity. Qed.

Lemma frameTimeAfter_nonneg (previous : option JulianDate)
    (frameState : FrameState) :
  0 <= frameTimeAfter previous frameState.
Proof.
  unfold frameTimeAfter.
  destruct (Qltb _ 0) eqn:E; [lra|]. now apply Qltb_false in E.
Qed.

Lemma elapsedTime_ascending (frames : list FrameState) :
  forall t0 : JulianDate,
    ascending (Some t0) frames ->
    elapsedTime (Some t0) frames
    == match last frames with
       | Some frameState => time frameState - t0
       | None => 0
       end.
Proof.
  induction frames as [|f frames IH]; intros t0 H; [reflexivity|].
  destruct H as [H0 H]. cbn [elapsedTime]. rewrite (IH _ H).
  assert (E : frameTimeAfter (Some t0) f == time f - t0).
  { unfold frameTimeAfter, JulianDate.secondsDifference.
    destruct (Qltb _ 0) eqn:E; [|reflexivity].
    apply Qltb_true in E. lra. }
  rewrite E.
  destruct frames as [|g frames]; [simpl; ring|].
  change (last (f :: g :: frames)) with (last (g :: frames)).
  destruct (last (g :: frames)) as [l|] eqn:L; [ring|].
  now apply last_None in L.
Qed.

Lemma elapsedTime_span (previous : option JulianDate)
    (frames : list FrameState) :
  ascending previous frames -> elapsedTime previous frames == span previous frames.
Proof.
  destruct previous as [t0|].
  - intros H. rewrite (elapsedTime_ascending frames t0 H). unfold span.
    now destruct (last frames).
  - destruct frames as [|f frames]; [reflexivity|].
    intros [_ H]. cbn [elapsedTime].
    rewrite (elapsedTime_ascending frames (time f) H).
    unfold span, frameTimeAfter. simpl head. cbn [fmap option_fmap option_map default].
    destruct frames as [|g frames]; [simpl; ring|].
    change (last (f :: g :: frames)) with (last (g :: frames)).
    destruct (last (g :: frames)) as [l|] eqn:L; [simpl; ring|].
    now apply last_None in L.
Qed.

Lemma checkLifetime_no_wrap (s : System) :
  loop s = false \/ _lifetime s == MAX_VALUE ->
  _currentTime (checkLifetime s) = _currentTime s.
Proof.
  intros [H|H].
  - now apply checkLifetime_no_loop.
  - now rewrite checkLifetime_within by (now left).
Qed.

Section Clock.

Variable Math_sqrt : Q -> Q.

Lemma step_clock (s : System) (frameState : FrameState) :
  loop s = false \/ _lifetime s == MAX_VALUE ->
  _currentTime (step Math_sqrt s frameState)
  = _currentTime s + frameTime s frameState /\
  _previousTime (step Math_sqrt s frameState) = Some (time frameState).
Proof.
  intros H.
  destruct (step_ticked Math_sqrt s frameState) as (E & L1 & L2 & L3 & _).
  cbn zeta in *. rewrite E.
  set (t := ticked Math_sqrt (prepare s) frameState) in *.
  split.
  - rewrite checkLifetime_no_wrap by (now rewrite L1, L2). exact L3.
  - destruct (checkLifetime_frame t) as (_ & _ & _ & C & _). rewrite C.
    now destruct (ticked_frame Math_sqrt (prepare s) frameState)
      as (_ & _ & _ & _ & T & _).
Qed.

Lemma freeParticlePool_clock (s s' : System) :
  freeParticlePool s = Some s' -> clock s' = clock s.
Proof.
  unfold freeParticlePool. intros H.
  destruct (_ <? 0)%Z; [discriminate|]. now injection H as <-.
Qed.

(** X13: The elapsed time of a shown system that does not loop, or has no finite
    lifetime, is the sum of its frame times: over a run of updates it grows
    by the time from the update before the run to the last frame when the
    frames come in the order of time, and a frame that goes back in time adds
    nothing.  The system remembers the time of the last frame. *)
Theorem elapsed_time_sums_frame_times (frames : list FrameState) :
  forall s s' : System,
    show s = true -> loop s = false \/ _lifetime s == MAX_VALUE ->
    run Math_sqrt s frames = Some s' ->
    _currentTime s' == _currentTime s + elapsedTime (_previousTime s) frames /\
    (ascending (_previousTime s) frames ->
     _currentTime s' == _currentTime s + span (_previousTime s) frames) /\
    (frames <> [] -> _previousTime s' = time <$> last frames).
Proof.
  assert (G : forall frames s s',
             show s = true -> loop s = false \/ _lifetime s == MAX_VALUE ->
             run Math_sqrt s frames = Some s' ->
             _currentTime s' == _currentTime s
                                + elapsedTime (_previousTime s) frames /\
             (frames <> [] -> _previousTime s' = time <$> last frames)).
  { clear frames.
    induction frames as [|f frames IH]; intros s s' Hshow Hl H; simpl in H.
    - injection H as <-. split; [simpl; ring|congruence].
    - destruct (update Math_sqrt s f) as [s1|] eqn:U; [|discriminate].
      pose proof (update_settings Math_sqrt s s1 f U) as S.
      apply settings_fields in S as (S1 & S2 & S3 & _).
      assert (C : _currentTime s1 = _currentTime s + frameTime s f /\
                  _previousTime s1 = Some (time f)).
      { unfold update in U. rewrite Hshow in U. simpl in U.
        destruct (step_clock s f Hl) as [C1 C2].
        destruct (Z.rem _ _ =? 0)%Z.
        - apply freeParticlePool_clock in U. unfold clock in U.
          injection U as -> ->. now split.
        - injection U as <-. now split. }
      destruct C as [C1 C2].
      destruct (IH s1 s') as [I1 I2];
        [congruence | now rewrite S2, S3 | exact H |].
      split.
      + rewrite I1, C1, C2, frameTime_after. cbn [elapsedTime]. ring.
      + intros _. destruct frames as [|g frames].
        * simpl in H. injection H as <-. now rewrite C2.
        * rewrite I2 by discriminate. reflexivity. }
  intros s s' Hshow Hl H. destruct (G frames s s' Hshow Hl H) as [G1 G2].
  conjs; auto.
  intros Ha. rewrite G1. now rewrite elapsedTime_span.
Qed.

End Clock.

(** A system with a lifetime of 5 seconds that does not loop, over four
    updates in the order of time, from the first frame, at 1 second, to the
    last, at 9 seconds: 8 seconds have elapsed. *)
Lemma elapsed_time_sums_frame_times_witness :
  let frames := [frame 1 1; frame 3 2; frame 4 3; frame 9 4] in
  let s' := after finiteSystem frames in
  (ascending (_previousTime finiteSystem) frames /\
   span (_previousTime finiteSystem) frames == 8) /\
  _currentTime s'
  == _currentTime finiteSystem
     + elapsedTime (_previousTime finiteSystem) frames /\
  (ascending (_previousTime finiteSystem) frames ->
   _currentTime s'
   == _currentTime finiteSystem + span (_previousTime finiteSystem) frames) /\
  (frames <> [] -> _previousTime s' = time <$> last frames).
Proof.
  cbn zeta. split.
  - split; [vm_compute; intuition discriminate | vm_compute; reflexivity].
  - apply (elapsed_time_sums_frame_times exact_sqrt
             [frame 1 1; frame 3 2; frame 4 3; frame 9 4] finiteSystem
             (after finiteSystem [frame 1 1; frame 3 2; frame 4 3; frame 9 4])).
    + vm_compute. reflexivity.
    + left. vm_compute. reflexivity.
    + vm_compute. reflexivity.
Defined.

(** ** The emission rate over time *)





Section Rate.

Variable Math_sqrt : Q -> Q.





End Rate.


(** ** The billboards and their particles *)

Lemma shown_in_get (c c' : BillboardCollection) (p : Particle) :
  (forall h, Particle._billboard p = Some h ->
             BillboardCollection.get h c' = BillboardCollection.get h c) ->
  shown_in c p -> shown_in c' p.
Proof.
  intros H (h & b & E & G & S). exists h, b. rewrite (H h E). now conjs.
Qed.

Lemma hidden_in_get (c c' : BillboardCollection) (p : Particle) :
  (forall h, Particle._billboard p = Some h ->
             BillboardCollection.get h c' = BillboardCollection.get h c) ->
  hidden_in c p -> hidden_in c' p.
Proof.
  intros H (h & b & E & G & S). exists h, b. rewrite (H h E). now conjs.
Qed.

Lemma owns_handle (live pool : list Particle) (c : BillboardCollection)
    (p : Particle) :
  owns live pool c -> p ∈ live ++ pool ->
  exists h, Particle._billboard p = Some h /\
            is_Some (BillboardCollection.get h c) /\
            (h < BillboardCollection.nextHandle c)%nat.
Proof.
  intros (L & P & _ & _ & B) Hp.
  apply elem_of_app in Hp as [Hp|Hp].
  - rewrite Forall_forall in L. destruct (L p Hp) as (h & b & E & G & _).
    exists h. split; [exact E|].
    split; [now rewrite G | apply B; now rewrite G].
  - rewrite Forall_forall in P. destruct (P p Hp) as (h & b & E & G & _).
    exists h. split; [exact E|].
    split; [now rewrite G | apply B; now rewrite G].
Qed.

Lemma owns_fresh (live pool : list Particle) (c : BillboardCollection) :
  owns live pool c ->
  Some (BillboardCollection.nextHandle c)
  ∉ map Particle._billboard (live ++ pool).
Proof.
  intros H Hin. apply list_elem_of_fmap in Hin as (p & E & Hp).
  destruct (owns_handle live pool c p H Hp) as (h & E' & _ & B).
  rewrite E' in E. injection E as <-. lia.
Qed.

Lemma owns_perm (live live' pool pool' : list Particle)
    (c : BillboardCollection) :
  live ≡ₚ live' -> pool ≡ₚ pool' -> owns live pool c -> owns live' pool' c.
Proof.
  intros E1 E2 (L & P & N & D & B).
  assert (E : map Particle._billboard (live ++ pool)
              ≡ₚ map Particle._billboard (live' ++ pool'))
    by (apply Permutation_map; now apply Permutation_app).
  unfold owns. conjs.
  - apply Forall_forall. intros q Hq. rewrite Forall_forall in L.
    apply L. now rewrite E1.
  - apply Forall_forall. intros q Hq. rewrite Forall_forall in P.
    apply P. now rewrite E2.
  - now rewrite <- E.
  - intros h Hh. rewrite <- E. now apply D.
  - exact B.
Qed.

(** *** Allocation *)

Lemma get_add_eq (img : Image) (shown : bool) (c : BillboardCollection) :
  exists b,
    BillboardCollection.get (BillboardCollection.nextHandle c)
      (snd (BillboardCollection.add img shown c)) = Some b /\
    Billboard.show b = shown /\ Billboard.image b = img.
Proof.
  unfold BillboardCollection.add, BillboardCollection.get. simpl.
  rewrite lookup_insert_eq. eexists. now conjs.
Qed.

Lemma get_add_ne (img : Image) (shown : bool) (c : BillboardCollection)
    (h : nat) :
  h <> BillboardCollection.nextHandle c ->
  BillboardCollection.get h (snd (BillboardCollection.add img shown c))
  = BillboardCollection.get h c.
Proof.
  intros Hne. unfold BillboardCollection.add, BillboardCollection.get. simpl.
  now rewrite lookup_insert_ne.
Qed.

Lemma add_handle (img : Image) (shown : bool) (c : BillboardCollection) :
  fst (BillboardCollection.add img shown c) = BillboardCollection.nextHandle c
  /\ BillboardCollection.nextHandle (snd (BillboardCollection.add img shown c))
     = S (BillboardCollection.nextHandle c).
Proof. now split. Qed.

(** A billboard added to the collection for a new particle. *)
Lemma owns_add (live pool : list Particle) (c : BillboardCollection)
    (img : Image) (shown : bool) (p : Particle) :
  owns live pool c ->
  Particle._billboard p = Some (BillboardCollection.nextHandle c) ->
  let c' := snd (BillboardCollection.add img shown c) in
  Forall (shown_in c') live /\ Forall (hidden_in c') pool /\
  NoDup (map Particle._billboard (live ++ pool ++ [p])) /\
  (forall h, is_Some (BillboardCollection.get h c') ->
             Some h ∈ map Particle._billboard (live ++ pool ++ [p])) /\
  (forall h, is_Some (BillboardCollection.get h c') ->
             (h < BillboardCollection.nextHandle c')%nat).
Proof.
  intros H Hp. pose proof (owns_fresh live pool c H) as F.
  pose proof H as (L & P & N & D & B). cbn zeta.
  assert (K : forall q, q ∈ live ++ pool ->
                forall h, Particle._billboard q = Some h ->
                  BillboardCollection.get h
                    (snd (BillboardCollection.add img shown c))
                  = BillboardCollection.get h c).
  { intros q Hq h Hh. apply get_add_ne. intros ->. apply F.
    apply list_elem_of_fmap. now exists q. }
  conjs.
  - apply Forall_forall. intros q Hq. rewrite Forall_forall in L.
    apply (shown_in_get c); [|now apply L].
    apply K. apply elem_of_app. now left.
  - apply Forall_forall. intros q Hq. rewrite Forall_forall in P.
    apply (hidden_in_get c); [|now apply P].
    apply K. apply elem_of_app. now right.
  - rewrite app_assoc, map_app. simpl. rewrite Hp.
    apply NoDup_app. conjs; [exact N| |apply NoDup_singleton].
    intros x Hx Hx'. apply list_elem_of_singleton in Hx'. subst x.
    now apply F.
  - intros h Hh. rewrite app_assoc, map_app. apply elem_of_app.
    destruct (decide (h = BillboardCollection.nextHandle c)) as [->|Hne].
    + right. simpl. rewrite Hp. apply list_elem_of_here.
    + left. apply D. now rewrite get_add_ne in Hh.
  - intros h Hh.
    destruct (decide (h = BillboardCollection.nextHandle c)) as [->|Hne].
    + simpl. lia.
    + rewrite get_add_ne in Hh by assumption. apply B in Hh. simpl. lia.
Qed.

Lemma allocate_owns (n : nat) (img : Image) :
  forall (live pool : list Particle) (c : BillboardCollection),
    owns live pool c ->
    owns live (fst (allocate n img pool c)) (snd (allocate n img pool c)).
Proof.
  induction n as [|n IH]; intros live pool c H; [exact H|].
  cbn [allocate].
  destruct (BillboardCollection.add img false c) as [h c'] eqn:A.
  set (p := Particle.set__billboard (Some h) Particle.new).
  apply IH.
  destruct (add_handle img false c) as [A1 A2]. rewrite A in A1, A2.
  simpl in A1, A2.
  destruct (owns_add live pool c img false p H) as (L & P & N & D & B).
  { subst p. simpl. now rewrite A1. }
  rewrite A in L, P, D, B. cbn [snd] in L, P, D, B.
  unfold owns. conjs; auto.
  apply Forall_app. split; [exact P|]. constructor; [|constructor].
  destruct (get_add_eq img false c) as (b & G & S & _).
  rewrite A in G. simpl in G.
  exists h, b. subst p. simpl. rewrite A1. now conjs.
Qed.

Lemma collection_Some (s : System) (c : BillboardCollection) :
  collection (set__billboardCollection (Some c) s) = c.
Proof. reflexivity. Qed.

Lemma prepare_owned (s : System) : owned s -> owned (prepare s).
Proof.
  intros H. unfold prepare.
  set (s0 := match _billboardCollection s with
             | Some _ => s
             | None => set__billboardCollection (Some BillboardCollection.new) s
             end).
  assert (H0 : owned s0).
  { subst s0. unfold owned, collection in *.
    destruct (_billboardCollection s) eqn:E; cbn; [now rewrite E|exact H]. }
  destruct (_updateParticlePool s0); [|exact H0].
  unfold owned, updateParticlePool.
  pose proof (allocate_owns
                (Z.to_nat
                   (Z.max (Qceiling (_emissionRate s0 * _maximumParticleLife s0
                                     + burstAmount (_bursts s0))
                           - Z.of_nat (length (_particles s0))
                           - Z.of_nat (length (_particlePool s0))) 0))
                (image s0) (_particles s0) (_particlePool s0) (collection s0)
                H0) as A.
  destruct (allocate _ _ _ _) as [pool c]. exact A.
Qed.

(** *** The particle loop *)

Lemma survivors_elem dt callback (l : list Particle) (q : Particle) :
  q ∈ survivors dt callback l ->
  exists p, p ∈ l /\ fst (Particle.update dt callback p) = true /\
            q = snd (Particle.update dt callback p).
Proof.
  induction l as [|p l IH]; [intros H; now apply not_elem_of_nil in H|].
  rewrite survivors_cons. intros H. apply elem_of_app in H as [H|H].
  - destruct (fst (Particle.update dt callback p)) eqn:E;
      [|now apply not_elem_of_nil in H].
    apply list_elem_of_singleton in H. exists p. conjs; auto.
    apply list_elem_of_here.
  - destruct (IH H) as (p' & Hp & E & ->). exists p'. conjs; auto.
    now apply list_elem_of_further.
Qed.

Lemma casualties_elem dt callback (l : list Particle) (q : Particle) :
  q ∈ casualties dt callback l ->
  exists p, p ∈ l /\ fst (Particle.update dt callback p) = false /\
            q = snd (Particle.update dt callback p).
Proof.
  induction l as [|p l IH]; [intros H; now apply not_elem_of_nil in H|].
  rewrite casualties_cons. intros H. apply elem_of_app in H as [H|H].
  - destruct (fst (Particle.update dt callback p)) eqn:E;
      [now apply not_elem_of_nil in H|].
    apply list_elem_of_singleton in H. exists p. conjs; auto.
    apply list_elem_of_here.
  - destruct (IH H) as (p' & Hp & E & ->). exists p'. conjs; auto.
    now apply list_elem_of_further.
Qed.

Lemma handles_split dt callback (l : list Particle) :
  keeps_billboard callback ->
  map Particle._billboard (survivors dt callback l)
  ++ map Particle._billboard (casualties dt callback l)
  ≡ₚ map Particle._billboard l.
Proof.
  intros Hk. induction l as [|p l IH]; [reflexivity|].
  rewrite survivors_cons, casualties_cons, !map_app.
  pose proof (update_keeps_billboard dt callback p Hk) as E.
  destruct (fst (Particle.update dt callback p)); simpl; rewrite E.
  - now rewrite IH.
  - rewrite <- Permutation_middle. now rewrite IH.
Qed.

Lemma sweep_owns dt callback sim (live pool : list Particle)
    (c : BillboardCollection) :
  keeps_billboard callback -> owns live pool c ->
  let r := sweep dt callback sim (length live) live [] pool c in
  owns (fst (fst r)) (snd (fst r)) (snd r).
Proof.
  intros Hk H. pose proof H as (L & P & N & D & B).
  assert (Hall : Forall (fun p => is_Some (Particle._billboard p)) live).
  { apply Forall_forall. intros p Hp. rewrite Forall_forall in L.
    destruct (L p Hp) as (h & _ & E & _). now rewrite E. }
  assert (Hnd : NoDup (map Particle._billboard live)).
  { rewrite map_app in N. now apply NoDup_app in N as (N1 & _). }
  assert (Hdis : forall q h, q ∈ pool -> Particle._billboard q = Some h ->
                   Some h ∉ map Particle._billboard live).
  { intros q h Hq Hh Hin. rewrite map_app in N.
    apply NoDup_app in N as (_ & N2 & _). apply (N2 (Some h) Hin).
    apply list_elem_of_fmap. now exists q. }
  pose proof (sweep_spec dt callback sim (length live) Hk live [] pool c
                eq_refl Hall Hnd) as S.
  destruct (sweep_view dt callback sim (length live) Hk live [] pool c
              eq_refl Hall)
    as (kept & dead & c' & E & V1 & V2 & _ & V4 & V5).
  cbn zeta. rewrite E in S |- *. cbn [fst snd]. simpl in S.
  destruct S as (_ & _ & I3 & I4).
  apply (owns_perm (survivors dt callback live)
           _ (pool ++ casualties dt callback live));
    [now symmetry | now rewrite V2|].
  unfold owns. conjs.
  - apply Forall_forall. intros q Hq.
    apply survivors_elem in Hq as (p & Hp & Ha & ->).
    rewrite Forall_forall in L. destruct (L p Hp) as (h & b & Eh & G & _).
    exists h, (pushToBillboard sim (snd (Particle.update dt callback p)) b).
    conjs.
    + now rewrite update_keeps_billboard.
    + rewrite (I4 p h Hp Eh), G. unfold written. now rewrite Ha.
    + reflexivity.
  - apply Forall_app. split.
    + apply Forall_forall. intros q Hq. rewrite Forall_forall in P.
      apply (hidden_in_get c); [|now apply P].
      intros h Hh. apply I3. now apply (Hdis q).
    + apply Forall_forall. intros q Hq.
      apply casualties_elem in Hq as (p & Hp & Ha & ->).
      rewrite Forall_forall in L. destruct (L p Hp) as (h & b & Eh & G & _).
      exists h, (Billboard.set_show false b). conjs.
      * now rewrite update_keeps_billboard.
      * rewrite (I4 p h Hp Eh), G. unfold written. now rewrite Ha.
      * reflexivity.
  - rewrite !map_app.
    rewrite (Permutation_app_comm (map Particle._billboard pool)), app_assoc.
    rewrite (handles_split dt callback live Hk). now rewrite <- map_app.
  - intros h Hh. apply V5, D in Hh.
    rewrite !map_app.
    rewrite (Permutation_app_comm (map Particle._billboard pool)), app_assoc.
    rewrite (handles_split dt callback live Hk). now rewrite <- map_app.
  - intros h Hh. rewrite V4. now apply B, V5.
Qed.

Lemma simulate_owned (dt : Q) (s : System) :
  keeps_billboard (updateCallback s) -> owned s -> owned (simulate dt s).
Proof.
  intros Hk H. rewrite simulate_sweep.
  pose proof (sweep_owns dt (updateCallback s) (_sizeInMeters s)
                (_particles s) (_particlePool s) (collection s) Hk H) as O.
  cbn zeta in O.
  destruct (sweep _ _ _ _ _ _ _ _) as [[particles pool] c]. exact O.
Qed.

(** *** Emission *)

(** What one turn of the emission loop does to the particles and to the
    billboards: the particle, taken from the pool or new, is appended to the
    live particles; its billboard is the one it had in the pool, or a new
    one, and receives the state of the particle. *)
Lemma emitOne_view (Math_sqrt : Q -> Q) (e : ParticleEmitter) (M : Matrix4)
    (s : System) :
  let taken := fst (getOrCreateParticle s) in
  let r := _random s in
  let local := fst (e taken (fun k => stream r (drawn r + k)%nat)) in
  let s' := emitOne Math_sqrt e M s in
  exists q h c0,
    _particles s' = _particles s ++ [q] /\
    _particlePool s' = _particlePool (snd (getOrCreateParticle s)) /\
    collection s'
    = BillboardCollection.modify (pushToBillboard (_sizeInMeters s) q) h c0 /\
    Particle._billboard q = Some h /\
    (Particle._billboard local = Some h /\ c0 = collection s \/
     Particle._billboard local = None /\
     h = BillboardCollection.nextHandle (collection s) /\
     c0 = snd (BillboardCollection.add (image s) true (collection s))) /\
    Particle.position q = Matrix4.multiplyByPoint M (Particle.position local) /\
    (Particle._age q = 0 /\ Particle._normalizedAge q = 0) /\
    (Particle.startColor q = _startColor s /\
     Particle.endColor q = _endColor s /\
     Particle.startScale q = _startScale s /\
     Particle.endScale q = _endScale s /\ Particle.image q = image s).
Proof.
  cbn zeta.
  assert (G : _random (snd (getOrCreateParticle s)) = _random s /\
              _particles (snd (getOrCreateParticle s)) = _particles s /\
              collection (snd (getOrCreateParticle s)) = collection s /\
              settings (snd (getOrCreateParticle s)) = settings s).
  { unfold getOrCreateParticle. now destruct (last (_particlePool s)). }
  unfold emitOne.
  destruct (getOrCreateParticle s) as [p0 s0]. cbn [fst snd] in *.
  destruct G as (G1 & G2 & G3 & G4).
  unfold settings in G4.
  injection G4 as _ _ _ G4 _ _ _ G5 G6 G7 G8 _ _ _ _ _ _ _ _ _ G9 _.
  rewrite G1.
  destruct (e p0 _) as [p1 used]. cbn [fst snd].
  unfold addParticle, randomBetween, nextRandomNumber, updateBillboard.
  unfold collection in *.
  destruct (Particle._billboard p1) as [h|] eqn:Hb.
  - cbn -[Qmult Qplus Qminus Qdiv rotateVelocity Matrix4.multiplyByPoint
          BillboardCollection.add BillboardCollection.modify pushToBillboard].
    rewrite ?G2, ?G3, ?G4, ?G5, ?G6, ?G7, ?G8, ?G9, ?Hb.
    eexists _, h, _. conjs; try reflexivity. now left.
  - cbn -[Qmult Qplus Qminus Qdiv rotateVelocity Matrix4.multiplyByPoint
          BillboardCollection.add BillboardCollection.modify pushToBillboard].
    rewrite ?G2, ?G3, ?G4, ?G5, ?G6, ?G7, ?G8, ?G9, ?Hb.
    eexists _, _, _. conjs; try reflexivity. right. now conjs.
Qed.

Lemma map_snoc_same {A B} (f : A -> B) (l : list A) (x y : A) :
  f x = f y -> map f (l ++ [x]) = map f (l ++ [y]).
Proof. intros E. rewrite !map_app. simpl. now rewrite E. Qed.

(** A particle joins the live particles with its billboard, which is in the
    collection and goes to no other particle. *)
Lemma owns_emit (live pool : list Particle) (c0 : BillboardCollection)
    (q : Particle) (h : nat) (f : Billboard -> Billboard) :
  Forall (shown_in c0) live -> Forall (hidden_in c0) pool ->
  NoDup (map Particle._billboard (live ++ pool ++ [q])) ->
  Particle._billboard q = Some h ->
  is_Some (BillboardCollection.get h c0) ->
  (forall b, Billboard.show (f b) = true) ->
  (forall k, is_Some (BillboardCollection.get k c0) ->
             Some k ∈ map Particle._billboard (live ++ pool ++ [q])) ->
  (forall k, is_Some (BillboardCollection.get k c0) ->
             (k < BillboardCollection.nextHandle c0)%nat) ->
  owns (live ++ [q]) pool (BillboardCollection.modify f h c0).
Proof.
  intros L P N Hq [b G] Hf D B.
  assert (E : map Particle._billboard (live ++ pool ++ [q])
              ≡ₚ map Particle._billboard ((live ++ [q]) ++ pool)).
  { apply Permutation_map. rewrite <- app_assoc.
    apply Permutation_app_head, Permutation_app_comm. }
  assert (K : forall p, p ∈ live ++ pool ->
                forall k, Particle._billboard p = Some k -> h <> k).
  { intros p Hp k Hk ->. rewrite app_assoc, map_app in N.
    apply NoDup_app in N as (_ & N2 & _).
    apply (N2 (Some k)).
    - apply list_elem_of_fmap. now exists p.
    - simpl. rewrite Hq. apply list_elem_of_here. }
  unfold owns. conjs.
  - apply Forall_app. split.
    + apply Forall_forall. intros p Hp. rewrite Forall_forall in L.
      apply (shown_in_get c0); [|now apply L].
      intros k Hk. apply get_modify_ne.
      apply (K p); [apply elem_of_app; now left | exact Hk].
    + constructor; [|constructor]. exists h, (f b). conjs; auto.
      now rewrite get_modify_eq, G.
  - apply Forall_forall. intros p Hp. rewrite Forall_forall in P.
    apply (hidden_in_get c0); [|now apply P].
    intros k Hk. apply get_modify_ne.
    apply (K p); [apply elem_of_app; now right | exact Hk].
  - now rewrite <- E.
  - intros k Hk. rewrite <- E. apply D. now apply is_Some_get_modify in Hk.
  - intros k Hk. apply is_Some_get_modify in Hk. now apply B.
Qed.

Lemma pushToBillboard_shows (sim : bool) (p : Particle) (b : Billboard) :
  Billboard.show (pushToBillboard sim p b) = true.
Proof. reflexivity. Qed.

Lemma snoc_cases {A} (l : list A) : l = [] \/ exists l0 x, l = l0 ++ [x].
Proof. destruct l using rev_ind; eauto. Qed.

Lemma emitOne_owned (Math_sqrt : Q -> Q) (e : ParticleEmitter) (M : Matrix4)
    (s : System) :
  emitter_keeps_billboard (Some e) -> owned s ->
  owned (emitOne Math_sqrt e M s).
Proof.
  intros He H. unfold owned in *.
  destruct (emitOne_view Math_sqrt e M s)
    as (q & h & c0 & E1 & E2 & E3 & Hq & Hc & _).
  cbn zeta in *. rewrite E1, E2, E3. clear E1 E2 E3.
  simpl in He. rewrite He in Hc.
  pose proof H as (L & P & N & D & B).
  unfold getOrCreateParticle in *.
  destruct (snoc_cases (_particlePool s)) as [Ep|(pool0 & p0 & Ep)];
    rewrite Ep in *.
  - cbn [last fst snd] in *. rewrite Ep.
    destruct Hc as [[Hc _]|(_ & -> & ->)]; [discriminate|].
    destruct (owns_add (_particles s) [] (collection s) (image s) true q H Hq)
      as (L' & P' & N' & D' & B').
    destruct (get_add_eq (image s) true (collection s)) as (b & G & _).
    apply owns_emit;
      [exact L' | exact P' | exact N' | exact Hq | now rewrite G
       | apply pushToBillboard_shows | exact D' | exact B'].
  - rewrite last_snoc in *. cbn [fst snd] in *.
    cbn [_particlePool set__particlePool]. rewrite removelast_last.
    apply Forall_app in P as [P P0].
    apply Forall_cons in P0 as [(h0 & b0 & Eh & G & _) _].
    destruct Hc as [[Hc ->]|[Hc _]]; [|congruence].
    assert (h = h0) by congruence. subst h0.
    assert (Em : map Particle._billboard (_particles s ++ pool0 ++ [q])
                 = map Particle._billboard (_particles s ++ pool0 ++ [p0])).
    { rewrite !app_assoc. apply map_snoc_same. congruence. }
    apply owns_emit;
      [exact L | exact P | now rewrite Em | exact Hq | now rewrite G
       | apply pushToBillboard_shows | | exact B].
    intros k Hk. rewrite Em. now apply D.
Qed.

Section Ownership.

Variable Math_sqrt : Q -> Q.

Lemma emitLoop_owned (n : nat) (e : ParticleEmitter) (M : Matrix4) :
  forall s : System,
    emitter_keeps_billboard (Some e) -> owned s ->
    owned (emitLoop Math_sqrt n e M s).
Proof.
  induction n as [|n IH]; intros s He H; [exact H|].
  cbn [emitLoop]. apply IH; [exact He|]. now apply emitOne_owned.
Qed.

Lemma emitParticles_owned (numToEmit : Q) (s : System) :
  emitter_keeps_billboard (_emitter s) -> owned s ->
  owned (emitParticles Math_sqrt numToEmit s).
Proof.
  intros He H. unfold emitParticles.
  destruct (_emitter s) as [e|]; [|exact H].
  destruct (Qgtb numToEmit 0); [|exact H].
  apply emitLoop_owned; [exact He|].
  now destruct (_matrixDirty s).
Qed.

Lemma emit_owned (dt : Q) (s : System) :
  emitter_keeps_billboard (_emitter s) -> owned s ->
  owned (emit Math_sqrt dt s).
Proof.
  intros He H. unfold emit.
  destruct (calculateNumberToEmit_frame s dt) as (C1 & _ & _ & _ & C2 & _).
  destruct (calculateNumberToEmit s dt) as [numToEmit s1].
  cbn [snd] in C1, C2.
  apply settings_fields in C1 as (_ & _ & _ & C1 & _).
  apply emitParticles_owned; [now rewrite C1|].
  unfold owned, collection, population in *.
  injection C2 as -> -> ->. exact H.
Qed.

Lemma step_owned (s : System) (frameState : FrameState) :
  hooks_keep_billboard s -> owned s -> owned (step Math_sqrt s frameState).
Proof.
  intros [Hk He] H. unfold step, advance.
  destruct (checkLifetime_frame (ticked Math_sqrt (prepare s) frameState))
    as (_ & _ & C & _).
  unfold owned, collection, population in *.
  injection C as -> -> ->.
  unfold ticked, tick.
  cbn [_particles _particlePool _billboardCollection set__previousTime
       set__currentTime].
  set (dt := frameTime (prepare s) frameState).
  destruct (prepare_frame s) as (P & _).
  destruct (simulate_frame dt (prepare s)) as (S & _).
  apply settings_fields in P as (_ & _ & _ & P1 & _ & P2 & _).
  apply settings_fields in S as (_ & _ & _ & S1 & _ & S2 & _).
  apply emit_owned; [now rewrite S1, P1|].
  apply simulate_owned; [now rewrite P2|].
  now apply prepare_owned.
Qed.

End Ownership.

(** *** The number of billboards *)

Lemma size_handles (l : list (option nat)) :
  forall m : gmap nat Billboard,
    NoDup l ->
    (forall x, x ∈ l -> exists h, x = Some h /\ is_Some (m !! h)) ->
    (forall h, is_Some (m !! h) -> Some h ∈ l) ->
    size m = length l.
Proof.
  induction l as [|x l IH]; intros m N In Dom.
  - apply map_size_empty_iff, map_empty. intros h.
    destruct (m !! h) eqn:E; [|reflexivity].
    exfalso. eapply not_elem_of_nil. apply (Dom h). now rewrite E.
  - apply NoDup_cons in N as [Nx N].
    destruct (In x) as (h & -> & [b Hb]); [apply list_elem_of_here|].
    rewrite <- (insert_delete_id m h b Hb).
    rewrite map_size_insert_None by apply lookup_delete_eq.
    simpl. f_equal. apply IH; [exact N| |].
    + intros y Hy. destruct (In y) as (k & -> & Hk);
        [now apply list_elem_of_further|].
      exists k. split; [reflexivity|].
      rewrite lookup_delete_ne; [exact Hk|]. now intros ->.
    + intros k Hk.
      destruct (decide (h = k)) as [->|Hne];
        [rewrite lookup_delete_eq in Hk; now destruct Hk|].
      rewrite lookup_delete_ne in Hk by assumption.
      apply Dom, elem_of_cons in Hk as [Hk|Hk]; [congruence|exact Hk].
Qed.

Lemma owned_count (s : System) :
  owned s -> BillboardCollection.length (collection s) = atHand s.
Proof.
  intros H. pose proof H as (L & P & N & D & B).
  unfold BillboardCollection.length, atHand.
  rewrite <- length_app, <- (length_map Particle._billboard).
  apply size_handles; [exact N| |exact D].
  intros x Hx. apply list_elem_of_fmap in Hx as (p & -> & Hp).
  destruct (owns_handle _ _ _ p H Hp) as (h & E & G & _). now exists h.
Qed.

Section Billboards.

Variable Math_sqrt : Q -> Q.

Lemma update_owned (s s' : System) (frameState : FrameState) :
  pool_ok s -> hooks_keep_billboard s -> owned s ->
  update Math_sqrt s frameState = Some s' -> owned s'.
Proof.
  intros Hok Hh H U. destruct (show s) eqn:Hshow.
  - rewrite update_step in U by assumption. injection U as <-.
    now apply step_owned.
  - rewrite update_not_shown in U by assumption. now injection U as <-.
Qed.

Lemma perform_owned (c : Call) (s s' : System) :
  pool_ok s -> hooks_keep_billboard s -> call_keeps_billboard c ->
  owned s -> perform Math_sqrt c s = Some s' ->
  hooks_keep_billboard s' /\ owned s'.
Proof.
  intros Hok Hh Hc H E. destruct (is_update c) eqn:Hu.
  - destruct c; try discriminate Hu. simpl in E. split.
    + apply update_settings in E.
      apply settings_fields in E as (_ & _ & _ & E1 & _ & E2 & _).
      unfold hooks_keep_billboard in *. now rewrite E1, E2.
    + eauto using update_owned.
  - split.
    + destruct Hh as [H1 H2]. unfold hooks_keep_billboard.
      destruct c; try discriminate Hu; simpl in E, Hc;
        unfold greaterThanOrEquals, set_emitter, set_minimumImageSize,
          set_maximumImageSize in E;
        repeat case_match; simplify_eq; now split.
    + destruct (assignment_frame Math_sqrt c s s' Hu E) as (P & _).
      unfold owned, collection, population in *.
      injection P as -> -> ->. exact H.
Qed.

Lemma performAll_owned (calls : list Call) :
  forall s0 s : System,
    pool_ok s0 -> hooks_keep_billboard s0 -> owned s0 ->
    Forall call_keeps_billboard calls ->
    performAll Math_sqrt calls s0 = Some s -> owned s.
Proof.
  induction calls as [|c calls IH]; intros s0 s Hok Hh H0 Hc H; simpl in H.
  - now injection H as <-.
  - destruct (perform Math_sqrt c s0) as [s1|] eqn:E; [|discriminate].
    apply Forall_cons in Hc as [Hc Hcs].
    destruct (perform_owned c s0 s1 Hok Hh Hc H0 E) as [Hh1 H1].
    apply (IH s1 s); auto.
    eapply perform_pool_ok; eauto.
Qed.

Variable CircleEmitter : Q -> ParticleEmitter.

Lemma constructed_owned (options : Options.t) (rnd : Random) :
  owned (ParticleSystem CircleEmitter options rnd).
Proof.
  unfold owned, owns. simpl. conjs; try constructor.
  - intros h [b Hb]. unfold BillboardCollection.get in Hb. simpl in Hb.
    now rewrite lookup_empty in Hb.
  - intros h [b Hb]. unfold BillboardCollection.get in Hb. simpl in Hb.
    now rewrite lookup_empty in Hb.
Qed.

(** X15: The billboards follow the particles.  When the callbacks and emitters
    that a system is given leave the reference of a particle to its billboard
    alone, in every state that the system reaches through its interface the
    collection holds one billboard for each particle and no other: shown for
    a live particle, hidden for a pooled one, and as many as there are
    particles at hand. *)
Theorem billboards_follow_particles (calls : list Call)
    (options : Options.t) (rnd : Random) (s : System) :
  hooks_keep_billboard (ParticleSystem CircleEmitter options rnd) ->
  Forall call_keeps_billboard calls ->
  performAll Math_sqrt calls (ParticleSystem CircleEmitter options rnd)
  = Some s ->
  owned s /\ BillboardCollection.length (collection s) = atHand s.
Proof.
  intros Hh Hc H.
  assert (O : owned s).
  { apply (performAll_owned calls
             (ParticleSystem CircleEmitter options rnd) s); auto.
    - apply (constructed_invariants CircleEmitter options rnd).
    - apply constructed_owned. }
  split; [exact O | now apply owned_count].
Qed.

End Billboards.

(** A new system that is updated three times, at 0, 3 and 9 seconds, with
    an assignment to its emission rate in between: in the end 6 particles
    are live and 19 are in the pool, and the collection holds their 25
    billboards. *)
Lemma billboards_follow_particles_witness :
  let s := after (set_emissionRate 1
                    (after (newSystem Options.EMPTY_OBJECT)
                       [frame 0 1; frame 3 2]))
             [frame 9 3] in
  (length (_particles s) = 6%nat /\ length (_particlePool s) = 19%nat) /\
  owned s /\ BillboardCollection.length (collection s) = atHand s.
Proof.
  cbn zeta. split; [split; vm_compute; reflexivity|].
  apply (billboards_follow_particles exact_sqrt originEmitter
           [call_update (frame 0 1); call_update (frame 3 2);
            assign_emissionRate 1; call_update (frame 9 3)]
           Options.EMPTY_OBJECT halves).
  - split; [exact I|]. intros p numbers. reflexivity.
  - repeat constructor.
  - vm_compute. reflexivity.
Defined.

(** *** The billboard of a new particle *)

Lemma lerp_start (p q : Q) : CesiumMath.lerp p q 0 == p.
Proof. unfold CesiumMath.lerp. ring. Qed.

Section NewParticle.

Variable Math_sqrt : Q -> Q.

(** X16: A new particle on its billboard.  One turn of the emission loop leaves
    the new particle last in the live array with a billboard that is shown at
    the position of the particle, in its size, with the start colour and the
    start scale of the system.  A particle taken from the pool keeps the
    billboard it had there, and this billboard keeps its image, which
    updateBillboard never assigns; a particle made for want of a pooled one
    gets a new billboard with the image of the system. *)
Theorem new_particle_on_its_billboard (e : ParticleEmitter) (M : Matrix4)
    (s : System) :
  emitter_keeps_billboard (Some e) -> owned s ->
  let s' := emitOne Math_sqrt e M s in
  exists q h b,
    last (_particles s') = Some q /\ Particle._billboard q = Some h /\
    BillboardCollection.get h (collection s') = Some b /\
    Billboard.show b = true /\
    Billboard.position b = Particle.position q /\
    Billboard.width b = Some (Cartesian2.x (Particle.imageSize q)) /\
    Billboard.height b = Some (Cartesian2.y (Particle.imageSize q)) /\
    Billboard.sizeInMeters b = _sizeInMeters s /\
    (Color.red (Billboard.color b) == Color.red (_startColor s) /\
     Color.green (Billboard.color b) == Color.green (_startColor s) /\
     Color.blue (Billboard.color b) == Color.blue (_startColor s) /\
     Color.alpha (Billboard.color b) == Color.alpha (_startColor s)) /\
    Billboard.scale b == _startScale s /\
    Particle.image q = image s /\
    match last (_particlePool s) with
    | Some p0 =>
        Particle._billboard p0 = Some h /\
        exists b0, BillboardCollection.get h (collection s) = Some b0 /\
                   Billboard.image b = Billboard.image b0
    | None =>
        h = BillboardCollection.nextHandle (collection s) /\
        Billboard.image b = image s
    end.
Proof.
  intros He H. cbn zeta.
  destruct (emitOne_view Math_sqrt e M s)
    as (q & h & c0 & E1 & _ & E3 & Hq & Hc & _ & (A1 & A2)
        & (A3 & _ & A4 & _ & A5)).
  cbn zeta in *. simpl in He. rewrite He in Hc.
  pose proof H as (_ & P & _).
  assert (G : exists b0,
             BillboardCollection.get h c0 = Some b0 /\
             match last (_particlePool s) with
             | Some p0 =>
                 Particle._billboard p0 = Some h /\
                 BillboardCollection.get h (collection s) = Some b0
             | None =>
                 h = BillboardCollection.nextHandle (collection s) /\
                 Billboard.image b0 = image s
             end).
  { unfold getOrCreateParticle in Hc.
    destruct (snoc_cases (_particlePool s)) as [Ep|(pool0 & p0 & Ep)];
      rewrite Ep in *.
    - cbn [last fst snd] in *.
      destruct Hc as [[Hc _]|(_ & -> & ->)]; [discriminate|].
      destruct (get_add_eq (image s) true (collection s)) as (b0 & G & _ & I).
      exists b0. now conjs.
    - rewrite last_snoc in *. cbn [fst snd] in *.
      apply Forall_app in P as [_ P0].
      apply Forall_cons in P0 as [(h0 & b0 & Eh & G & _) _].
      destruct Hc as [[Hc ->]|[Hc _]]; [|congruence].
      assert (h = h0) by congruence. subst h0.
      exists b0. now conjs. }
  destruct G as (b0 & G0 & G).
  exists q, h, (pushToBillboard (_sizeInMeters s) q b0).
  rewrite E1, last_snoc, E3, get_modify_eq, G0.
  unfold pushToBillboard.
  cbn [Billboard.show Billboard.position Billboard.width Billboard.height
       Billboard.sizeInMeters Billboard.color Billboard.scale Billboard.image
       Color.red Color.green Color.blue Color.alpha fmap option_fmap
       option_map].
  rewrite A2, A3, A4.
  conjs; try reflexivity; try apply lerp_start; try exact Hq; try exact A5.
  destruct (last (_particlePool s)) as [p0|].
  - destruct G as [G1 G2]. split; [exact G1|]. now exists b0.
  - exact G.
Qed.

End NewParticle.

(** A particle emitted from the pool of a system whose image has been
    assigned since the pool was made. *)
Lemma new_particle_on_its_billboard_witness :
  let s := set_image (Some 7%nat)
             (after (newSystem Options.EMPTY_OBJECT) [frame 0 1]) in
  let s' := emitOne exact_sqrt (originEmitter 0) Matrix4.IDENTITY s in
  exists q h b,
    last (_particles s') = Some q /\ Particle._billboard q = Some h /\
    BillboardCollection.get h (collection s') = Some b /\
    Billboard.show b = true /\
    Billboard.position b = Particle.position q /\
    Billboard.width b = Some (Cartesian2.x (Particle.imageSize q)) /\
    Billboard.height b = Some (Cartesian2.y (Particle.imageSize q)) /\
    Billboard.sizeInMeters b = _sizeInMeters s /\
    (Color.red (Billboard.color b) == Color.red (_startColor s) /\
     Color.green (Billboard.color b) == Color.green (_startColor s) /\
     Color.blue (Billboard.color b) == Color.blue (_startColor s) /\
     Color.alpha (Billboard.color b) == Color.alpha (_startColor s)) /\
    Billboard.scale b == _startScale s /\
    Particle.image q = image s /\
    match last (_particlePool s) with
    | Some p0 =>
        Particle._billboard p0 = Some h /\
        exists b0, BillboardCollection.get h (collection s) = Some b0 /\
                   Billboard.image b = Billboard.image b0
    | None =>
        h = BillboardCollection.nextHandle (collection s) /\
        Billboard.image b = image s
    end.
Proof.
  apply (new_particle_on_its_billboard exact_sqrt (originEmitter 0)
           Matrix4.IDENTITY
           (set_image (Some 7%nat)
              (after (newSystem Options.EMPTY_OBJECT) [frame 0 1]))).
  - intros p numbers. reflexivity.
  - apply (performAll_owned exact_sqrt
             [call_update (frame 0 1); assign_image (Some 7%nat)]
             (newSystem Options.EMPTY_OBJECT)).
    + left. reflexivity.
    + split; [exact I|]. intros p numbers. reflexivity.
    + apply constructed_owned.
    + repeat constructor.
    + vm_compute. reflexivity.
Defined.

(** *** Billboards stay *)

Lemma grows_refl (c : BillboardCollection) : grows c c.
Proof. split; [|auto]. intros h b G. now exists b. Qed.

Lemma grows_trans (c1 c2 c3 : BillboardCollection) :
  grows c1 c2 -> grows c2 c3 -> grows c1 c3.
Proof.
  intros [K1 B1] [K2 B2]. split; [|auto].
  intros h b G. destruct (K1 h b G) as (b' & G' & I').
  destruct (K2 h b' G') as (b'' & G'' & I''). exists b''. split; congruence.
Qed.

Lemma modify_grows (f : Billboard -> Billboard) (h : nat)
    (c : BillboardCollection) :
  (forall b, Billboard.image (f b) = Billboard.image b) ->
  grows c (BillboardCollection.modify f h c).
Proof.
  intros Hf. split.
  - intros k b G. destruct (decide (h = k)) as [->|Hne].
    + exists (f b). now rewrite get_modify_eq, G.
    + exists b. now rewrite get_modify_ne.
  - intros B k Hk. apply is_Some_get_modify in Hk. now apply B.
Qed.

Lemma add_grows (img : Image) (shown : bool) (c : BillboardCollection) :
  handles_bounded c -> grows c (snd (BillboardCollection.add img shown c)).
Proof.
  intros B. split.
  - intros k b G. exists b. split; [|reflexivity].
    rewrite get_add_ne; [exact G|]. intros ->.
    assert (H : is_Some (BillboardCollection.get
                           (BillboardCollection.nextHandle c) c))
      by (now rewrite G).
    apply B in H. lia.
  - intros _ k Hk.
    destruct (decide (k = BillboardCollection.nextHandle c)) as [->|Hne].
    + simpl. lia.
    + rewrite get_add_ne in Hk by assumption. apply B in Hk. simpl. lia.
Qed.

Lemma updateBillboard_grows (sim : bool) (p : Particle)
    (c : BillboardCollection) :
  handles_bounded c -> grows c (snd (updateBillboard sim p c)).
Proof.
  intros B. unfold updateBillboard.
  destruct (Particle._billboard p) as [h|]; cbn [snd].
  - now apply modify_grows.
  - destruct (BillboardCollection.add (Particle.image p) true c)
      as [h c'] eqn:A.
    cbn [snd].
    apply (grows_trans _ c').
    + replace c' with (snd (BillboardCollection.add (Particle.image p) true c))
        by (now rewrite A).
      now apply add_grows.
    + now apply modify_grows.
Qed.

Lemma removeBillboard_grows (p : Particle) (c : BillboardCollection) :
  grows c (removeBillboard p c).
Proof.
  unfold removeBillboard. destruct (Particle._billboard p).
  - now apply modify_grows.
  - apply grows_refl.
Qed.

Lemma sweep_grows dt callback sim (n : nat) :
  forall (todo done pool : list Particle) (c : BillboardCollection),
    handles_bounded c ->
    grows c (snd (sweep dt callback sim n todo done pool c)).
Proof.
  induction n as [|n IH]; intros todo done pool c B; [apply grows_refl|].
  destruct todo as [|p rest]; [apply grows_refl|].
  cbn [sweep].
  destruct (Particle.update dt callback p) as [alive p'].
  destruct alive.
  - pose proof (updateBillboard_grows sim p' c B) as G.
    destruct (updateBillboard sim p' c) as [p'' c']. cbn [snd] in G.
    apply (grows_trans _ c'); [exact G|]. apply IH. now apply G.
  - pose proof (removeBillboard_grows p' c) as G.
    apply (grows_trans _ (removeBillboard p' c)); [exact G|].
    apply IH. now apply G.
Qed.

Lemma allocate_grows (n : nat) (img : Image) :
  forall (pool : list Particle) (c : BillboardCollection),
    handles_bounded c -> grows c (snd (allocate n img pool c)).
Proof.
  induction n as [|n IH]; intros pool c B; [apply grows_refl|].
  cbn [allocate].
  pose proof (add_grows img false c B) as G.
  destruct (BillboardCollection.add img false c) as [h c']. cbn [snd] in G.
  apply (grows_trans _ c'); [exact G|]. apply IH. now apply G.
Qed.

Lemma prepare_grows (s : System) :
  handles_bounded (collection s) ->
  grows (collection s) (collection (prepare s)).
Proof.
  intros B. unfold prepare.
  set (s0 := match _billboardCollection s with
             | Some _ => s
             | None => set__billboardCollection (Some BillboardCollection.new) s
             end).
  assert (E : collection s0 = collection s).
  { subst s0. unfold collection.
    now destruct (_billboardCollection s) eqn:E; cbn; rewrite ?E. }
  destruct (_updateParticlePool s0).
  - unfold updateParticlePool.
    pose proof (allocate_grows
                  (Z.to_nat
                     (Z.max (Qceiling (_emissionRate s0
                                       * _maximumParticleLife s0
                                       + burstAmount (_bursts s0))
                             - Z.of_nat (length (_particles s0))
                             - Z.of_nat (length (_particlePool s0))) 0))
                  (image s0) (_particlePool s0) (collection s0)) as A.
    destruct (allocate _ _ _ _) as [pool c]. cbn [snd] in A.
    rewrite E in A. now apply A.
  - rewrite E. apply grows_refl.
Qed.

Lemma simulate_grows (dt : Q) (s : System) :
  handles_bounded (collection s) ->
  grows (collection s) (collection (simulate dt s)).
Proof.
  intros B. rewrite simulate_sweep.
  pose proof (sweep_grows dt (updateCallback s) (_sizeInMeters s)
                (length (_particles s)) (_particles s) [] (_particlePool s)
                (collection s) B) as G.
  destruct (sweep _ _ _ _ _ _ _ _) as [[particles pool] c]. exact G.
Qed.

Section BillboardsStay.

Variable Math_sqrt : Q -> Q.

Lemma emitOne_grows (e : ParticleEmitter) (M : Matrix4) (s : System) :
  handles_bounded (collection s) ->
  grows (collection s) (collection (emitOne Math_sqrt e M s)).
Proof.
  intros B.
  destruct (emitOne_view Math_sqrt e M s)
    as (q & h & c0 & _ & _ & E & _ & Hc & _).
  cbn zeta in *. rewrite E.
  apply (grows_trans _ c0); [|now apply modify_grows].
  destruct Hc as [[_ ->]|(_ & _ & ->)]; [apply grows_refl|].
  now apply add_grows.
Qed.

Lemma emitLoop_grows (n : nat) (e : ParticleEmitter) (M : Matrix4) :
  forall s : System,
    handles_bounded (collection s) ->
    grows (collection s) (collection (emitLoop Math_sqrt n e M s)).
Proof.
  induction n as [|n IH]; intros s B; [apply grows_refl|].
  cbn [emitLoop]. pose proof (emitOne_grows e M s B) as G.
  apply (grows_trans _ (collection (emitOne Math_sqrt e M s))); [exact G|].
  apply IH. now apply G.
Qed.

Lemma emit_grows (dt : Q) (s : System) :
  handles_bounded (collection s) ->
  grows (collection s) (collection (emit Math_sqrt dt s)).
Proof.
  intros B. unfold emit.
  destruct (calculateNumberToEmit_frame s dt) as (_ & _ & _ & _ & C & _).
  destruct (calculateNumberToEmit s dt) as [numToEmit s1]. cbn [snd] in C.
  assert (E : collection s1 = collection s).
  { unfold collection, population in *. now injection C as _ _ ->. }
  rewrite <- E in *. unfold emitParticles.
  destruct (_emitter s1) as [e|]; [|apply grows_refl].
  destruct (Qgtb numToEmit 0); [|apply grows_refl].
  destruct (_matrixDirty s1); [|now apply emitLoop_grows].
  exact (emitLoop_grows _ e _
           (set__matrixDirty false
              (set__combinedMatrix
                 (Matrix4.multiply (_modelMatrix s1) (_emitterModelMatrix s1))
                 s1)) B).
Qed.

Lemma step_grows (s : System) (frameState : FrameState) :
  handles_bounded (collection s) ->
  grows (collection s) (collection (step Math_sqrt s frameState)).
Proof.
  intros B. unfold step, advance.
  destruct (checkLifetime_frame (ticked Math_sqrt (prepare s) frameState))
    as (_ & _ & C & _).
  assert (E : collection (checkLifetime
                            (ticked Math_sqrt (prepare s) frameState))
              = collection (ticked Math_sqrt (prepare s) frameState)).
  { unfold collection, population in *. now injection C as _ _ ->. }
  rewrite E. unfold ticked, tick.
  set (dt := frameTime (prepare s) frameState).
  change (collection (set__currentTime _ (set__previousTime _ ?x)))
    with (collection x).
  pose proof (prepare_grows s B) as G1.
  pose proof (simulate_grows dt (prepare s) (proj2 G1 B)) as G2.
  pose proof (emit_grows dt (simulate dt (prepare s))
                (proj2 G2 (proj2 G1 B))) as G3.
  eauto using grows_trans.
Qed.

Lemma update_grows (s s' : System) (frameState : FrameState) :
  pool_ok s -> handles_bounded (collection s) ->
  update Math_sqrt s frameState = Some s' ->
  grows (collection s) (collection s').
Proof.
  intros Hok B U. destruct (show s) eqn:Hshow.
  - rewrite update_step in U by assumption. injection U as <-.
    now apply step_grows.
  - rewrite update_not_shown in U by assumption. injection U as <-.
    apply grows_refl.
Qed.

Lemma performAll_bounded (calls : list Call) :
  forall s0 s : System,
    pool_ok s0 -> handles_bounded (collection s0) ->
    performAll Math_sqrt calls s0 = Some s -> handles_bounded (collection s).
Proof.
  induction calls as [|c calls IH]; intros s0 s Hok B H; simpl in H.
  - now injection H as <-.
  - destruct (perform Math_sqrt c s0) as [s1|] eqn:E; [|discriminate].
    apply (IH s1 s); [eauto using perform_pool_ok| |exact H].
    destruct (is_update c) eqn:Hu.
    + destruct c; try discriminate Hu. simpl in E.
      now apply (update_grows s0 s1 frameState Hok B E).
    + destruct (assignment_frame Math_sqrt c s0 s1 Hu E) as (P & _).
      unfold collection, population in *. now injection P as _ _ ->.
Qed.

Variable CircleEmitter : Q -> ParticleEmitter.

(** X17: Billboards stay.  In every state that a new system reaches through its
    interface, update removes no billboard from the collection and changes
    the image of none: every billboard that the collection holds before the
    update it holds after it, with the image it had. *)
Theorem billboards_never_removed (calls : list Call) (options : Options.t)
    (rnd : Random) (s : System) (frameState : FrameState) :
  performAll Math_sqrt calls (ParticleSystem CircleEmitter options rnd)
  = Some s ->
  exists s',
    update Math_sqrt s frameState = Some s' /\
    billboards_kept (collection s) (collection s').
Proof.
  intros H.
  pose proof (constructed_invariants CircleEmitter options rnd) as (Hok0 & _).
  assert (Hok : pool_ok s) by (eapply performAll_pool_ok; eauto).
  assert (B : handles_bounded (collection s)).
  { apply (performAll_bounded calls _ s Hok0); [|exact H].
    intros h [b Hb]. unfold BillboardCollection.get in Hb. simpl in Hb.
    now rewrite lookup_empty in Hb. }
  destruct (update_pool_ok Math_sqrt s frameState Hok) as (s' & U & _).
  exists s'. split; [exact U|].
  now apply (update_grows s s' frameState Hok B U).
Qed.

End BillboardsStay.

(** A system with 15 live particles and 10 pooled ones whose image is
    assigned and which is updated at a frame where the pool is released:
    by then the 15 particles have died. *)
Lemma billboards_never_removed_witness :
  let s := set_image (Some 7%nat)
             (after (newSystem Options.EMPTY_OBJECT) [frame 0 1; frame 3 2]) in
  BillboardCollection.length (collection s) = 25%nat /\
  exists s',
    update exact_sqrt s (frame 9 120) = Some s' /\
    billboards_kept (collection s) (collection s').
Proof.
  cbn zeta. split; [vm_compute; reflexivity|].
  apply (billboards_never_removed exact_sqrt originEmitter
           [call_update (frame 0 1); call_update (frame 3 2);
            assign_image (Some 7%nat)]
           Options.EMPTY_OBJECT halves).
  vm_compute. reflexivity.
Defined.

(** *** The emission loop and the pool *)

Lemma length_removelast {A} (l : list A) :
  length (removelast l) = pred (length l).
Proof.
  destruct (snoc_cases l) as [->|(l0 & x & ->)]; [reflexivity|].
  rewrite removelast_last, length_app. simpl. lia.
Qed.

Section EmissionLoop.

Variable Math_sqrt : Q -> Q.

Lemma emitOne_pool (e : ParticleEmitter) (M : Matrix4) (s : System) :
  length (_particlePool (emitOne Math_sqrt e M s))
  = pred (length (_particlePool s)).
Proof.
  destruct (emitOne_view Math_sqrt e M s) as (q & h & c0 & _ & E & _).
  cbn zeta in E. rewrite E. unfold getOrCreateParticle.
  destruct (last (_particlePool s)) eqn:L; cbn [snd _particlePool
                                                set__particlePool].
  - apply length_removelast.
  - apply last_None in L. now rewrite L.
Qed.

Lemma emitLoop_pool (n : nat) (e : ParticleEmitter) (M : Matrix4) :
  forall s : System,
    length (_particlePool (emitLoop Math_sqrt n e M s))
    = (length (_particlePool s) - n)%nat.
Proof.
  induction n as [|n IH]; intros s; cbn [emitLoop]; [lia|].
  rewrite IH, emitOne_pool. lia.
Qed.

(** X18: The emission loop draws on the pool first.  Emitting [n] particles takes
    as many particles from the pool as it holds, up to [n], and only the
    particles beyond those are made anew, each with a new billboard: the
    collection grows by the number of particles that the pool could not
    supply. *)
Theorem emission_draws_on_the_pool (n : nat) (e : ParticleEmitter)
    (M : Matrix4) (s : System) :
  emitter_keeps_billboard (Some e) -> owned s ->
  let s' := emitLoop Math_sqrt n e M s in
  length (_particles s') = (length (_particles s) + n)%nat /\
  length (_particlePool s') = (length (_particlePool s) - n)%nat /\
  BillboardCollection.length (collection s')
  = (BillboardCollection.length (collection s)
     + (n - length (_particlePool s)))%nat.
Proof.
  intros He H. cbn zeta.
  destruct (emitLoop_frame Math_sqrt n e M s) as (_ & _ & _ & _ & _ & L & _).
  pose proof (emitLoop_pool n e M s) as P.
  pose proof (owned_count s H) as C.
  pose proof (owned_count _ (emitLoop_owned Math_sqrt n e M s He H)) as C'.
  unfold atHand in *. conjs; [exact L | exact P | lia].
Qed.

(** *** Without an emitter *)

Lemma emit_no_emitter (dt : Q) (s : System) :
  _emitter s = None ->
  emit Math_sqrt dt s = snd (calculateNumberToEmit s dt).
Proof.
  intros H. unfold emit.
  destruct (calculateNumberToEmit_frame s dt) as (C & _).
  destruct (calculateNumberToEmit s dt) as [numToEmit s1]. cbn [snd] in *.
  apply settings_fields in C as (_ & _ & _ & C & _).
  unfold emitParticles. now rewrite C, H.
Qed.

Lemma step_no_emitter (s : System) (frameState : FrameState) :
  _emitter s = None ->
  let dt := frameTime s frameState in
  let scheduled := calculateNumberToEmit (simulate dt (prepare s)) dt in
  _particles (step Math_sqrt s frameState)
  = _particles (simulate dt (prepare s)) /\
  _particlePool (step Math_sqrt s frameState)
  = _particlePool (simulate dt (prepare s)) /\
  _carryOver (step Math_sqrt s frameState) = _carryOver (snd scheduled) /\
  _random (step Math_sqrt s frameState) = _random (snd scheduled).
Proof.
  intros H. cbn zeta.
  destruct (prepare_frame s) as (P1 & P2 & _).
  assert (F : frameTime (prepare s) frameState = frameTime s frameState).
  { unfold frameTime, clock in *.
    now replace (_previousTime (prepare s)) with (_previousTime s)
      by congruence. }
  unfold step, advance, ticked. rewrite F.
  set (dt := frameTime s frameState).
  destruct (simulate_frame dt (prepare s)) as (S1 & _).
  apply settings_fields in P1 as (_ & _ & _ & P1 & _).
  apply settings_fields in S1 as (_ & _ & _ & S1 & _).
  rewrite emit_no_emitter by congruence.
  destruct (calculateNumberToEmit_frame (simulate dt (prepare s)) dt)
    as (_ & _ & _ & _ & C & _).
  set (t := snd (calculateNumberToEmit (simulate dt (prepare s)) dt)) in *.
  destruct (checkLifetime_frame (tick dt frameState t))
    as (_ & _ & K1 & _ & K2 & K3).
  unfold population in *.
  injection K1 as K1 K1' _. injection C as C C' _.
  rewrite K1, K1', K2, K3. now conjs.
Qed.

(** X19: Without an emitter a system never emits, and yet its scheduler runs: an
    update adds no particle to the live particles and takes none from the
    pool, while the carry-over and the generator move on as the scheduler
    leaves them, so that the particles of a burst that is due are lost. *)
Theorem without_emitter_nothing_is_emitted (s : System)
    (frameState : FrameState) :
  _emitter s = None -> show s = true -> pool_ok s ->
  let dt := frameTime s frameState in
  let scheduled := calculateNumberToEmit (simulate dt (prepare s)) dt in
  exists s',
    update Math_sqrt s frameState = Some s' /\
    _particles s' = _particles (simulate dt (prepare s)) /\
    _particlePool s' = _particlePool (simulate dt (prepare s)) /\
    (length (_particles s') <= length (_particles s))%nat /\
    emitted s frameState = 0%nat /\
    _carryOver s' = _carryOver (snd scheduled) /\
    _random s' = _random (snd scheduled) /\
    forall dt', emit Math_sqrt dt' s = snd (calculateNumberToEmit s dt').
Proof.
  intros He Hshow Hok. cbn zeta.
  exists (step Math_sqrt s frameState).
  destruct (step_no_emitter s frameState He) as (E1 & E2 & E3 & E4).
  cbn zeta in *. conjs; auto.
  - now apply update_step.
  - rewrite E1.
    pose proof (simulate_live_bound (frameTime s frameState) (prepare s)) as B.
    destruct (prepare_frame s) as (_ & _ & _ & _ & P & _).
    rewrite P in B. exact B.
  - unfold emitted, emissionCount. now rewrite Hshow, He.
  - intros dt'. now apply emit_no_emitter.
Qed.

End EmissionLoop.

(** Thirty particles emitted with a pool of 25: the pool is emptied and 5
    billboards are added to the 25 of the collection. *)
Lemma emission_draws_on_the_pool_witness :
  let s := after (newSystem Options.EMPTY_OBJECT) [frame 0 1] in
  let s' := emitLoop exact_sqrt 30 (originEmitter 0) Matrix4.IDENTITY s in
  (length (_particlePool s) = 25%nat /\
   BillboardCollection.length (collection s) = 25%nat) /\
  length (_particles s') = (length (_particles s) + 30)%nat /\
  length (_particlePool s') = (length (_particlePool s) - 30)%nat /\
  BillboardCollection.length (collection s')
  = (BillboardCollection.length (collection s)
     + (30 - length (_particlePool s)))%nat.
Proof.
  cbn zeta. split; [split; vm_compute; reflexivity|].
  apply (emission_draws_on_the_pool exact_sqrt 30 (originEmitter 0)
           Matrix4.IDENTITY
           (after (newSystem Options.EMPTY_OBJECT) [frame 0 1])).
  - intros p numbers. reflexivity.
  - apply (performAll_owned exact_sqrt [call_update (frame 0 1)]
             (newSystem Options.EMPTY_OBJECT)).
    + left. reflexivity.
    + split; [exact I|]. intros p numbers. reflexivity.
    + apply constructed_owned.
    + repeat constructor.
    + vm_compute. reflexivity.
Defined.

(** Two bursts are due in a system without an emitter: the scheduler counts
    7.5 particles and marks the bursts as fired, and none is emitted. *)
Lemma without_emitter_nothing_is_emitted_witness :
  let s := muteSystem in
  let dt := frameTime s (frame 3 3) in
  let scheduled := calculateNumberToEmit (simulate dt (prepare s)) dt in
  (fst scheduled == 15 # 2 /\
   _bursts (snd scheduled)
   = Some [ParticleBurst.set__complete true (newBurst 1 2 4);
           ParticleBurst.set__complete true (newBurst (3 # 2) 1 6)]) /\
  exists s',
    update exact_sqrt s (frame 3 3) = Some s' /\
    _particles s' = _particles (simulate dt (prepare s)) /\
    _particlePool s' = _particlePool (simulate dt (prepare s)) /\
    (length (_particles s') <= length (_particles s))%nat /\
    emitted s (frame 3 3) = 0%nat /\
    _carryOver s' = _carryOver (snd scheduled) /\
    _random s' = _random (snd scheduled) /\
    forall dt', emit exact_sqrt dt' s = snd (calculateNumberToEmit s dt').
Proof.
  cbn zeta. split; [split; vm_compute; reflexivity|].
  apply (without_emitter_nothing_is_emitted exact_sqrt muteSystem (frame 3 3)).
  - reflexivity.
  - vm_compute. reflexivity.
  - right. vm_compute. discriminate.
Defined.

(** ** The configuration and the lifetime over a run *)

Section Lifetime.

Variable Math_sqrt : Q -> Q.

(** X20: update reads the configuration of a system and never writes it: over
    any run of updates the system keeps what its options and its setters
    have given it. *)
Theorem update_leaves_the_configuration (frames : list FrameState) :
  forall s s' : System,
    run Math_sqrt s frames = Some s' -> settings s' = settings s.
Proof.
  induction frames as [|f frames IH]; intros s s' H; simpl in H.
  - now injection H as <-.
  - destruct (update Math_sqrt s f) as [s1|] eqn:U; [|discriminate].
    rewrite (IH s1 s' H). eapply update_settings. exact U.
Qed.

Lemma step_currentTime_nonneg (s : System) (frameState : FrameState) :
  0 < _lifetime s -> 0 <= _currentTime s ->
  0 <= _currentTime (step Math_sqrt s frameState).
Proof.
  intros Hl Hc.
  destruct (step_ticked Math_sqrt s frameState) as (E & L1 & L2 & L3 & _).
  cbn zeta in *. rewrite E.
  set (t := ticked Math_sqrt (prepare s) frameState) in *.
  pose proof (frameTimeAfter_nonneg (_previousTime s) frameState) as N.
  rewrite <- frameTime_after in N.
  assert (Ht : 0 <= _currentTime t) by (rewrite L3; lra).
  unfold checkLifetime.
  destruct (negb _ && Qgtb _ _) eqn:C; [|exact Ht].
  destruct (loop t); [|exact Ht].
  cbn [_currentTime set__bursts set__currentTime].
  destruct (mod_wrap (_currentTime t) (_lifetime t)) as (_ & M & _);
    [exact Ht | now rewrite L2 | exact M].
Qed.

(** X21: A looping system never runs past its lifetime: with a finite lifetime
    that is positive, the elapsed time is between 0 and the lifetime after
    every update of a run. *)
Theorem looping_stays_within_lifetime (frames : list FrameState) :
  forall s : System,
    show s = true -> pool_ok s -> loop s = true ->
    ~ _lifetime s == MAX_VALUE -> 0 < _lifetime s ->
    between 0 (_lifetime s) (_currentTime s) ->
    exists s',
      run Math_sqrt s frames = Some s' /\
      between 0 (_lifetime s) (_currentTime s').
Proof.
  induction frames as [|f frames IH];
    intros s Hshow Hok Hloop Hfin Hpos [H0 H1].
  - exists s. now split.
  - cbn [run]. rewrite update_step by assumption.
    set (s1 := step Math_sqrt s f).
    pose proof (step_settings Math_sqrt s f) as S. fold s1 in S.
    apply settings_fields in S as (S1 & S2 & S3 & _).
    destruct (IH s1) as (s' & R & B).
    + congruence.
    + right. now apply step_covers.
    + congruence.
    + now rewrite S3.
    + now rewrite S3.
    + rewrite S3. split.
      * now apply step_currentTime_nonneg.
      * rewrite <- S3.
        apply (step_within_lifetime Math_sqrt s f Hpos);
          [fold s1; congruence | fold s1; now rewrite S3].
    + exists s'. rewrite S3 in B. now split.
Qed.

End Lifetime.

(** A looping system with a lifetime of 10 seconds, 8 seconds into its first
    cycle, over updates at 12, 31 and 45 seconds. *)
Lemma looping_stays_within_lifetime_witness :
  exists s',
    run exact_sqrt loopingSystem [frame 12 3; frame 31 4; frame 45 5]
    = Some s' /\
    between 0 (_lifetime loopingSystem) (_currentTime s').
Proof.
  apply (looping_stays_within_lifetime exact_sqrt
           [frame 12 3; frame 31 4; frame 45 5] loopingSystem).
  - vm_compute. reflexivity.
  - right. vm_compute. discriminate.
  - vm_compute. reflexivity.
  - vm_compute. discriminate.
  - vm_compute. reflexivity.
  - split; vm_compute; discriminate.
Defined.

(** The configuration of a system with two bursts after three updates. *)
Lemma update_leaves_the_configuration_witness :
  settings (after twoBurstSystem [frame 3 3; frame 4 4; frame 9 120])
  = settings twoBurstSystem.
Proof.
  apply (update_leaves_the_configuration exact_sqrt
           [frame 3 3; frame 4 4; frame 9 120] twoBurstSystem).
  vm_compute. reflexivity.
Defined.
